(** * text_cleaner: a shallow embedding of [TextCleaner] and its properties

    The development follows [scr/text_cleaner.py].  A Python [str] is a
    sequence of Unicode codepoints, so text is a list of integers; the
    regular expressions the module uses are fixed, and each one is embedded
    as the scanner it denotes under [re.sub] (leftmost match first, greedy
    quantifiers, matches do not overlap).  What the module takes from the
    Python runtime and cannot be read off its own source -- the named entity
    table of [html], the Unicode case mappings and the alphanumeric class,
    the compilation of a caller supplied pattern, and the number of digits
    [int] converts -- is a parameter, gathered in the record [PyLib]. *)

From Stdlib Require Import ZArith Bool Lia String Ascii List.
Import ListNotations.
Local Open Scope Z_scope.

(** ** Text *)

Definition str := list Z.

(** An ASCII literal as text. *)
Definition lit (s : string) : str :=
  map (fun a => Z.of_nat (nat_of_ascii a)) (list_ascii_of_string s).
Arguments lit s%_string.

(** [c in s] *)
Definition mem (c : Z) (s : str) : bool := existsb (Z.eqb c) s.

Definition len (s : str) : Z := Z.of_nat (length s).

(** [str.isspace] of one codepoint; the class [\s] of [re] on [str]
    patterns is the same set. *)
Definition isspace (c : Z) : bool :=
  ((9 <=? c) && (c <=? 13)) || ((28 <=? c) && (c <=? 32))
  || (c =? 0x85) || (c =? 0xA0) || (c =? 0x1680)
  || ((0x2000 <=? c) && (c <=? 0x200A))
  || (c =? 0x2028) || (c =? 0x2029) || (c =? 0x202F) || (c =? 0x205F)
  || (c =? 0x3000).

Fixpoint dropwhile (p : Z -> bool) (s : str) : str :=
  match s with
  | [] => []
  | c :: r => if p c then dropwhile p r else s
  end.

Fixpoint takewhile (p : Z -> bool) (s : str) : str :=
  match s with
  | [] => []
  | c :: r => if p c then c :: takewhile p r else []
  end.

Definition lstrip (s : str) : str := dropwhile isspace s.
Definition rstrip (s : str) : str := rev (dropwhile isspace (rev s)).
(** [s.strip()] *)
Definition strip (s : str) : str := rstrip (lstrip s).

Fixpoint is_prefix (p s : str) : bool :=
  match p, s with
  | [], _ => true
  | a :: p', b :: s' => (a =? b) && is_prefix p' s'
  | _ :: _, [] => false
  end.

(** [s.replace(old, new)]: occurrences are found left to right and do not
    overlap; [skip] counts the characters of a replaced occurrence that are
    still to be passed over. *)
Fixpoint replace_go (old new : str) (skip : nat) (s : str) : str :=
  match s with
  | [] => []
  | c :: r =>
      match skip with
      | S k => replace_go old new k r
      | O => if is_prefix old s
             then new ++ replace_go old new (pred (length old)) r
             else c :: replace_go old new O r
      end
  end.

Definition replace (old new s : str) : str :=
  match old with
  | [] => new ++ flat_map (fun c => c :: new) s
  | _ :: _ => replace_go old new O s
  end.

(** [for k, v in table.items(): text = text.replace(k, v)] *)
Definition replace_items (table : list (str * str)) (s : str) : str :=
  fold_left (fun t kv => replace (fst kv) (snd kv) t) table s.

(** [s.split(sep)] for a one character separator. *)
Fixpoint split (sep : Z) (s : str) : list str :=
  match s with
  | [] => [[]]
  | c :: r =>
      if c =? sep then [] :: split sep r
      else match split sep r with
           | [] => [[c]]
           | h :: t => (c :: h) :: t
           end
  end.

(** [sep.join(parts)] *)
Fixpoint join (sep : Z) (parts : list str) : str :=
  match parts with
  | [] => []
  | [p] => p
  | p :: rest => p ++ sep :: join sep rest
  end.

(** The text before the last separator, when there is one. *)
Fixpoint before_last (sep : Z) (s : str) : option str :=
  match s with
  | [] => None
  | c :: r =>
      match before_last sep r with
      | Some h => Some (c :: h)
      | None => if c =? sep then Some [] else None
      end
  end.

(** [s.rsplit(' ', 1)[0]] *)
Definition rsplit1_head (s : str) : str :=
  match before_last 32 s with
  | Some h => h
  | None => s
  end.

(** [s[:m]], with Python's reading of a negative bound. *)
Definition slice_to (m : Z) (s : str) : str :=
  if 0 <=? m then firstn (Z.to_nat m) s
  else firstn (Z.to_nat (len s + m)) s.

(** ** [re.sub] for a fixed pattern

    A matcher looks at the text from the current position on and answers
    with the length of the match that starts there and what replaces it.
    None of the patterns of the module matches the empty string. *)
Fixpoint sub_go (m : str -> option (nat * str)) (skip : nat) (s : str) : str :=
  match s with
  | [] => []
  | c :: r =>
      match skip with
      | S k => sub_go m k r
      | O =>
          match m s with
          | Some (S n, repl) => repl ++ sub_go m n r
          | _ => c :: sub_go m O r
          end
      end
  end.

Definition re_sub (m : str -> option (nat * str)) (s : str) : str := sub_go m O s.

Definition const_repl (m : str -> option nat) (repl : str) (s : str)
  : option (nat * str) :=
  match m s with
  | Some n => Some (n, repl)
  | None => None
  end.

(** Position of the first [c] in [s]. *)
Fixpoint index_of (c : Z) (s : str) : option nat :=
  match s with
  | [] => None
  | d :: r => if d =? c then Some O
              else match index_of c r with
                   | Some n => Some (S n)
                   | None => None
                   end
  end.

(** Position of the last [c] in [s]. *)
Fixpoint last_index_of (c : Z) (s : str) : option nat :=
  match s with
  | [] => None
  | d :: r => match last_index_of c r with
              | Some n => Some (S n)
              | None => if d =? c then Some O else None
              end
  end.

(** Letters under [re.IGNORECASE]: a character matches the pattern letter
    when its simple lower case is that letter; [i] is also matched by the
    dotless and the dotted capital forms. *)
Definition ci (lower upper c : Z) : bool := (c =? lower) || (c =? upper).
Definition ci_i (c : Z) : bool :=
  (c =? 105) || (c =? 73) || (c =? 0x130) || (c =? 0x131).

(** An optional [/] at the head of the text. *)
Definition opt_slash (s : str) : nat * str :=
  match s with
  | c :: r => if c =? 47 then (1%nat, r) else (O, s)
  | [] => (O, s)
  end.

Definition closes (s : str) : bool :=
  match s with
  | c :: _ => c =? 62
  | [] => false
  end.

(** [<br\s*/?>] with [re.IGNORECASE] *)
Definition m_br (s : str) : option nat :=
  match s with
  | lt :: b :: r :: t =>
      if (lt =? 60) && ci 98 66 b && ci 114 82 r then
        let ws := takewhile isspace t in
        let (k, t') := opt_slash (dropwhile isspace t) in
        if closes t' then Some (3 + length ws + k + 1)%nat else None
      else None
  | _ => None
  end.

(** [</?p\s*/?>] with [re.IGNORECASE] *)
Definition m_p (s : str) : option nat :=
  match s with
  | lt :: u =>
      if lt =? 60 then
        let (k0, u') := opt_slash u in
        match u' with
        | p :: t =>
            if ci 112 80 p then
              let ws := takewhile isspace t in
              let (k, t') := opt_slash (dropwhile isspace t) in
              if closes t' then Some (1 + k0 + 1 + length ws + k + 1)%nat
              else None
            else None
        | [] => None
        end
      else None
  | [] => None
  end.

(** [<li[^>]*>] with [re.IGNORECASE] *)
Definition m_li (s : str) : option nat :=
  match s with
  | lt :: l :: i :: t =>
      if (lt =? 60) && ci 108 76 l && ci_i i then
        match index_of 62 t with
        | Some n => Some (3 + n + 1)%nat
        | None => None
        end
      else None
  | _ => None
  end.

(** [<[^>]+>], the compiled [_html_tag_pattern] *)
Definition m_tag (s : str) : option nat :=
  match s with
  | lt :: t =>
      if lt =? 60 then
        match index_of 62 t with
        | Some (S n) => Some (1 + S n + 1)%nat
        | _ => None
        end
      else None
  | [] => None
  end.

Definition is_blank (c : Z) : bool := (c =? 32) || (c =? 9).

(** [[ \t]+], the compiled [_multi_space_pattern] *)
Definition m_spaces (s : str) : option nat :=
  match length (takewhile is_blank s) with
  | O => None
  | n => Some n
  end.

(** [\n\s*\n+], the compiled [_multi_newline_pattern]: from a newline
    through the last newline of the white space that follows it. *)
Definition m_newlines (s : str) : option nat :=
  match s with
  | c :: t =>
      if c =? 10 then
        match last_index_of 10 (takewhile isspace t) with
        | Some j => Some (1 + j + 1)%nat
        | None => None
        end
      else None
  | [] => None
  end.

(** ** Character tables of the class

    The codepoints are those of the source file.  [QUOTES] is the
    concatenation of its string literals, repetitions included. *)

Definition QUOTES : str :=
  [ 34                  (* Standard double quote *)
  ; 39                  (* Standard single quote *)
  ; 0xAB; 0xBB          (* French quotes *)
  ; 0x201E; 34          (* German quotes *)
  ; 0x201F; 34          (* Double high quotes *)
  ; 39                  (* Single curly quotes *)
  ; 0x201B              (* Single high quote *)
  ; 96; 0xB4            (* Backtick and acute *)
  ; 0x2033; 0x2032      (* Prime marks *)
  ; 0x301D; 0x301E      (* Japanese quotes *)
  ; 0xFF02              (* Fullwidth quote *)
  ].

Definition SPECIAL_SPACES : str :=
  [ 0xA0; 0xA0; 0x2000; 0x2001; 0x2002; 0x2003; 0x2004; 0x2005; 0x2006
  ; 0x2007; 0x2008; 0x2009; 0x200A; 0x200B; 0x202F; 0x205F; 0x3000; 0xFEFF ].

Definition hyphen : str := [45].

Definition DASHES : list (str * str) :=
  [ ([0x2013], hyphen)  (* En dash *)
  ; ([0x2014], hyphen)  (* Em dash *)
  ; ([0x2015], hyphen)  (* Horizontal bar *)
  ; ([0x2010], hyphen)  (* Hyphen *)
  ; ([0x2011], hyphen)  (* Non-breaking hyphen *)
  ; ([0x2012], hyphen)  (* Figure dash *)
  ; ([0x2212], hyphen)  (* Minus sign *)
  ; ([0x2043], hyphen)  (* Hyphen bullet *)
  ; ([0xFE63], hyphen)  (* Small hyphen-minus *)
  ; ([0xFF0D], hyphen)  (* Fullwidth hyphen-minus *)
  ].

Definition HTML_ENTITIES : list (str * str) :=
  [ (lit "&nbsp;", [32])
  ; (lit "&amp;", [38])
  ; (lit "&lt;", [60])
  ; (lit "&gt;", [62])
  ; (lit "&quot;", [34])
  ; (lit "&apos;", [39])
  ; (lit "&#39;", [39])
  ; (lit "&#34;", [34])
  ; (lit "&mdash;", hyphen)
  ; (lit "&ndash;", hyphen)
  ; (lit "&bull;", [0x2022])
  ; (lit "&copy;", [0xA9])
  ; (lit "&reg;", [0xAE])
  ; (lit "&trade;", [0x2122])
  ; (lit "&euro;", [0x20AC])
  ; (lit "&pound;", [0xA3])
  ; (lit "&yen;", [0xA5])
  ; (lit "&cent;", [0xA2])
  ; (lit "&deg;", [0xB0])
  ; (lit "&plusmn;", [0xB1])
  ; (lit "&times;", [0xD7])
  ; (lit "&divide;", [0xF7])
  ; (lit "&frac12;", [0xBD])
  ; (lit "&frac14;", [0xBC])
  ; (lit "&frac34;", [0xBE])
  ].

(** [range(lo, hi + 1)] *)
Definition zrange (lo hi : Z) : list Z :=
  map (fun k => lo + Z.of_nat k) (seq 0 (Z.to_nat (hi + 1 - lo))).

Definition INVISIBLE_CHARS : str :=
  filter (fun c => negb (mem c [9; 10; 13])) (zrange 0 31)
  ++ [ 0x200C; 0x200D; 0x2060; 0x2063; 0x2064; 0xFFFE; 0xFFFF; 0xFFFD ].

(** ** Outcomes *)

(** The exceptions a call of the cleaner can end in: [re.error], when a
    pattern does not compile, and [ValueError], when [int] is given more
    decimal digits than the interpreter converts. *)
Inductive error :=
| ReError
| ValueError.

(** A call returns a value or raises. *)
Inductive exc (A : Type) :=
| Ret (a : A)
| Raise (e : error).
Arguments Ret {A} a.
Arguments Raise {A} e.

Definition bind {A B : Type} (m : exc A) (k : A -> exc B) : exc B :=
  match m with
  | Ret a => k a
  | Raise e => Raise e
  end.

Notation "x <- m ;; k" := (bind m (fun x => k))
  (at level 61, m at next level, right associativity).

(** ** What comes from the Python runtime *)

Record PyLib := {
  (** [html.entities.html5], the named character references, keyed by the
      name without its ampersand *)
  html5 : str -> option str;
  (** the full lower and upper case mapping of one codepoint *)
  tolower_full : Z -> str;
  toupper_full : Z -> str;
  (** the Unicode properties Cased and Case_Ignorable *)
  is_cased : Z -> bool;
  is_case_ignorable : Z -> bool;
  (** [str.isalnum] of one codepoint *)
  is_alnum : Z -> bool;
  (** [re.sub(pattern, '', text)] for a pattern given as text; [None] when
      the pattern does not compile and [re.error] is raised *)
  re_delete : str -> option (str -> str);
  (** [sys.get_int_max_str_digits()]: how many decimal digits [int]
      converts, 0 for no limit *)
  int_max_str_digits : nat
}.

(** ** [html.unescape] *)

Definition invalid_charrefs : list (Z * str) :=
  [ (0x00, [0xFFFD]); (0x0D, [13]); (0x80, [0x20AC]); (0x81, [0x81])
  ; (0x82, [0x201A]); (0x83, [0x0192]); (0x84, [0x201E]); (0x85, [0x2026])
  ; (0x86, [0x2020]); (0x87, [0x2021]); (0x88, [0x02C6]); (0x89, [0x2030])
  ; (0x8A, [0x0160]); (0x8B, [0x2039]); (0x8C, [0x0152]); (0x8D, [0x8D])
  ; (0x8E, [0x017D]); (0x8F, [0x8F]); (0x90, [0x90]); (0x91, [0x2018])
  ; (0x92, [0x2019]); (0x93, [0x201C]); (0x94, [0x201D]); (0x95, [0x2022])
  ; (0x96, [0x2013]); (0x97, [0x2014]); (0x98, [0x02DC]); (0x99, [0x2122])
  ; (0x9A, [0x0161]); (0x9B, [0x203A]); (0x9C, [0x0153]); (0x9D, [0x9D])
  ; (0x9E, [0x017E]); (0x9F, [0x0178]) ].

Definition invalid_codepoints : list Z :=
  zrange 0x1 0x8 ++ zrange 0xE 0x1F ++ zrange 0x7F 0x9F ++ zrange 0xFDD0 0xFDEF
  ++ [ 0xB; 0xFFFE; 0xFFFF; 0x1FFFE; 0x1FFFF; 0x2FFFE; 0x2FFFF; 0x3FFFE
     ; 0x3FFFF; 0x4FFFE; 0x4FFFF; 0x5FFFE; 0x5FFFF; 0x6FFFE; 0x6FFFF
     ; 0x7FFFE; 0x7FFFF; 0x8FFFE; 0x8FFFF; 0x9FFFE; 0x9FFFF; 0xAFFFE
     ; 0xAFFFF; 0xBFFFE; 0xBFFFF; 0xCFFFE; 0xCFFFF; 0xDFFFE; 0xDFFFF
     ; 0xEFFFE; 0xEFFFF; 0xFFFFE; 0xFFFFF; 0x10FFFE; 0x10FFFF ].

Fixpoint assoc (k : Z) (table : list (Z * str)) : option str :=
  match table with
  | [] => None
  | (k', v) :: rest => if k =? k' then Some v else assoc k rest
  end.

Definition is_digit (c : Z) : bool := (48 <=? c) && (c <=? 57).

Definition hex_val (c : Z) : option Z :=
  if is_digit c then Some (c - 48)
  else if (97 <=? c) && (c <=? 102) then Some (c - 87)
  else if (65 <=? c) && (c <=? 70) then Some (c - 55)
  else None.

Definition is_hex (c : Z) : bool :=
  match hex_val c with Some _ => true | None => false end.

(** [int(digits, base)] *)
Definition int_of (base : Z) (digits : str) : Z :=
  fold_left (fun acc c =>
               acc * base + match hex_val c with Some v => v | None => 0 end)
            digits 0.

(** The class [[^\t\n\f <&#;]] *)
Definition is_name_char (c : Z) : bool :=
  negb (mem c [9; 10; 12; 32; 60; 38; 35; 59]).

(** An optional [;] at the head of the text. *)
Definition opt_semi (s : str) : nat :=
  match s with
  | c :: _ => if c =? 59 then 1%nat else O
  | [] => O
  end.

(** [int(digits)] in base 10: refused, with [ValueError], when there are
    more digits than the interpreter's limit (the limit is not looked at
    below 640 digits, and does not apply to base 16). *)
Definition int_dec (L : PyLib) (digits : str) : exc Z :=
  let n := length digits in
  if (640 <? n)%nat && (0 <? int_max_str_digits L)%nat
     && (int_max_str_digits L <? n)%nat
  then Raise ValueError
  else Ret (int_of 10 digits).

(** The numeric branch of [_replace_charref], from the number on. *)
Definition charref_num (num : Z) : str :=
  match assoc num invalid_charrefs with
  | Some r => r
  | None =>
      if ((0xD800 <=? num) && (num <=? 0xDFFF)) || (0x10FFFF <? num)
      then [0xFFFD]
      else if mem num invalid_codepoints then []
      else [num]
  end.

(** [for x in range(len(s)-1, 1, -1): if s[:x] in _html5: ...], entered at
    [x]. *)
Fixpoint longest_name (L : PyLib) (s : str) (x : nat) : option str :=
  match x with
  | O => None
  | S x' =>
      if (2 <=? x)%nat then
        match html5 L (firstn x s) with
        | Some v => Some (v ++ skipn x s)
        | None => longest_name L s x'
        end
      else None
  end.

(** The named branch of [_replace_charref]. *)
Definition charref_named (L : PyLib) (s : str) : str :=
  match html5 L s with
  | Some v => v
  | None =>
      match longest_name L s (pred (length s)) with
      | Some r => r
      | None => 38 :: s
      end
  end.

(** [_charref], with the replacement each match receives:
    [&(#[0-9]+;?|#[xX][0-9a-fA-F]+;?|[^\t\n\f <&#;]{1,32};?)] *)
Definition m_charref (L : PyLib) (s : str) : option (nat * exc str) :=
  match s with
  | amp :: h :: u =>
      if amp =? 38 then
        if h =? 35 then
          match takewhile is_digit u with
          | (_ :: _) as ds =>
              Some ((2 + length ds + opt_semi (skipn (length ds) u))%nat,
                    num <- int_dec L ds ;; Ret (charref_num num))
          | [] =>
              match u with
              | x :: v =>
                  if (x =? 120) || (x =? 88) then
                    match takewhile is_hex v with
                    | (_ :: _) as hs =>
                        Some ((3 + length hs + opt_semi (skipn (length hs) v))%nat,
                              Ret (charref_num (int_of 16 hs)))
                    | [] => None
                    end
                  else None
              | [] => None
              end
          end
        else
          match takewhile is_name_char (firstn 32 (h :: u)) with
          | (_ :: _) as name =>
              let k := opt_semi (skipn (length name) (h :: u)) in
              Some ((1 + length name + k)%nat,
                    Ret (charref_named L (firstn (length name + k) (h :: u))))
          | [] => None
          end
      else None
  | _ => None
  end.

(** [pattern.sub(function, text)] for a replacement function that may
    raise. *)
Fixpoint sub_go_exc (m : str -> option (nat * exc str)) (skip : nat) (s : str)
  : exc str :=
  match s with
  | [] => Ret []
  | c :: r =>
      match skip with
      | S k => sub_go_exc m k r
      | O =>
          match m s with
          | Some (S n, repl) =>
              repl <- repl ;; rest <- sub_go_exc m n r ;; Ret (repl ++ rest)
          | _ => rest <- sub_go_exc m O r ;; Ret (c :: rest)
          end
      end
  end.

Definition unescape (L : PyLib) (s : str) : exc str :=
  if mem 38 s then sub_go_exc (m_charref L) O s else Ret s.

(** ** [str.lower] and [str.upper]

    Every codepoint is mapped on its own, except the capital sigma, whose
    lower case depends on the cased letters around it. *)

Definition final_sigma (L : PyLib) (before_rev after : str) : bool :=
  match dropwhile (is_case_ignorable L) before_rev with
  | c :: _ =>
      is_cased L c
      && match dropwhile (is_case_ignorable L) after with
         | d :: _ => negb (is_cased L d)
         | [] => true
         end
  | [] => false
  end.

Definition lower_at (L : PyLib) (before_rev : str) (c : Z) (after : str) : str :=
  if c =? 0x3A3
  then [if final_sigma L before_rev after then 0x3C2 else 0x3C3]
  else tolower_full L c.

Fixpoint lower_go (L : PyLib) (before_rev s : str) : str :=
  match s with
  | [] => []
  | c :: r => lower_at L before_rev c r ++ lower_go L (c :: before_rev) r
  end.

Definition lower (L : PyLib) (s : str) : str := lower_go L [] s.

Definition upper (L : PyLib) (s : str) : str := flat_map (toupper_full L) s.

(** ** Values *)

(** What a caller may pass for [text]: [None], a [str], or any other
    object, of which only its truth value and [str(...)] matter. *)
Inductive pyobj :=
| PyNone
| PyStr (s : str)
| PyObj (truthy : bool) (repr : str).

Definition is_none (o : pyobj) : bool :=
  match o with PyNone => true | _ => false end.

(** [str(o)] *)
Definition to_str (o : pyobj) : str :=
  match o with
  | PyNone => lit "None"
  | PyStr s => s
  | PyObj _ repr => repr
  end.

(** [bool(o)] *)
Definition truth (o : pyobj) : bool :=
  match o with
  | PyNone => false
  | PyStr s => match s with [] => false | _ :: _ => true end
  | PyObj t _ => t
  end.

(** ** The cleaner *)

(** The keyword arguments of [__init__]. *)
Record Options := {
  opt_remove_quotes : bool;
  opt_normalize_dashes : bool;
  opt_normalize_spaces : bool;
  opt_remove_html_tags : bool;
  opt_decode_html_entities : bool;
  opt_remove_invisible : bool;
  opt_preserve_newlines : bool;
  opt_lowercase : bool;
  opt_max_length : option Z;
  opt_allowed_chars : option str;
  opt_extra_remove : option str
}.

Definition defaults : Options := {|
  opt_remove_quotes := true;
  opt_normalize_dashes := true;
  opt_normalize_spaces := true;
  opt_remove_html_tags := true;
  opt_decode_html_entities := true;
  opt_remove_invisible := true;
  opt_preserve_newlines := false;
  opt_lowercase := false;
  opt_max_length := None;
  opt_allowed_chars := None;
  opt_extra_remove := None
|}.

(** The attributes of an instance.  The patterns [_compile_patterns]
    stores are the same for every instance: they are the matchers above and
    the three character classes below. *)
Record TextCleaner := {
  remove_quotes : bool;
  normalize_dashes : bool;
  normalize_spaces : bool;
  remove_html_tags : bool;
  decode_html_entities : bool;
  remove_invisible : bool;
  preserve_newlines : bool;
  lowercase : bool;
  max_length : option Z;
  allowed_chars : option str;
  extra_remove : str
}.

(** [TextCleaner(...)]: the attributes are stored and the fixed
    patterns compiled; [allowed_chars] and [extra_remove] are not looked
    at. *)
Definition TextCleaner_init (o : Options) : exc TextCleaner :=
  Ret {|
    remove_quotes := opt_remove_quotes o;
    normalize_dashes := opt_normalize_dashes o;
    normalize_spaces := opt_normalize_spaces o;
    remove_html_tags := opt_remove_html_tags o;
    decode_html_entities := opt_decode_html_entities o;
    remove_invisible := opt_remove_invisible o;
    preserve_newlines := opt_preserve_newlines o;
    lowercase := opt_lowercase o;
    max_length := opt_max_length o;
    allowed_chars := opt_allowed_chars o;
    extra_remove := match opt_extra_remove o with Some s => s | None => [] end
  |}.

(** [pattern.sub('', text)] for a class of literal characters *)
Definition delete_chars (set : str) (s : str) : str :=
  filter (fun c => negb (mem c set)) s.

(** [pattern.sub(' ', text)] for a class of literal characters *)
Definition chars_to_space (set : str) (s : str) : str :=
  map (fun c => if mem c set then 32 else c) s.

Definition newline : str := [10].
Definition dots : str := lit "...".

(** 1. Decode HTML entities first *)
Definition decode_entities (L : PyLib) (text : str) : exc str :=
  text <- unescape L text ;;
  Ret (replace_items HTML_ENTITIES text).

(** 2. Remove HTML tags *)
Definition strip_tags (text : str) : str :=
  let text := re_sub (const_repl m_br newline) text in
  let text := re_sub (const_repl m_p newline) text in
  let text := re_sub (const_repl m_li [10; 0x2022; 32]) text in
  re_sub (const_repl m_tag []) text.

(** 9. Handle whitespace, newlines kept *)
Definition normalize_lines (text : str) : str :=
  let text := re_sub (const_repl m_spaces [32]) text in
  let text := re_sub (const_repl m_newlines [10; 10]) text in
  join 10 (map strip (split 10 text)).

(** 9. Handle whitespace, everything to a single line *)
Definition single_line (text : str) : str :=
  let text := replace [13] [32] (replace [10] [32] text) in
  re_sub (const_repl m_spaces [32]) text.

(** 8. Filter to allowed characters only: the pattern is built and
    compiled here, each time [clean] runs. *)
Definition filter_allowed (L : PyLib) (self : TextCleaner) (text : str)
  : exc str :=
  match allowed_chars self with
  | Some ((_ :: _) as frag) =>
      match re_delete L (lit "[^" ++ frag ++ lit "]") with
      | Some f => Ret (f text)
      | None => Raise ReError
      end
  | _ => Ret text
  end.

(** 12. Truncate *)
Definition cut (self : TextCleaner) (text : str) : str :=
  match max_length self with
  | Some m =>
      if negb (m =? 0) && (m <? len text)
      then rsplit1_head (slice_to m text) ++ dots
      else text
  | None => text
  end.

(** Stages 2 to 7. *)
Definition tags_to_extra (self : TextCleaner) (text : str) : str :=
  let text := if remove_html_tags self then strip_tags text else text in
  let text := if remove_invisible self then delete_chars INVISIBLE_CHARS text else text in
  let text := if normalize_spaces self then chars_to_space SPECIAL_SPACES text else text in
  let text := if normalize_dashes self then replace_items DASHES text else text in
  let text := if remove_quotes self then chars_to_space QUOTES text else text in
  match extra_remove self with
  | (_ :: _) as extra => delete_chars extra text
  | [] => text
  end.

(** Stages 1 to 7. *)
Definition before_filter (L : PyLib) (self : TextCleaner) (text : str)
  : exc str :=
  text <- (if decode_html_entities self then decode_entities L text
           else Ret text) ;;
  Ret (tags_to_extra self text).

(** Stages 9 to 11: the text as it stands before truncation. *)
Definition after_filter (L : PyLib) (self : TextCleaner) (text : str) : str :=
  let text := if preserve_newlines self then normalize_lines text
              else single_line text in
  let text := if lowercase self then lower L text else text in
  strip text.

(** The stages of [clean] on a non empty [str]. *)
Definition pipeline (L : PyLib) (self : TextCleaner) (text : str) : exc str :=
  text <- before_filter L self text ;;
  text <- filter_allowed L self text ;;
  Ret (cut self (after_filter L self text)).

(** [TextCleaner.clean] *)
Definition clean (L : PyLib) (self : TextCleaner) (text : pyobj) : exc str :=
  if is_none text then Ret []
  else
    match to_str text with
    | [] => Ret []
    | (_ :: _) as text => pipeline L self text
    end.

(** The class [\w] on [str] patterns: alphanumeric, or the underscore. *)
Definition is_word (L : PyLib) (c : Z) : bool := is_alnum L c || (c =? 95).

(** The class [[\w\-.]] *)
Definition sku_char (L : PyLib) (c : Z) : bool :=
  is_word L c || (c =? 45) || (c =? 46).

(** [TextCleaner.clean_sku] *)
Definition clean_sku (L : PyLib) (self : TextCleaner) (text : pyobj) : exc str :=
  if negb (truth text) then Ret []
  else
    text <- clean L self text ;;
    let text := filter (sku_char L) text in
    Ret (upper L text).

(** [TextCleaner.clean_email] *)
Definition clean_email (L : PyLib) (text : pyobj) : str :=
  if negb (truth text) then []
  else
    let text := lower L (strip (to_str text)) in
    let text := delete_chars INVISIBLE_CHARS text in
    delete_chars SPECIAL_SPACES text.

(** [TextCleaner.truncate]; [text] may be [None]. *)
Definition truncate (text : option str) (max_length : Z) (suffix : str) : str :=
  match text with
  | None | Some [] => []
  | Some text =>
      if len text <=? max_length then text
      else rsplit1_head (slice_to max_length text) ++ suffix
  end.

(** ** A small runtime

    A runtime to run the cleaner on concrete text: the case mappings and
    the alphanumeric class of ASCII, the entity names the class table
    itself lists (with the values [html.entities.html5] gives them),
    the usual limit of 4300 digits for [int], and patterns that are one
    character set of plain characters and ranges.
    Such a set is read as [re] reads it, and is refused as [re] refuses it
    when it is not closed or a range runs backwards; a pattern outside this
    shape is not modelled and refused too. *)
Module Small.

Definition names : list (str * str) :=
  [ (lit "nbsp;", [0xA0]); (lit "nbsp", [0xA0])
  ; (lit "amp;", [38]); (lit "amp", [38])
  ; (lit "lt;", [60]); (lit "lt", [60])
  ; (lit "gt;", [62]); (lit "gt", [62])
  ; (lit "quot;", [34]); (lit "quot", [34])
  ; (lit "apos;", [39])
  ; (lit "mdash;", [0x2014]); (lit "ndash;", [0x2013])
  ; (lit "bull;", [0x2022])
  ; (lit "copy;", [0xA9]); (lit "copy", [0xA9])
  ; (lit "reg;", [0xAE]); (lit "reg", [0xAE])
  ; (lit "trade;", [0x2122]); (lit "euro;", [0x20AC])
  ; (lit "pound;", [0xA3]); (lit "pound", [0xA3])
  ; (lit "yen;", [0xA5]); (lit "yen", [0xA5])
  ; (lit "cent;", [0xA2]); (lit "cent", [0xA2])
  ; (lit "deg;", [0xB0]); (lit "deg", [0xB0])
  ; (lit "plusmn;", [0xB1]); (lit "plusmn", [0xB1])
  ; (lit "times;", [0xD7]); (lit "times", [0xD7])
  ; (lit "divide;", [0xF7]); (lit "divide", [0xF7])
  ; (lit "frac12;", [0xBD]); (lit "frac12", [0xBD])
  ; (lit "frac14;", [0xBC]); (lit "frac14", [0xBC])
  ; (lit "frac34;", [0xBE]); (lit "frac34", [0xBE]) ].

Fixpoint str_eqb (a b : str) : bool :=
  match a, b with
  | [], [] => true
  | x :: a', y :: b' => (x =? y) && str_eqb a' b'
  | _, _ => false
  end.

Fixpoint lookup (k : str) (table : list (str * str)) : option str :=
  match table with
  | [] => None
  | (k', v) :: rest => if str_eqb k k' then Some v else lookup k rest
  end.

Definition is_upper (c : Z) : bool := (65 <=? c) && (c <=? 90).
Definition is_lower (c : Z) : bool := (97 <=? c) && (c <=? 122).

Definition to_lower (c : Z) : str :=
  if is_upper c then [c + 32] else if c =? 0x3A3 then [0x3C3] else [c].
Definition to_upper (c : Z) : str := if is_lower c then [c - 32] else [c].

(** The members of a set: literals and ranges, both as bounds. *)
Definition in_set (items : list (Z * Z)) (c : Z) : bool :=
  existsb (fun r => (fst r <=? c) && (c <=? snd r)) items.

(** The body of a character set, after [[] and an optional [^], up to
    the closing bracket; [first] tells that no member was read yet, where
    a closing bracket stands for itself. *)
Fixpoint set_body (fuel : nat) (first : bool) (s : str)
  : option (list (Z * Z) * str) :=
  match fuel with
  | O => None
  | S fuel' =>
      match s with
      | [] => None                                 (* unterminated set *)
      | c :: r =>
          if (c =? 93) && negb first then Some ([], r)
          else if (c =? 92) || (c =? 91) then None   (* not modelled *)
          else
            match r with
            | d :: e :: r' =>
                if (d =? 45) && negb (e =? 93) then
                  if (e =? 92) || (e <? c) then None (* bad range *)
                  else
                    match set_body fuel' false r' with
                    | Some (items, rest) => Some ((c, e) :: items, rest)
                    | None => None
                    end
                else
                  match set_body fuel' false r with
                  | Some (items, rest) => Some ((c, c) :: items, rest)
                  | None => None
                  end
            | _ =>
                match set_body fuel' false r with
                | Some (items, rest) => Some ((c, c) :: items, rest)
                | None => None
                end
            end
      end
  end.

(** [re.sub(pattern, '', text)] for a pattern [[^...]] or [[...]]. *)
Definition delete (pattern : str) : option (str -> str) :=
  match pattern with
  | open :: body =>
      if open =? 91 then
        let (negate, body) :=
          match body with
          | c :: r => if c =? 94 then (true, r) else (false, body)
          | [] => (false, body)
          end in
        match set_body (S (length body)) true body with
        | Some (items, []) =>
            Some (filter (fun c => negb (xorb negate (in_set items c))))
        | _ => None
        end
      else None
  | [] => None
  end.

Definition lib : PyLib := {|
  html5 := fun k => lookup k names;
  tolower_full := to_lower;
  toupper_full := to_upper;
  is_cased := fun c => is_upper c || is_lower c;
  is_case_ignorable := fun c => mem c [39; 46; 58; 94; 96];
  is_alnum := fun c => is_upper c || is_lower c || is_digit c;
  re_delete := delete;
  int_max_str_digits := 4300
|}.

End Small.

(** The cleaner of the module level functions: [TextCleaner()]. *)
Definition default_cleaner : TextCleaner :=
  {| remove_quotes := true; normalize_dashes := true;
     normalize_spaces := true; remove_html_tags := true;
     decode_html_entities := true; remove_invisible := true;
     preserve_newlines := false; lowercase := false;
     max_length := None; allowed_chars := None; extra_remove := [] |}.

(** The cleaners of the examples. *)
Definition with_newlines : TextCleaner :=
  {| remove_quotes := true; normalize_dashes := true;
     normalize_spaces := true; remove_html_tags := true;
     decode_html_entities := true; remove_invisible := true;
     preserve_newlines := true; lowercase := false;
     max_length := None; allowed_chars := None; extra_remove := [] |}.

Definition keep_special_spaces : TextCleaner :=
  {| remove_quotes := true; normalize_dashes := true;
     normalize_spaces := false; remove_html_tags := true;
     decode_html_entities := true; remove_invisible := true;
     preserve_newlines := false; lowercase := false;
     max_length := None; allowed_chars := None; extra_remove := [] |}.

Definition with_max_length (m : Z) : TextCleaner :=
  {| remove_quotes := true; normalize_dashes := true;
     normalize_spaces := true; remove_html_tags := true;
     decode_html_entities := true; remove_invisible := true;
     preserve_newlines := false; lowercase := false;
     max_length := Some m; allowed_chars := None; extra_remove := [] |}.

(** * What is asked of the runtime *)

(** The lower case of a character that is no line break holds no line
    break. *)
Definition lower_makes_no_line_break (L : PyLib) : Prop :=
  forall c d, In d (tolower_full L c) -> d = 10 \/ d = 13 -> c = d.

(** The runtime agrees with ASCII on the upper case and the alphanumeric
    class of the first 128 codepoints. *)
Definition ascii_upper_and_alnum (L : PyLib) : Prop :=
  forall c, 0 <= c < 128 ->
    toupper_full L c = Small.to_upper c
    /\ is_alnum L c = (Small.is_upper c || Small.is_lower c || is_digit c).

Definition is_ascii (s : str) : Prop := forall c, In c s -> 0 <= c < 128.

(** A character the runtime never changes when lowering: its own lower
    case, and not the capital sigma. *)
Definition lower_fixed (L : PyLib) (c : Z) : Prop :=
  tolower_full L c = [c] /\ c <> 0x3A3.

(** Lowering yields lower case: every character of a lower case mapping,
    and both small sigmas, are left alone by lowering. *)
Definition lower_is_stable (L : PyLib) : Prop :=
  (forall c d, In d (tolower_full L c) -> lower_fixed L d)
  /\ lower_fixed L 0x3C2 /\ lower_fixed L 0x3C3.

(** * Fixed points of the stages

    What a stage leaves behind, stated on the text itself. *)

(** The keys of [DASHES]; each is one character. *)
Definition dash_keys : str := flat_map fst DASHES.

(** [text.replace(k, '-')] for every key, as one pass. *)
Definition dash_to_hyphen (c : Z) : Z := if mem c dash_keys then 45 else c.

(** The characters the stages look for, and the dot of the suffix. *)
Definition reserved (c : Z) : bool :=
  isspace c || (c =? 60) || (c =? 62) || (c =? 46)
  || mem c QUOTES || mem c dash_keys || mem c SPECIAL_SPACES
  || mem c INVISIBLE_CHARS.

(** Lowering leaves the reserved characters alone, makes none of them out
    of another character, and never makes a character disappear. *)
Definition lower_keeps_reserved (L : PyLib) : Prop :=
  (forall c, reserved c = true -> tolower_full L c = [c])
  /\ (forall c d, reserved c = false -> In d (tolower_full L c) ->
                  reserved d = false)
  /\ (forall c, tolower_full L c <> []).

(** No character of [set] occurs. *)
Definition lacks (set : str) (s : str) : Prop :=
  forall c, In c s -> mem c set = false.

(** No [<] is followed by a tag body: right after it comes [>], or no [>]
    comes at all. *)
Fixpoint tagfree (s : str) : Prop :=
  match s with
  | [] => True
  | c :: r => (c = 60 -> closes r = true \/ ~ In 62 r) /\ tagfree r
  end.

(** The text opens a tag: [<], then a character other than [>], and a
    [>] further on. *)
Definition tag_open (s : str) : bool :=
  match s with
  | c :: r => (c =? 60) && negb (closes r) && mem 62 r
  | [] => false
  end.

(** Runs of spaces and tabs squeezed to one space; [in_run] tells that the
    character before was a space or a tab. *)
Fixpoint squeeze (in_run : bool) (s : str) : str :=
  match s with
  | [] => []
  | c :: r =>
      if is_blank c then
        if in_run then squeeze true r else 32 :: squeeze true r
      else c :: squeeze false r
  end.

(** No tab, and no space after a space. *)
Fixpoint tidy (s : str) : Prop :=
  match s with
  | [] => True
  | c :: r =>
      c <> 9
      /\ (c = 32 -> match r with d :: _ => d <> 32 | [] => True end)
      /\ tidy r
  end.

(** Neither the first nor the last character is white space. *)
Definition trimmed (s : str) : Prop :=
  match s with
  | [] => True
  | c :: _ => isspace c = false /\ isspace (last s 0) = false
  end.

(** A character a white space stage or lowering may drop or replace, and
    the characters they write. *)
Definition touchable (c : Z) : bool := isspace c || negb (reserved c).
Definition harmless (d : Z) : bool :=
  (d =? 32) || (d =? 10) || negb (reserved d).

(** [gentle s s']: [s'] is [s] with some touchable characters dropped or
    replaced by harmless ones; every other character stays in its place. *)
Inductive gentle : str -> str -> Prop :=
| gentle_nil : gentle [] []
| gentle_keep c s s' : gentle s s' -> gentle (c :: s) (c :: s')
| gentle_change c ds s s' :
    touchable c = true ->
    Forall (fun d => harmless d = true) ds ->
    gentle s s' ->
    gentle (c :: s) (ds ++ s').

(** [respell s s']: [s'] is [s] with some characters that are not reserved
    replaced, each by one or more characters that are not reserved. *)
Inductive respell : str -> str -> Prop :=
| respell_nil : respell [] []
| respell_keep c s s' : respell s s' -> respell (c :: s) (c :: s')
| respell_change c d ds s s' :
    reserved c = false ->
    Forall (fun x => reserved x = false) (d :: ds) ->
    respell s s' ->
    respell (c :: s) ((d :: ds) ++ s').

(** One of the four tables of characters. *)
Definition is_table (set : str) : Prop :=
  set = QUOTES \/ set = dash_keys \/ set = SPECIAL_SPACES
  \/ set = INVISIBLE_CHARS.

(** A single line: no line break, no tab, and no space after a space. *)
Definition one_line (s : str) : Prop := lacks [10; 13] s /\ tidy s.

(** A stage that makes no tag and brings in no character of the tables. *)
Definition carries (f : str -> str) : Prop :=
  forall s,
    (tagfree s -> tagfree (f s))
    /\ (forall set, is_table set -> lacks set s -> lacks set (f s)).

(** The lower case tables of the runtime, as the stages need them. *)
Definition lower_is_plain (L : PyLib) : Prop :=
  lower_is_stable L /\ lower_keeps_reserved L.

(** The pattern of [allowed_chars], when there is one, is a class of
    characters (the stage keeps the characters of the class), and every
    character of [t] is in it. *)
Definition allowed_keeps (L : PyLib) (self : TextCleaner) (t : str) : Prop :=
  match allowed_chars self with
  | Some ((_ :: _) as frag) =>
      exists keep,
        re_delete L (lit "[^" ++ frag ++ lit "]") = Some (filter keep)
        /\ filter keep t = t
  | _ => True
  end.

(** The four stages that can still change a cleaned text leave [t] as it
    is: decoding entities (when it is on), removing the extra characters,
    filtering to the allowed characters, and truncating. *)
Definition at_rest (L : PyLib) (self : TextCleaner) (t : str) : Prop :=
  (decode_html_entities self = true -> decode_entities L t = Ret t)
  /\ delete_chars (extra_remove self) t = t
  /\ allowed_keeps L self t
  /\ cut self t = t.

(** Every line is stripped: a line does not begin with white space
    ([at_start] tells that the text begins a line), and white space in a
    line is followed by a character of the same line. *)
Fixpoint lines_ok (at_start : bool) (s : str) : Prop :=
  match s with
  | [] => True
  | c :: r =>
      if c =? 10 then lines_ok true r
      else (at_start = true -> isspace c = false)
           /\ (isspace c = true ->
               match r with d :: _ => d <> 10 | [] => False end)
           /\ lines_ok false r
  end.

(** No three newlines in a row. *)
Fixpoint no_triple (s : str) : Prop :=
  match s with
  | [] => True
  | _ :: r => is_prefix [10; 10; 10] s = false /\ no_triple r
  end.

(** After a newline, the white space that follows holds no newline, or
    holds one as its first character and no other: there
    [_multi_newline_pattern] matches nothing but two newlines. *)
Fixpoint blocks_ok (s : str) : Prop :=
  match s with
  | [] => True
  | c :: r => (c = 10 -> ~ In 10 (tl (takewhile isspace r))) /\ blocks_ok r
  end.

(** [thin s s']: [s'] is [s] without some of its white space other than
    newlines. *)
Inductive thin : str -> str -> Prop :=
| thin_nil : thin [] []
| thin_keep c s s' : thin s s' -> thin (c :: s) (c :: s')
| thin_drop c s s' :
    isspace c = true -> c <> 10 -> thin s s' -> thin (c :: s) s'.

(** Lines kept apart: stripped lines without tabs or doubled spaces, and
    at most one empty line between two lines. *)
Definition paragraphs (s : str) : Prop :=
  tidy s /\ lines_ok true s /\ no_triple s.

(** What the tag stage and the four table stages leave behind, each for
    the option that turns it on. *)
Definition chars_settled (self : TextCleaner) (t : str) : Prop :=
  (remove_html_tags self = true -> tagfree t)
  /\ (remove_invisible self = true -> lacks INVISIBLE_CHARS t)
  /\ (normalize_spaces self = true -> lacks SPECIAL_SPACES t)
  /\ (normalize_dashes self = true -> lacks dash_keys t)
  /\ (remove_quotes self = true -> lacks QUOTES t).

(** What every stage but the four of [at_rest] leaves behind. *)
Definition settled (L : PyLib) (self : TextCleaner) (t : str) : Prop :=
  chars_settled self t
  /\ (if preserve_newlines self then paragraphs t else one_line t)
  /\ (lowercase self = true -> forall c, In c t -> lower_fixed L c)
  /\ trimmed t.

(** [_multi_newline_pattern] with its replacement. *)
Definition NL : str -> option (nat * str) := const_repl m_newlines [10; 10].

(** The default cleaner with lower case on. *)
Definition lowering : TextCleaner :=
  {| remove_quotes := true; normalize_dashes := true;
     normalize_spaces := true; remove_html_tags := true;
     decode_html_entities := true; remove_invisible := true;
     preserve_newlines := false; lowercase := true;
     max_length := None; allowed_chars := None; extra_remove := [] |}.

(** The same with newlines kept. *)
Definition lowering_lines : TextCleaner :=
  {| remove_quotes := true; normalize_dashes := true;
     normalize_spaces := true; remove_html_tags := true;
     decode_html_entities := true; remove_invisible := true;
     preserve_newlines := true; lowercase := true;
     max_length := None; allowed_chars := None; extra_remove := [] |}.

(** * The other methods *)

(** [TextCleaner.clean_product_name] *)
Definition clean_product_name (L : PyLib) (self : TextCleaner) (text : pyobj)
  : exc str :=
  clean L self text.

(** [TextCleaner.clean_brand] *)
Definition clean_brand (L : PyLib) (self : TextCleaner) (text : pyobj)
  : exc str :=
  clean L self text.

(** [TextCleaner.clean_description]: the text is cleaned by a cleaner built
    for the call; the options of [self] are not looked at. *)
Definition clean_description (L : PyLib) (self : TextCleaner) (text : pyobj)
  : exc str :=
  cleaner <- TextCleaner_init
               {| opt_remove_quotes := false;
                  opt_normalize_dashes := opt_normalize_dashes defaults;
                  opt_normalize_spaces := opt_normalize_spaces defaults;
                  opt_remove_html_tags := opt_remove_html_tags defaults;
                  opt_decode_html_entities := opt_decode_html_entities defaults;
                  opt_remove_invisible := opt_remove_invisible defaults;
                  opt_preserve_newlines := true;
                  opt_lowercase := opt_lowercase defaults;
                  opt_max_length := opt_max_length defaults;
                  opt_allowed_chars := opt_allowed_chars defaults;
                  opt_extra_remove := opt_extra_remove defaults |} ;;
  clean L cleaner text.

(** The class [[\d.,]].  On [str] patterns [\d] is the runtime's class of
    decimal digits, here [is_decimal]. *)
Definition price_char (is_decimal : Z -> bool) (c : Z) : bool :=
  is_decimal c || (c =? 46) || (c =? 44).

(** [TextCleaner.clean_price_text] *)
Definition clean_price_text (L : PyLib) (is_decimal : Z -> bool) (text : pyobj)
  : exc str :=
  if negb (truth text) then Ret []
  else
    text <- unescape L (to_str text) ;;
    let text := filter (price_char is_decimal) text in
    Ret (strip text).

(** [TextCleaner.clean_url] *)
Definition clean_url (text : pyobj) : str :=
  if negb (truth text) then []
  else
    let text := strip (to_str text) in
    delete_chars INVISIBLE_CHARS text.

(** [TextCleaner.is_empty] *)
Definition is_empty (L : PyLib) (self : TextCleaner) (text : pyobj)
  : exc bool :=
  text <- clean L self text ;;
  Ret (negb (truth (PyStr text))).

(** ** The functions of the module

    Each one calls the method of its name on one of three cleaners built
    when the module is loaded. *)

(** [_keep_quotes_cleaner = TextCleaner(remove_quotes=False)];
    [_default_cleaner] and [_multiline_cleaner] are [default_cleaner] and
    [with_newlines] above. *)
Definition keep_quotes_cleaner : TextCleaner :=
  {| remove_quotes := false; normalize_dashes := true;
     normalize_spaces := true; remove_html_tags := true;
     decode_html_entities := true; remove_invisible := true;
     preserve_newlines := false; lowercase := false;
     max_length := None; allowed_chars := None; extra_remove := [] |}.

Module Api.

Definition clean_multiline (L : PyLib) (text : pyobj) : exc str :=
  clean L with_newlines text.

Definition clean_keep_quotes (L : PyLib) (text : pyobj) : exc str :=
  clean L keep_quotes_cleaner text.

Definition clean_product_name (L : PyLib) (text : pyobj) : exc str :=
  clean_product_name L default_cleaner text.

Definition clean_brand (L : PyLib) (text : pyobj) : exc str :=
  clean_brand L default_cleaner text.

Definition clean_sku (L : PyLib) (text : pyobj) : exc str :=
  clean_sku L default_cleaner text.

Definition clean_description (L : PyLib) (text : pyobj) : exc str :=
  clean_description L default_cleaner text.

Definition clean_price_text (L : PyLib) (is_decimal : Z -> bool) (text : pyobj)
  : exc str :=
  clean_price_text L is_decimal text.

Definition clean_url (text : pyobj) : str := clean_url text.

Definition clean_email (L : PyLib) (text : pyobj) : str := clean_email L text.

Definition clean (L : PyLib) (text : pyobj) : exc str :=
  clean L default_cleaner text.

End Api.

(** * More of what the stages leave behind *)

(** The pattern of [allowed_chars], when there is one, is a class of
    characters: the stage keeps the characters of the class and deletes the
    others. *)
Definition allowed_is_class (L : PyLib) (self : TextCleaner) : Prop :=
  match allowed_chars self with
  | Some ((_ :: _) as frag) =>
      exists keep, re_delete L (lit "[^" ++ frag ++ lit "]") = Some (filter keep)
  | _ => True
  end.

(** The same configuration without a maximal length. *)
Definition without_max_length (self : TextCleaner) : TextCleaner :=
  {| remove_quotes := remove_quotes self;
     normalize_dashes := normalize_dashes self;
     normalize_spaces := normalize_spaces self;
     remove_html_tags := remove_html_tags self;
     decode_html_entities := decode_html_entities self;
     remove_invisible := remove_invisible self;
     preserve_newlines := preserve_newlines self;
     lowercase := lowercase self;
     max_length := None;
     allowed_chars := allowed_chars self;
     extra_remove := extra_remove self |}.

(** All of the text is white space. *)
Definition blank (s : str) : Prop := forall c, In c s -> isspace c = true.

(** The characters the stages write: the space, the newline, the hyphen,
    the dot of the suffix and the bullet of a list item. *)
Definition written : str := [32; 10; 45; 46; 0x2022].

(** Nowhere in the text does [<[^>]+>] match: no [<] is followed by one or
    more characters other than [>] and then by [>]. *)
Definition no_tag (t : str) : Prop :=
  forall a body b, t = a ++ 60 :: body ++ 62 :: b -> body = [] \/ In 62 body.

(** * Properties *)

(** ** Text before the last space *)

Lemma before_last_none sep s :
  before_last sep s = None <-> ~ In sep s.
Proof.
  induction s as [|c r IH]; simpl.
  - split; [intros _ H; exact H | reflexivity].
  - destruct (before_last sep r) as [h|].
    + split; [discriminate|]. intros H. exfalso. apply H. right.
      destruct (in_dec Z.eq_dec sep r) as [Hin|Hn]; [exact Hin|].
      apply IH in Hn. discriminate.
    + destruct (Z.eqb_spec c sep) as [->|Hne].
      * split; [discriminate|]. intros H. exfalso. apply H. now left.
      * split; [|reflexivity]. intros _ [H|H]; [congruence|].
        now apply (proj1 IH).
Qed.

Lemma before_last_some sep s h :
  before_last sep s = Some h ->
  exists rest, s = h ++ sep :: rest /\ ~ In sep rest.
Proof.
  revert h. induction s as [|c r IH]; simpl; intros h H; [discriminate|].
  destruct (before_last sep r) as [h'|] eqn:E.
  - injection H as <-. destruct (IH h' eq_refl) as (rest & -> & Hn).
    exists rest. split; [reflexivity | exact Hn].
  - destruct (Z.eqb_spec c sep) as [->|Hne]; [|discriminate].
    injection H as <-. exists r. split; [reflexivity|].
    now apply before_last_none.
Qed.

Lemma len_app s t : len (s ++ t) = len s + len t.
Proof. unfold len. rewrite length_app. lia. Qed.

Lemma len_nonneg s : 0 <= len s.
Proof. unfold len. lia. Qed.

Lemma slice_to_firstn m s :
  0 <= m -> slice_to m s = firstn (Z.to_nat m) s.
Proof.
  intros H. unfold slice_to. destruct (Z.leb_spec 0 m); [reflexivity | lia].
Qed.

Lemma len_slice_to m s : 0 <= m -> m <= len s -> len (slice_to m s) = m.
Proof.
  intros H0 H. rewrite slice_to_firstn by exact H0. unfold len in *.
  rewrite length_firstn. lia.
Qed.

(** ** [truncate] *)

(** C10: when the text is longer than [max_length] and the only space
    among its first [max_length] characters is the one at position 0,
    [truncate] drops the whole text and returns the suffix alone. *)
Theorem truncate_returns_suffix_only (text : str) (max_length : Z) (suffix : str) :
  0 < max_length ->
  max_length < len text ->
  (forall i : nat, (i < Z.to_nat max_length)%nat ->
                   (nth i text 0 = 32 <-> i = O)) ->
  truncate (Some text) max_length suffix = suffix.
Proof.
  intros Hpos Hlen Honly.
  destruct text as [|c r]; [unfold len in Hlen; simpl in Hlen; lia|].
  assert (Hc : c = 32) by (apply (Honly O); [lia | reflexivity]).
  subst c. unfold truncate.
  destruct (Z.leb_spec (len (32 :: r)) max_length) as [Hle|_]; [lia|].
  rewrite slice_to_firstn by lia.
  destruct (Z.to_nat max_length) as [|n] eqn:En; [lia|].
  simpl firstn. unfold rsplit1_head. simpl before_last.
  assert (Hno : before_last 32 (firstn n r) = None).
  { apply before_last_none. intros Hin.
    apply In_nth with (d := 0) in Hin. destruct Hin as (i & Hi & Hnth).
    rewrite length_firstn in Hi.
    assert (Hi' : (S i < S n)%nat) by lia.
    specialize (Honly (S i) Hi'). simpl in Honly.
    rewrite nth_firstn in Hnth.
    destruct (Nat.ltb_spec i n) as [_|Hge]; [|lia].
    apply Honly in Hnth. discriminate. }
  rewrite Hno. reflexivity.
Qed.

Lemma truncate_returns_suffix_only_witness :
  truncate (Some (lit " abcdef")) 3 dots = dots.
Proof.
  apply truncate_returns_suffix_only.
  - lia.
  - vm_compute. reflexivity.
  - intros i Hi. change (Z.to_nat 3) with 3%nat in Hi.
    destruct i as [|[|[|i]]]; [| | |lia]; vm_compute; split; congruence.
Defined.

(** ** Running the cleaner *)

Lemma clean_str (L : PyLib) (self : TextCleaner) (s : str) :
  s <> [] -> clean L self (PyStr s) = pipeline L self s.
Proof. destruct s; [congruence | reflexivity]. Qed.

Lemma pipeline_ret (L : PyLib) (self : TextCleaner) (s t : str) :
  pipeline L self s = Ret t ->
  exists v u,
    before_filter L self s = Ret v
    /\ filter_allowed L self v = Ret u
    /\ t = cut self (after_filter L self u).
Proof.
  unfold pipeline. destruct (before_filter L self s) as [v|e]; cbn [bind];
    [|discriminate].
  destruct (filter_allowed L self v) as [u|e] eqn:E; cbn [bind];
    [|discriminate].
  intros H. injection H as <-. exists v, u. repeat split. exact E.
Qed.

(** Runs [clean] on a literal, given the text [html.unescape] makes of
    it. *)
Ltac run_clean E :=
  rewrite clean_str by (vm_compute; discriminate);
  unfold pipeline, before_filter, decode_entities;
  cbn [decode_html_entities with_newlines keep_special_spaces default_cleaner];
  rewrite E; vm_compute; reflexivity.

(** ** Entities *)

Lemma unescape_nbsp (L : PyLib) :
  html5 L (lit "nbsp;") = Some [0xA0] ->
  unescape L (lit "a&nbsp;b") = Ret [97; 0xA0; 98].
Proof. intros H. vm_compute in H. vm_compute. rewrite H. reflexivity. Qed.

(** C5: [&nbsp;] is decoded by [html.unescape] to U+00A0 before the class
    table is consulted, so the table's plain space is never used: with
    [normalize_spaces=False] the text [a&nbsp;b] comes out with U+00A0
    between the letters, not with an ASCII space. *)
Theorem clean_nbsp_keeps_no_break_space (L : PyLib) :
  html5 L (lit "nbsp;") = Some [0xA0] ->
  clean L keep_special_spaces (PyStr (lit "a&nbsp;b")) = Ret [97; 0xA0; 98].
Proof. intros H. run_clean (unescape_nbsp L H). Qed.

Lemma clean_nbsp_keeps_no_break_space_witness :
  clean Small.lib keep_special_spaces (PyStr (lit "a&nbsp;b"))
  = Ret [97; 0xA0; 98].
Proof.
  apply (clean_nbsp_keeps_no_break_space Small.lib). reflexivity.
Defined.

(** C6, as the claim has it, fails: the cleaned text does not consist of
    the two lines [Hello & welcome] and [Next line]. *)
Lemma clean_paragraph_not_two_lines :
  ~ (exists t,
        clean Small.lib with_newlines
              (PyStr (lit "<p>Hello &amp; welcome</p><br>Next line")) = Ret t
        /\ split 10 t = [lit "Hello & welcome"; lit "Next line"]).
Proof.
  intros (t & Ht & Hs). vm_compute in Ht. injection Ht as <-.
  vm_compute in Hs. discriminate.
Qed.

Lemma unescape_paragraph (L : PyLib) :
  html5 L (lit "amp;") = Some [38] ->
  unescape L (lit "<p>Hello &amp; welcome</p><br>Next line")
  = Ret (lit "<p>Hello & welcome</p><br>Next line").
Proof. intros H. vm_compute in H. vm_compute. rewrite H. reflexivity. Qed.

(** C6, amended: with [preserve_newlines=True] the text
    [<p>Hello &amp; welcome</p><br>Next line] is cleaned to three lines:
    [Hello & welcome], an empty line, and [Next line]. *)
Theorem clean_paragraph_three_lines (L : PyLib) :
  html5 L (lit "amp;") = Some [38] ->
  exists t,
    clean L with_newlines
          (PyStr (lit "<p>Hello &amp; welcome</p><br>Next line")) = Ret t
    /\ t = lit "Hello & welcome" ++ [10; 10] ++ lit "Next line"
    /\ split 10 t = [lit "Hello & welcome"; []; lit "Next line"].
Proof.
  intros H.
  exists (lit "Hello & welcome" ++ [10; 10] ++ lit "Next line").
  split; [|split].
  - run_clean (unescape_paragraph L H).
  - reflexivity.
  - vm_compute. reflexivity.
Qed.

Lemma clean_paragraph_three_lines_witness :
  exists t,
    clean Small.lib with_newlines
          (PyStr (lit "<p>Hello &amp; welcome</p><br>Next line")) = Ret t
    /\ t = lit "Hello & welcome" ++ [10; 10] ++ lit "Next line"
    /\ split 10 t = [lit "Hello & welcome"; []; lit "Next line"].
Proof.
  apply (clean_paragraph_three_lines Small.lib). reflexivity.
Defined.

(** ** Quotes *)

(** C2: the curly quotes U+2018, U+2019, U+201C and U+201D are not in
    [QUOTES], and the default cleaner returns text made of them as it is
    (here a word between curly double quotes followed by one between curly
    single quotes), whatever the runtime. *)
Theorem clean_keeps_curly_quotes (L : PyLib) :
  forallb (fun c => negb (mem c QUOTES)) [0x2018; 0x2019; 0x201C; 0x201D] = true
  /\ clean L default_cleaner
           (PyStr [0x201C; 72; 105; 0x201D; 32; 0x2018; 104; 105; 0x2019])
     = Ret [0x201C; 72; 105; 0x201D; 32; 0x2018; 104; 105; 0x2019].
Proof. split; vm_compute; reflexivity. Qed.

(** ** Errors *)

(** C3, as the claim has it, fails: with the reversed range [z-a] for
    [allowed_chars] the cleaner is constructed without an error, and it is
    [clean] that raises. *)
Lemma malformed_allowed_chars_raises_in_clean :
  exists self,
    TextCleaner_init
      {| opt_remove_quotes := true; opt_normalize_dashes := true;
         opt_normalize_spaces := true; opt_remove_html_tags := true;
         opt_decode_html_entities := true; opt_remove_invisible := true;
         opt_preserve_newlines := false; opt_lowercase := false;
         opt_max_length := None; opt_allowed_chars := Some (lit "z-a");
         opt_extra_remove := None |} = Ret self
    /\ clean Small.lib self (PyStr (lit "x")) = Raise ReError.
Proof. eexists. split; [reflexivity | vm_compute; reflexivity]. Qed.

Lemma sub_go_exc_raises m k s e :
  (forall x n e', m x = Some (n, Raise e') -> e' = ValueError) ->
  sub_go_exc m k s = Raise e -> e = ValueError.
Proof.
  intros Hm. revert k.
  induction s as [|x s IH]; intros k; simpl; [discriminate|].
  destruct k as [|k]; [|apply IH].
  assert (Hrest : forall k' (f : str -> str),
             (rest <- sub_go_exc m k' s ;; Ret (f rest)) = Raise e ->
             e = ValueError).
  { intros k' f. destruct (sub_go_exc m k' s) eqn:Es; cbn [bind];
      [discriminate|]. intros Hr. injection Hr as ->. now apply (IH k'). }
  destruct (m (x :: s)) as [[[|n] [rp|e1]]|] eqn:Em; cbn [bind].
  - apply (Hrest O (cons x)).
  - apply (Hrest O (cons x)).
  - apply (Hrest n (app rp)).
  - intros Hr. injection Hr as <-. exact (Hm _ _ _ Em).
  - apply (Hrest O (cons x)).
Qed.

Lemma m_charref_raises L x n e :
  m_charref L x = Some (n, Raise e) -> e = ValueError.
Proof.
  unfold m_charref. destruct x as [|amp [|h u]]; try discriminate.
  destruct (amp =? 38); [|discriminate].
  destruct (h =? 35).
  - destruct (takewhile is_digit u) as [|d ds].
    + destruct u as [|y v]; [discriminate|].
      destruct ((y =? 120) || (y =? 88)); [|discriminate].
      destruct (takewhile is_hex v); discriminate.
    + unfold int_dec.
      destruct ((640 <? length (d :: ds))%nat
                && (0 <? int_max_str_digits L)%nat
                && (int_max_str_digits L <? length (d :: ds))%nat);
        cbn [bind]; intros Hr; injection Hr as _ Hr; congruence.
  - destruct (takewhile is_name_char (firstn 32 (h :: u))); discriminate.
Qed.

(** The stages before the filter raise nothing but the [ValueError] of
    [int]. *)
Lemma before_filter_raises L self s e :
  before_filter L self s = Raise e -> e = ValueError.
Proof.
  unfold before_filter, decode_entities, unescape.
  destruct (decode_html_entities self); cbn [bind]; [|discriminate].
  destruct (mem 38 s); cbn [bind]; [|discriminate].
  destruct (sub_go_exc (m_charref L) 0 s) as [v|e'] eqn:Es; cbn [bind];
    [discriminate|].
  intros Hr. injection Hr as <-.
  apply (sub_go_exc_raises _ _ _ _ (m_charref_raises L) Es).
Qed.

(** Entity decoding raises on its own: a decimal character reference of
    4301 digits is more than [int] converts. *)
Lemma clean_raises_on_long_reference :
  clean Small.lib default_cleaner
        (PyStr (lit "&#" ++ repeat 49 4301 ++ lit ";"))
  = Raise ValueError.
Proof. vm_compute. reflexivity. Qed.

(** C3, amended: constructing a cleaner never raises, whatever
    [allowed_chars] is.  It is [clean] that raises the error of the
    pattern: exactly when [allowed_chars] is a non empty fragment whose
    pattern [[^fragment]] does not compile, the text, as a string, is not
    empty, and the stages before the filter have returned.  For [None] and
    for empty text [clean] returns the empty string before the pattern is
    looked at. *)
Theorem allowed_chars_checked_only_by_clean (L : PyLib) (o : Options) :
  exists self,
    TextCleaner_init o = Ret self
    /\ allowed_chars self = opt_allowed_chars o
    /\ forall text,
         clean L self text = Raise ReError
         <-> (is_none text = false /\ to_str text <> []
              /\ (exists u, before_filter L self (to_str text) = Ret u)
              /\ exists frag, opt_allowed_chars o = Some frag /\ frag <> []
                   /\ re_delete L (lit "[^" ++ frag ++ lit "]") = None).
Proof.
  eexists. split; [reflexivity|]. split; [reflexivity|].
  intros text. unfold clean.
  destruct (is_none text); [split; [discriminate | intros (H & _); discriminate]|].
  destruct (to_str text) as [|c r];
    [split; [discriminate | intros (_ & H & _); congruence]|].
  unfold pipeline.
  match goal with
  | |- context [before_filter L ?self (c :: r)] =>
      destruct (before_filter L self (c :: r)) as [u|e] eqn:Eb
  end; cbn [bind].
  - unfold filter_allowed. cbn [allowed_chars].
    destruct (opt_allowed_chars o) as [[|a frag]|]; cbn [bind].
    + split; [discriminate|]. intros (_ & _ & _ & f & Hf & Hne & _). congruence.
    + destruct (re_delete L (lit "[^" ++ (a :: frag) ++ lit "]")) eqn:E;
        cbn [bind].
      * split; [discriminate|]. intros (_ & _ & _ & f & Hf & _ & Hc).
        injection Hf as <-. congruence.
      * split; [|reflexivity]. intros _. split; [reflexivity|].
        split; [discriminate|]. split; [eauto|]. exists (a :: frag).
        split; [reflexivity|]. split; [discriminate | exact E].
    + split; [discriminate|]. intros (_ & _ & _ & f & Hf & _). discriminate.
  - apply before_filter_raises in Eb. subst e. split; [discriminate|].
    intros (_ & _ & (u & Hu) & _). discriminate.
Qed.

(** ** Where the characters of a result come from *)

Lemma in_dropwhile p c s : In c (dropwhile p s) -> In c s.
Proof.
  induction s as [|d r IH]; simpl; [tauto|].
  destruct (p d); [intros H; right; exact (IH H) | tauto].
Qed.

Lemma in_strip c s : In c (strip s) -> In c s.
Proof.
  unfold strip, rstrip, lstrip. intros H.
  apply in_rev in H. apply in_dropwhile in H. apply in_rev in H.
  exact (in_dropwhile _ _ _ H).
Qed.

Lemma in_firstn (c : Z) n s : In c (firstn n s) -> In c s.
Proof.
  revert s. induction n as [|n IH]; intros [|d r]; simpl; try tauto.
  intros [H|H]; [now left | right; exact (IH _ H)].
Qed.

Lemma in_slice_to c m s : In c (slice_to m s) -> In c s.
Proof. unfold slice_to. destruct (0 <=? m); apply in_firstn. Qed.

Lemma in_rsplit1_head c s : In c (rsplit1_head s) -> In c s.
Proof.
  unfold rsplit1_head. destruct (before_last 32 s) as [h|] eqn:E; [|tauto].
  apply before_last_some in E. destruct E as (rest & -> & _).
  intros H. apply in_or_app. now left.
Qed.

(** A substitution yields characters of the text and of replacements. *)
Lemma in_sub_go (P : Z -> Prop) m :
  (forall s n repl, m s = Some (n, repl) -> forall c, In c repl -> P c) ->
  forall s k c, In c (sub_go m k s) -> In c s \/ P c.
Proof.
  intros Hm. induction s as [|d r IH]; intros k c; simpl; [tauto|].
  destruct k as [|k].
  - destruct (m (d :: r)) as [[[|n] repl]|] eqn:E.
    + simpl. intros [H|H]; [now left; left|].
      destruct (IH _ _ H); [left; now right | now right].
    + intros H. apply in_app_or in H. destruct H as [H|H].
      * right. exact (Hm _ _ _ E _ H).
      * destruct (IH _ _ H); [left; now right | now right].
    + simpl. intros [H|H]; [now left; left|].
      destruct (IH _ _ H); [left; now right | now right].
  - intros H. destruct (IH _ _ H); [left; now right | now right].
Qed.

Lemma in_re_sub_const m repl s c :
  In c (re_sub (const_repl m repl) s) -> In c s \/ In c repl.
Proof.
  apply (in_sub_go (fun c => In c repl)). intros s' n r E.
  unfold const_repl in E.
  destruct (m s'); [|discriminate]. injection E as _ <-. tauto.
Qed.

(** Replacing one character by another is a map. *)
Lemma replace_go_char a b s :
  replace_go [a] [b] O s = map (fun c => if c =? a then b else c) s.
Proof.
  induction s as [|c r IH]; [reflexivity|].
  simpl. rewrite (Z.eqb_sym a c). destruct (c =? a); simpl; now rewrite IH.
Qed.

Lemma replace_char a b s :
  replace [a] [b] s = map (fun c => if c =? a then b else c) s.
Proof. apply replace_go_char. Qed.

Lemma in_lower_go L before s d :
  In d (lower_go L before s) ->
  exists c, In c s /\ (In d (tolower_full L c) \/ d = 0x3C2 \/ d = 0x3C3).
Proof.
  revert before. induction s as [|c r IH]; intros before; simpl; [tauto|].
  intros H. apply in_app_or in H. destruct H as [H|H].
  - exists c. split; [now left|]. unfold lower_at in H.
    destruct (c =? 0x3A3); [|now left].
    destruct (final_sigma L before r); simpl in H; intuition.
  - destruct (IH _ H) as (c' & Hin & Hc'). exists c'. split; [now right | exact Hc'].
Qed.

Lemma in_lower L s d :
  In d (lower L s) ->
  exists c, In c s /\ (In d (tolower_full L c) \/ d = 0x3C2 \/ d = 0x3C3).
Proof. apply in_lower_go. Qed.

(** The characters of a truncated text are those of the text, and the
    dot. *)
Lemma in_cut self c s : In c (cut self s) -> In c s \/ c = 46.
Proof.
  unfold cut. destruct (max_length self) as [m|]; [|tauto].
  destruct (negb (m =? 0) && (m <? len s)); [|tauto].
  intros H. apply in_app_or in H. destruct H as [H|H].
  - left. apply in_rsplit1_head in H. exact (in_slice_to _ _ _ H).
  - right. vm_compute in H. intuition.
Qed.

(** ** Newlines *)

Lemma single_line_no_line_break s c :
  In c (single_line s) -> c <> 10 /\ c <> 13.
Proof.
  unfold single_line. intros H.
  apply in_re_sub_const in H. destruct H as [H|H].
  - rewrite !replace_char in H. apply in_map_iff in H.
    destruct H as (x & <- & H). apply in_map_iff in H.
    destruct H as (y & <- & _).
    destruct (Z.eqb_spec y 10).
    + simpl. split; discriminate.
    + destruct (Z.eqb_spec y 13); [split; discriminate | split; assumption].
  - simpl in H. destruct H as [<-|[]]. split; discriminate.
Qed.

(** C7: with [preserve_newlines=False], whatever [clean] returns holds
    neither a newline nor a carriage return.  (When lower case is on, the
    runtime is asked that lowering makes no line break.) *)
Theorem clean_single_line_has_no_line_break
        (L : PyLib) (self : TextCleaner) (text : pyobj) (t : str) :
  (lowercase self = true -> lower_makes_no_line_break L) ->
  preserve_newlines self = false ->
  clean L self text = Ret t ->
  ~ In 10 t /\ ~ In 13 t.
Proof.
  intros HL Hpn Hc.
  assert (Hall : forall c, In c t -> c <> 10 /\ c <> 13).
  { unfold clean in Hc. destruct (is_none text).
    { injection Hc as <-. intros c []. }
    destruct (to_str text) as [|a r].
    { injection Hc as <-. intros c []. }
    apply pipeline_ret in Hc. destruct Hc as (v & u & _ & _ & ->).
    intros c Hin. apply in_cut in Hin.
    destruct Hin as [Hin| ->]; [|split; discriminate].
    unfold after_filter in Hin. rewrite Hpn in Hin.
    apply in_strip in Hin.
    destruct (lowercase self).
    - specialize (HL eq_refl).
      apply in_lower in Hin. destruct Hin as (x & Hx & Hd).
      apply single_line_no_line_break in Hx.
      destruct Hd as [Hd|[-> | ->]]; [|split; discriminate ..].
      split; intros ->.
      + assert (x = 10) by (apply (HL x 10 Hd); now left). tauto.
      + assert (x = 13) by (apply (HL x 13 Hd); now right). tauto.
    - exact (single_line_no_line_break _ _ Hin). }
  split; intros H; apply Hall in H; tauto.
Qed.

Lemma lower_makes_no_line_break_small : lower_makes_no_line_break Small.lib.
Proof.
  intros c d H Hd. unfold Small.lib, tolower_full, Small.to_lower in H.
  destruct (Small.is_upper c) eqn:E.
  - unfold Small.is_upper in E. apply andb_prop in E. destruct E as [E _].
    apply Z.leb_le in E. destruct H as [<-|[]]. lia.
  - destruct (Z.eqb_spec c 0x3A3).
    + destruct H as [<-|[]]. lia.
    + destruct H as [<-|[]]. reflexivity.
Qed.

Lemma clean_single_line_has_no_line_break_witness :
  ~ In 10 (lit "a b c") /\ ~ In 13 (lit "a b c").
Proof.
  apply (clean_single_line_has_no_line_break
           Small.lib lowering (PyStr [65; 10; 66; 13; 10; 67])).
  - intros _. exact lower_makes_no_line_break_small.
  - reflexivity.
  - vm_compute. reflexivity.
Defined.

(** ** SKU *)

Lemma filter_sku_char_ascii L s :
  ascii_upper_and_alnum L -> is_ascii s ->
  filter (sku_char L) s = filter (sku_char Small.lib) s.
Proof.
  intros HL. induction s as [|c r IH]; intros Hs; [reflexivity|].
  simpl. rewrite IH by (intros x Hx; apply Hs; now right).
  assert (E : sku_char L c = sku_char Small.lib c).
  { unfold sku_char, is_word. destruct (HL c) as [_ ->]; [|reflexivity].
    apply Hs. now left. }
  now rewrite E.
Qed.

Lemma upper_ascii L s :
  ascii_upper_and_alnum L -> is_ascii s -> upper L s = upper Small.lib s.
Proof.
  intros HL. induction s as [|c r IH]; intros Hs; [reflexivity|].
  unfold upper in *. simpl. rewrite IH by (intros x Hx; apply Hs; now right).
  destruct (HL c) as [-> _]; [|reflexivity]. apply Hs. now left.
Qed.

Lemma is_ascii_filter p s : is_ascii s -> is_ascii (filter p s).
Proof. intros H c Hc. apply filter_In in Hc. apply H, Hc. Qed.

Lemma is_ascii_forallb s :
  forallb (fun c => (0 <=? c) && (c <? 128)) s = true -> is_ascii s.
Proof.
  intros H c Hc. rewrite forallb_forall in H. apply H in Hc.
  apply andb_prop in Hc. destruct Hc as [H1 H2].
  apply Z.leb_le in H1. apply Z.ltb_lt in H2. lia.
Qed.

Lemma unescape_no_amp L s : mem 38 s = false -> unescape L s = Ret s.
Proof. intros H. unfold unescape. now rewrite H. Qed.

(** C8: on a string, [clean_sku] is [clean] under the cleaner's own
    configuration, then the deletion of every character that is neither a
    word character nor a hyphen nor a dot, then [upper]; and the default
    cleaner turns [sku-123_ABC!] into [SKU-123_ABC]. *)
Theorem clean_sku_is_clean_then_filter_then_upper
        (L : PyLib) (self : TextCleaner) :
  ascii_upper_and_alnum L ->
  (forall s,
      clean_sku L self (PyStr s)
      = (t <- clean L self (PyStr s) ;; Ret (upper L (filter (sku_char L) t))))
  /\ clean_sku L default_cleaner (PyStr (lit "sku-123_ABC!"))
     = Ret (lit "SKU-123_ABC").
Proof.
  intros HL. split.
  - intros [|c r]; reflexivity.
  - assert (Hc : clean L default_cleaner (PyStr (lit "sku-123_ABC!"))
                 = Ret (lit "sku-123_ABC!")).
    { run_clean (unescape_no_amp L (lit "sku-123_ABC!") eq_refl). }
    unfold clean_sku. cbn [truth lit negb]. change (negb true) with false.
    cbv iota. rewrite Hc. cbn [bind]. f_equal.
    rewrite filter_sku_char_ascii
      by (try exact HL; apply is_ascii_forallb; reflexivity).
    rewrite upper_ascii
      by (try exact HL; apply is_ascii_filter, is_ascii_forallb; reflexivity).
    vm_compute. reflexivity.
Qed.

Lemma ascii_upper_and_alnum_small : ascii_upper_and_alnum Small.lib.
Proof. intros c _. split; reflexivity. Qed.

Lemma clean_sku_is_clean_then_filter_then_upper_witness :
  clean_sku Small.lib default_cleaner (PyStr (lit "sku-123_ABC!"))
  = Ret (lit "SKU-123_ABC").
Proof.
  exact (proj2 (clean_sku_is_clean_then_filter_then_upper
                  Small.lib default_cleaner ascii_upper_and_alnum_small)).
Defined.

(** ** Lower case *)

Lemma lower_go_fixed L before s :
  (forall c, In c s -> lower_fixed L c) -> lower_go L before s = s.
Proof.
  revert before. induction s as [|c r IH]; intros before H; [reflexivity|].
  simpl. rewrite IH by (intros x Hx; apply H; now right).
  destruct (H c (or_introl eq_refl)) as [E Hne].
  unfold lower_at. destruct (Z.eqb_spec c 0x3A3); [contradiction|].
  now rewrite E.
Qed.

Lemma lower_of_fixed L s :
  (forall c, In c s -> lower_fixed L c) -> lower L s = s.
Proof. apply lower_go_fixed. Qed.

Lemma lower_chars_fixed L s :
  lower_is_stable L -> forall d, In d (lower L s) -> lower_fixed L d.
Proof.
  intros (H1 & H2 & H3) d Hd. apply in_lower in Hd.
  destruct Hd as (c & _ & [Hd|[-> | ->]]); eauto.
Qed.

Lemma filter_all (p : Z -> bool) s :
  (forall c, In c s -> p c = true) -> filter p s = s.
Proof.
  induction s as [|c r IH]; intros H; [reflexivity|].
  simpl. rewrite (H c (or_introl eq_refl)).
  now rewrite IH by (intros x Hx; apply H; now right).
Qed.

Lemma delete_chars_none set s :
  (forall c, In c s -> mem c set = false) -> delete_chars set s = s.
Proof.
  intros H. apply filter_all. intros c Hc. now rewrite (H c Hc).
Qed.

Lemma in_delete_chars set s c :
  In c (delete_chars set s) <-> In c s /\ mem c set = false.
Proof.
  unfold delete_chars. rewrite filter_In.
  destruct (mem c set); simpl; intuition congruence.
Qed.

(** ** E-mail *)

(** C9, as the claim has it, fails: a control character before a space
    shields the space from [strip]; it is removed afterwards, and only a
    second [clean_email] strips the space. *)
Lemma clean_email_twice_differs :
  clean_email Small.lib (PyStr (clean_email Small.lib (PyStr [1; 32; 97])))
  <> clean_email Small.lib (PyStr [1; 32; 97]).
Proof. vm_compute. discriminate. Qed.

(** C9, amended: a second [clean_email] strips the white space the first
    one left at the ends of its result and changes nothing else; so the
    result of [clean_email] is a fixed point exactly when it neither begins
    nor ends with white space. *)
Theorem clean_email_twice_is_strip (L : PyLib) (s : str) :
  lower_is_stable L ->
  clean_email L (PyStr (clean_email L (PyStr s)))
  = strip (clean_email L (PyStr s))
  /\ (clean_email L (PyStr (clean_email L (PyStr s))) = clean_email L (PyStr s)
      <-> strip (clean_email L (PyStr s)) = clean_email L (PyStr s)).
Proof.
  intros HL.
  assert (E : clean_email L (PyStr (clean_email L (PyStr s)))
              = strip (clean_email L (PyStr s))).
  { set (t := clean_email L (PyStr s)).
    assert (Ht : forall c, In c t ->
               lower_fixed L c /\ mem c INVISIBLE_CHARS = false
               /\ mem c SPECIAL_SPACES = false).
    { subst t. unfold clean_email. destruct (negb (truth (PyStr s))).
      - intros c [].
      - intros c Hc. apply in_delete_chars in Hc. destruct Hc as [Hc Hs].
        apply in_delete_chars in Hc. destruct Hc as [Hc Hi].
        split; [|split]; try assumption.
        exact (lower_chars_fixed L _ HL c Hc). }
    unfold clean_email at 1. destruct t as [|c r] eqn:Et; [reflexivity|].
    cbn [truth negb to_str]. rewrite <- Et in *.
    assert (Hs : forall x, In x (strip t) -> In x t) by (intros x; apply in_strip).
    rewrite lower_of_fixed by (intros x Hx; apply Ht; auto).
    rewrite (delete_chars_none INVISIBLE_CHARS)
      by (intros x Hx; apply Ht; auto).
    apply delete_chars_none. intros x Hx. apply Ht; auto. }
  split; [exact E|]. rewrite E. tauto.
Qed.

Lemma lower_is_stable_small : lower_is_stable Small.lib.
Proof.
  assert (H : forall c d, In d (Small.to_lower c) -> lower_fixed Small.lib d).
  { intros c d. unfold lower_fixed, Small.lib, tolower_full, Small.to_lower.
    destruct (Small.is_upper c) eqn:E.
    - intros [<-|[]]. unfold Small.is_upper in *. apply andb_prop in E. destruct E as [E1 E2].
      apply Z.leb_le in E1. apply Z.leb_le in E2.
      destruct (Z.leb_spec (c + 32) 90) as [?|_]; [lia|].
      rewrite andb_false_r.
      destruct (Z.eqb_spec (c + 32) 0x3A3); [lia|].
      split; [reflexivity | lia].
    - destruct (Z.eqb_spec c 0x3A3) as [->|Hne].
      + intros [<-|[]]. split; [reflexivity | discriminate].
      + intros [<-|[]]. rewrite E.
        destruct (Z.eqb_spec c 0x3A3); [contradiction|].
        split; [reflexivity | assumption]. }
  split; [exact H|]. split; split; try reflexivity; lia.
Qed.

Lemma clean_email_twice_is_strip_witness :
  clean_email Small.lib (PyStr (clean_email Small.lib (PyStr [1; 32; 97])))
  = strip (clean_email Small.lib (PyStr [1; 32; 97])).
Proof.
  exact (proj1 (clean_email_twice_is_strip
                  Small.lib [1; 32; 97] lower_is_stable_small)).
Defined.

(** ** Truncation *)

(** C4, as the claim has it, fails: with [max_length=6] the seven
    characters of [abcde f] are cleaned to the eight of [abcde...], although
    the cut holds a space. *)
Lemma clean_truncated_longer_than_input :
  exists t,
    clean Small.lib (with_max_length 6) (PyStr (lit "abcde f")) = Ret t
    /\ t = lit "abcde..."
    /\ len (lit "abcde f") < len t.
Proof.
  exists (lit "abcde..."). split; [|split]; vm_compute; reflexivity.
Qed.

(** C4, amended: when [max_length] is set and the text, cleaned by the
    stages before truncation, is longer, [clean] returns [...] appended to
    the first [max_length] codepoints of that text, cut back to just before
    their last space when they hold one.  Then the kept part is followed by
    a space in the text (no word is split) and the result has at most
    [max_length + 2] codepoints; when they hold no space the result has
    [max_length + 3]. *)
Theorem clean_truncates_at_last_space
        (L : PyLib) (self : TextCleaner) (s u : str) (m : Z) :
  s <> [] ->
  max_length self = Some m ->
  0 < m ->
  (exists v, before_filter L self s = Ret v
             /\ filter_allowed L self v = Ret u) ->
  m < len (after_filter L self u) ->
  let t := after_filter L self u in
  let kept := rsplit1_head (firstn (Z.to_nat m) t) in
  clean L self (PyStr s) = Ret (kept ++ dots)
  /\ len (kept ++ dots) <= m + 3
  /\ (In 32 (firstn (Z.to_nat m) t) ->
      (exists rest, t = kept ++ 32 :: rest) /\ len (kept ++ dots) <= m + 2)
  /\ (~ In 32 (firstn (Z.to_nat m) t) ->
      kept = firstn (Z.to_nat m) t /\ len (kept ++ dots) = m + 3).
Proof.
  intros Hs Hm Hpos (v & Hv & Hu) Hlen t kept.
  assert (Hd : len dots = 3) by reflexivity.
  assert (Hf : len (firstn (Z.to_nat m) t) = m).
  { rewrite <- slice_to_firstn by lia. apply len_slice_to; subst t; lia. }
  split; [|split; [|split]].
  - rewrite clean_str by exact Hs. unfold pipeline. rewrite Hv. cbn [bind].
    rewrite Hu. cbn [bind].
    unfold cut. rewrite Hm. fold t.
    destruct (Z.eqb_spec m 0) as [?|_]; [lia|].
    destruct (Z.ltb_spec m (len t)) as [_|?]; [|subst t; lia].
    cbn [negb andb]. rewrite slice_to_firstn by lia. reflexivity.
  - rewrite len_app, Hd. subst kept. unfold rsplit1_head.
    destruct (before_last 32 (firstn (Z.to_nat m) t)) as [h|] eqn:E; [|lia].
    apply before_last_some in E. destruct E as (rest & E & _).
    rewrite E, len_app in Hf. pose proof (len_nonneg (32 :: rest)). lia.
  - intros Hin. subst kept. unfold rsplit1_head.
    destruct (before_last 32 (firstn (Z.to_nat m) t)) as [h|] eqn:E.
    + apply before_last_some in E. destruct E as (rest & E & _). split.
      * exists (rest ++ skipn (Z.to_nat m) t).
        rewrite <- (firstn_skipn (Z.to_nat m) t) at 1. rewrite E.
        rewrite <- app_assoc. reflexivity.
      * rewrite len_app, Hd. rewrite E, len_app in Hf.
        change (len (32 :: rest)) with (Z.of_nat (S (length rest))) in Hf. lia.
    + apply before_last_none in E. contradiction.
  - intros Hn. subst kept. unfold rsplit1_head.
    apply before_last_none in Hn. rewrite Hn. split; [reflexivity|].
    rewrite len_app, Hd, Hf. reflexivity.
Qed.

Lemma clean_truncates_at_last_space_witness :
  clean Small.lib (with_max_length 10) (PyStr (lit "hello world foo"))
  = Ret (lit "hello...").
Proof.
  refine (proj1 (clean_truncates_at_last_space
                   Small.lib (with_max_length 10) (lit "hello world foo")
                   (lit "hello world foo") 10 _ eq_refl _ _ _)).
  - discriminate.
  - lia.
  - exists (lit "hello world foo"). split; vm_compute; reflexivity.
  - vm_compute. reflexivity.
Defined.

(** ** Tags *)

Lemma mem_In c s : mem c s = true <-> In c s.
Proof.
  unfold mem. rewrite existsb_exists. split.
  - intros (x & Hx & E). apply Z.eqb_eq in E. now subst.
  - intros H. exists c. split; [exact H | apply Z.eqb_refl].
Qed.

Lemma mem_false c s : mem c s = false <-> ~ In c s.
Proof.
  rewrite <- mem_In. destruct (mem c s); split; congruence.
Qed.

Lemma in_sub_go_delete m k s c :
  (forall u n repl, m u = Some (n, repl) -> repl = []) ->
  In c (sub_go m k s) -> In c s.
Proof.
  intros Hm H. apply (in_sub_go (fun _ => False)) in H; [tauto|].
  intros u n repl E x Hx. rewrite (Hm _ _ _ E) in Hx. exact Hx.
Qed.

Lemma index_of_some c s n : index_of c s = Some n -> In c s.
Proof.
  revert n. induction s as [|d r IH]; simpl; intros n; [discriminate|].
  destruct (Z.eqb_spec d c) as [->|_]; [now left|].
  destruct (index_of c r); [|discriminate]. intros _. right. eauto.
Qed.

Lemma index_of_none c s : index_of c s = None -> ~ In c s.
Proof.
  induction s as [|d r IH]; simpl; [tauto|].
  destruct (Z.eqb_spec d c) as [->|Hne]; [discriminate|].
  destruct (index_of c r); [discriminate|]. intros _ [H|H]; [congruence|].
  now apply IH.
Qed.

Lemma index_of_zero c s : index_of c s = Some O -> exists r, s = c :: r.
Proof.
  destruct s as [|d r]; simpl; [discriminate|].
  destruct (Z.eqb_spec d c) as [->|_]; [eauto|].
  destruct (index_of c r); discriminate.
Qed.

Lemma closes_true s : closes s = true -> exists r, s = 62 :: r.
Proof.
  destruct s as [|c r]; simpl; [discriminate|].
  intros H. apply Z.eqb_eq in H. subst. eauto.
Qed.

Lemma m_tag_none_at s :
  m_tag (60 :: s) = None -> closes s = true \/ ~ In 62 s.
Proof.
  unfold m_tag. rewrite Z.eqb_refl.
  destruct (index_of 62 s) as [[|n]|] eqn:E; [| discriminate |].
  - intros _. left. apply index_of_zero in E. destruct E as (r & ->).
    reflexivity.
  - intros _. right. now apply index_of_none.
Qed.

Lemma m_tag_not_lt c s : c <> 60 -> m_tag (c :: s) = None.
Proof.
  intros H. unfold m_tag. destruct (Z.eqb_spec c 60); [contradiction|].
  reflexivity.
Qed.

(** What the tag pattern leaves holds no tag. *)
Lemma tagfree_sub_tag s k : tagfree (sub_go (const_repl m_tag []) k s).
Proof.
  revert k. induction s as [|c r IH]; intros k; simpl; [exact I|].
  destruct k as [|k]; [|apply IH].
  unfold const_repl at 1.
  destruct (m_tag (c :: r)) as [[|n]|] eqn:E.
  - unfold m_tag in E. destruct (c =? 60); [|discriminate].
    destruct (index_of 62 r) as [[|j]|]; discriminate.
  - simpl. apply IH.
  - simpl. split; [|apply IH]. intros ->.
    apply m_tag_none_at in E. destruct E as [E|E].
    + left. apply closes_true in E. destruct E as (r' & ->).
      reflexivity.
    + right. intros H. apply E. revert H. apply in_sub_go_delete.
      intros u n repl. unfold const_repl.
      destruct (m_tag u); [|discriminate]. congruence.
Qed.

Lemma tagfree_strip_tags s : tagfree (strip_tags s).
Proof. unfold strip_tags, re_sub. apply tagfree_sub_tag. Qed.

Lemma tagfree_not_open s : tagfree s -> tag_open s = false.
Proof.
  destruct s as [|c r]; [reflexivity|]. simpl. intros [H _].
  destruct (Z.eqb_spec c 60) as [->|_]; [|reflexivity].
  destruct (H eq_refl) as [E|E].
  - now rewrite E.
  - apply mem_false in E. rewrite E. apply andb_false_r.
Qed.

(** A pattern that matches only where a tag opens changes nothing in text
    that holds no tag. *)
Lemma sub_go_tagfree m repl s :
  (forall u n, m u = Some n -> tag_open u = true) ->
  tagfree s -> sub_go (const_repl m repl) O s = s.
Proof.
  intros Hm. induction s as [|c r IH]; intros Ht; [reflexivity|].
  simpl. unfold const_repl at 1.
  destruct (m (c :: r)) as [n|] eqn:E.
  - apply Hm in E. rewrite tagfree_not_open in E by exact Ht. discriminate.
  - f_equal. apply IH. apply Ht.
Qed.

Lemma in_dropwhile_closes p s :
  closes (snd (opt_slash (dropwhile p s))) = true -> In 62 s.
Proof.
  intros H.
  assert (Hd : In 62 (dropwhile p s)).
  { destruct (dropwhile p s) as [|c r]; [discriminate|].
    simpl in H. destruct (c =? 47).
    - simpl in H. apply closes_true in H. destruct H as (r' & ->).
      right. now left.
    - simpl in H. apply Z.eqb_eq in H. now left. }
  exact (in_dropwhile _ _ _ Hd).
Qed.

Lemma ci_not_gt a b c : a <> 62 -> b <> 62 -> ci a b c = true -> (c =? 62) = false.
Proof.
  unfold ci. intros Ha Hb H. apply orb_prop in H.
  destruct H as [H|H]; apply Z.eqb_eq in H; subst; now apply Z.eqb_neq.
Qed.

Lemma tag_open_intro c d r :
  (c =? 60) = true -> (d =? 62) = false -> In 62 r ->
  tag_open (c :: d :: r) = true.
Proof.
  intros Hc Hd Hin. unfold tag_open, closes. rewrite Hc, Hd.
  cbn [negb andb]. apply mem_In. now right.
Qed.

Lemma m_br_open u n : m_br u = Some n -> tag_open u = true.
Proof.
  unfold m_br. destruct u as [|lt [|b [|r t]]]; try discriminate.
  destruct ((lt =? 60) && ci 98 66 b && ci 114 82 r) eqn:E; [|discriminate].
  apply andb_prop in E. destruct E as [E Hr].
  apply andb_prop in E. destruct E as [Hlt Hb].
  destruct (opt_slash (dropwhile isspace t)) as [k t'] eqn:Eo.
  destruct (closes t') eqn:Ec; [|discriminate]. intros _.
  apply tag_open_intro; [exact Hlt | |].
  - apply (ci_not_gt 98 66); [discriminate | discriminate | exact Hb].
  - right. apply (in_dropwhile_closes isspace). now rewrite Eo.
Qed.

Lemma m_p_open u n : m_p u = Some n -> tag_open u = true.
Proof.
  unfold m_p. destruct u as [|lt u]; [discriminate|].
  destruct (lt =? 60) eqn:Hlt; [|discriminate].
  destruct (opt_slash u) as [k0 u'] eqn:E0.
  destruct u' as [|p t]; [discriminate|].
  destruct (ci 112 80 p) eqn:Hp; [|discriminate].
  destruct (opt_slash (dropwhile isspace t)) as [k t'] eqn:Eo.
  destruct (closes t') eqn:Ec; [|discriminate]. intros _.
  assert (Hin : In 62 t).
  { apply (in_dropwhile_closes isspace). now rewrite Eo. }
  assert (Hp62 : (p =? 62) = false)
    by (apply (ci_not_gt 112 80); [discriminate | discriminate | exact Hp]).
  destruct u as [|c r]; [discriminate|]. simpl in E0.
  destruct (Z.eqb_spec c 47) as [->|Hc].
  - injection E0 as _ E1. subst r.
    apply tag_open_intro; [exact Hlt | reflexivity | now right].
  - injection E0 as _ E1 E2. subst c r.
    apply tag_open_intro; [exact Hlt | exact Hp62 | exact Hin].
Qed.

Lemma m_li_open u n : m_li u = Some n -> tag_open u = true.
Proof.
  unfold m_li. destruct u as [|lt [|l [|i t]]]; try discriminate.
  destruct ((lt =? 60) && ci 108 76 l && ci_i i) eqn:E; [|discriminate].
  apply andb_prop in E. destruct E as [E _].
  apply andb_prop in E. destruct E as [Hlt Hl].
  destruct (index_of 62 t) as [j|] eqn:Ei; [|discriminate]. intros _.
  apply tag_open_intro; [exact Hlt | |].
  - apply (ci_not_gt 108 76); [discriminate | discriminate | exact Hl].
  - right. exact (index_of_some _ _ _ Ei).
Qed.

Lemma m_tag_open u n : m_tag u = Some n -> tag_open u = true.
Proof.
  unfold m_tag. destruct u as [|lt t]; [discriminate|].
  destruct (lt =? 60) eqn:Hlt; [|discriminate].
  destruct (index_of 62 t) as [[|j]|] eqn:Ei; try discriminate. intros _.
  assert (Hin := index_of_some _ _ _ Ei).
  destruct t as [|d r]; [destruct Hin|]. simpl in Ei.
  destruct (Z.eqb_spec d 62) as [|Hd]; [discriminate|].
  apply tag_open_intro; [exact Hlt | now apply Z.eqb_neq |].
  destruct Hin as [Hin|Hin]; [contradiction | exact Hin].
Qed.

(** Text that holds no tag is left alone by the tag stage. *)
Lemma strip_tags_tagfree s : tagfree s -> strip_tags s = s.
Proof.
  intros H. unfold strip_tags, re_sub.
  rewrite (sub_go_tagfree m_br) by (exact m_br_open || exact H).
  rewrite (sub_go_tagfree m_p) by (exact m_p_open || exact H).
  rewrite (sub_go_tagfree m_li) by (exact m_li_open || exact H).
  apply sub_go_tagfree; [exact m_tag_open | exact H].
Qed.

(** ** Gentle rewritings *)

Lemma harmless_not_bracket d : harmless d = true -> d <> 60 /\ d <> 62.
Proof. intros H. split; intros ->; discriminate. Qed.

Lemma in_gentle s s' d : gentle s s' -> In d s' -> In d s \/ harmless d = true.
Proof.
  induction 1 as [|c s s' _ IH|c ds s s' _ Hds _ IH]; simpl.
  - tauto.
  - intros [H|H]; [now left; left|]. destruct (IH H); [left; now right|now right].
  - intros H. apply in_app_or in H. destruct H as [H|H].
    + right. rewrite Forall_forall in Hds. exact (Hds _ H).
    + destruct (IH H); [left; now right | now right].
Qed.

Lemma gentle_refl s : gentle s s.
Proof. induction s; constructor; assumption. Qed.

Lemma gentle_drop c s s' : touchable c = true -> gentle s s' -> gentle (c :: s) s'.
Proof. intros Hc H. exact (gentle_change c [] s s' Hc (Forall_nil _) H). Qed.

Lemma gentle_app a a' b b' : gentle a a' -> gentle b b' -> gentle (a ++ b) (a' ++ b').
Proof.
  induction 1 as [|c s s' _ IH|c ds s s' Hc Hds _ IH]; intros Hb; simpl.
  - exact Hb.
  - constructor. exact (IH Hb).
  - rewrite <- app_assoc. constructor; auto.
Qed.

Lemma gentle_drop_all a :
  Forall (fun c => touchable c = true) a -> gentle a [].
Proof.
  induction 1 as [|c a Hc _ IH]; [constructor|]. now apply gentle_drop.
Qed.

Lemma tagfree_app_harmless ds s :
  Forall (fun d => harmless d = true) ds -> tagfree s -> tagfree (ds ++ s).
Proof.
  induction 1 as [|d ds Hd _ IH]; intros Hs; [exact Hs|].
  simpl. split; [|exact (IH Hs)]. intros ->. discriminate.
Qed.

Lemma gentle_closes s s' : gentle s s' -> closes s = true -> closes s' = true.
Proof.
  intros H Hc. apply closes_true in Hc. destruct Hc as (r & ->).
  inversion H; subst; [reflexivity | discriminate].
Qed.

Lemma tagfree_gentle s s' : gentle s s' -> tagfree s -> tagfree s'.
Proof.
  induction 1 as [|c s s' Hg IH|c ds s s' Hc Hds Hg IH]; simpl.
  - tauto.
  - intros [Hh Ht]. split; [|exact (IH Ht)]. intros E.
    destruct (Hh E) as [Hcl|Hn].
    + left. exact (gentle_closes _ _ Hg Hcl).
    + right. intros Hin. apply (in_gentle _ _ _ Hg) in Hin.
      destruct Hin as [Hin|Hin]; [contradiction | discriminate].
  - intros [_ Ht]. apply tagfree_app_harmless; [exact Hds | exact (IH Ht)].
Qed.

Lemma reserved_of_mem c :
  mem c QUOTES = true \/ mem c dash_keys = true
  \/ mem c SPECIAL_SPACES = true \/ mem c INVISIBLE_CHARS = true ->
  reserved c = true.
Proof.
  unfold reserved. intros [H|[H|[H|H]]]; rewrite H;
    rewrite ?orb_true_r; reflexivity.
Qed.

Lemma harmless_not_in_table d :
  harmless d = true ->
  mem d QUOTES = false /\ mem d dash_keys = false
  /\ mem d SPECIAL_SPACES = false /\ mem d INVISIBLE_CHARS = false.
Proof.
  unfold harmless. intros H. apply orb_prop in H. destruct H as [H|H].
  - apply orb_prop in H.
    destruct H as [H|H]; apply Z.eqb_eq in H; subst; repeat split; reflexivity.
  - apply negb_true_iff in H.
    repeat split;
      (destruct (mem d _) eqn:E; [|reflexivity];
       rewrite reserved_of_mem in H by tauto; discriminate).
Qed.

Lemma lacks_gentle set s s' :
  is_table set -> gentle s s' -> lacks set s -> lacks set s'.
Proof.
  intros Hset Hg Hl d Hd. apply (in_gentle _ _ _ Hg) in Hd.
  destruct Hd as [Hd|Hd]; [exact (Hl d Hd)|].
  apply harmless_not_in_table in Hd.
  destruct Hset as [->|[->|[->| ->]]]; tauto.
Qed.

Lemma respell_gentle s s' : respell s s' -> gentle s s'.
Proof.
  induction 1 as [|c s s' _ IH|c d ds s s' Hc Hds _ IH].
  - constructor.
  - now constructor.
  - apply gentle_change; [| |exact IH].
    + unfold touchable. rewrite Hc. apply orb_true_r.
    + eapply Forall_impl; [|exact Hds]. intros x Hx. unfold harmless.
      rewrite Hx. apply orb_true_r.
Qed.

(** Deleting a class of characters, or mapping characters other than the
    brackets among themselves, makes no tag. *)
Lemma tagfree_filter p s : tagfree s -> tagfree (filter p s).
Proof.
  induction s as [|c r IH]; [tauto|]. simpl. intros [Hh Ht].
  destruct (p c) eqn:Ec; [|exact (IH Ht)].
  simpl. split; [|exact (IH Ht)]. intros E.
  destruct (Hh E) as [Hcl|Hn].
  - apply closes_true in Hcl. destruct Hcl as (r' & ->). simpl.
    destruct (p 62) eqn:E62; [now left|]. right. intros Hin.
    apply filter_In in Hin. destruct Hin as [_ Hp]. congruence.
  - right. intros Hin. apply filter_In in Hin. tauto.
Qed.

Lemma tagfree_map f s :
  (forall c, f c = 60 -> c = 60) -> (forall c, f c = 62 <-> c = 62) ->
  tagfree s -> tagfree (map f s).
Proof.
  intros H60 H62. induction s as [|c r IH]; [tauto|]. simpl. intros [Hh Ht].
  split; [|exact (IH Ht)]. intros E. apply H60 in E.
  destruct (Hh E) as [Hcl|Hn].
  - left. apply closes_true in Hcl. destruct Hcl as (r' & ->). simpl.
    apply Z.eqb_eq. now apply (proj2 (H62 62)).
  - right. intros Hin. apply in_map_iff in Hin. destruct Hin as (x & Hx & Hin).
    apply (proj1 (H62 x)) in Hx. subst. contradiction.
Qed.

Lemma tagfree_app_inv a b : tagfree (a ++ b) -> tagfree a.
Proof.
  induction a as [|c r IH]; [intros _; exact I|]. simpl. intros [Hh Ht].
  split; [|exact (IH Ht)]. intros E. destruct (Hh E) as [Hcl|Hn].
  - destruct r as [|d r'].
    + right. intros [].
    + left. exact Hcl.
  - right. intros Hin. apply Hn. apply in_or_app. now left.
Qed.

Lemma tagfree_app a b : tagfree a -> tagfree b -> ~ In 62 b -> tagfree (a ++ b).
Proof.
  intros Ha Hb Hn. induction a as [|c r IH]; [exact Hb|].
  simpl in *. destruct Ha as [Hh Ht]. split; [|exact (IH Ht)].
  intros E. destruct (Hh E) as [Hcl|Hr].
  - left. apply closes_true in Hcl. destruct Hcl as (r' & ->). reflexivity.
  - right. intros Hin. apply in_app_or in Hin. tauto.
Qed.

Lemma tagfree_dots : tagfree dots /\ ~ In 62 dots.
Proof.
  split.
  - repeat split; discriminate.
  - intros H. vm_compute in H. intuition discriminate.
Qed.

Lemma gentle_map f s :
  (forall c, f c = c \/ (touchable c = true /\ harmless (f c) = true)) ->
  gentle s (map f s).
Proof.
  intros Hf. induction s as [|c r IH]; [constructor|]. simpl.
  destruct (Hf c) as [->|[Hc Hd]]; [now constructor|].
  apply (gentle_change c [f c]); [exact Hc | | exact IH].
  constructor; [exact Hd | constructor].
Qed.

Lemma isspace_touchable c : isspace c = true -> touchable c = true.
Proof. intros H. unfold touchable. now rewrite H. Qed.

Lemma is_blank_isspace c : is_blank c = true -> isspace c = true.
Proof.
  unfold is_blank. intros H. apply orb_prop in H.
  destruct H as [H|H]; apply Z.eqb_eq in H; subst; reflexivity.
Qed.

(** ** Runs of spaces and tabs *)

Lemma sub_go_cons m c r :
  sub_go m O (c :: r)
  = match m (c :: r) with
    | Some (S n, repl) => repl ++ sub_go m n r
    | _ => c :: sub_go m O r
    end.
Proof. reflexivity. Qed.

Lemma m_spaces_cons c r :
  m_spaces (c :: r)
  = if is_blank c then Some (S (length (takewhile is_blank r))) else None.
Proof. unfold m_spaces. simpl. destruct (is_blank c); reflexivity. Qed.

(** The substitution of [_multi_space_pattern] by one space is
    [squeeze]. *)
Lemma sub_spaces_squeeze s :
  sub_go (const_repl m_spaces [32]) (length (takewhile is_blank s)) s
  = squeeze true s
  /\ sub_go (const_repl m_spaces [32]) O s = squeeze false s.
Proof.
  induction s as [|c r [IH1 IH2]]; [split; reflexivity|].
  assert (H0 : sub_go (const_repl m_spaces [32]) O (c :: r)
               = squeeze false (c :: r)).
  { rewrite sub_go_cons. unfold const_repl at 1. rewrite m_spaces_cons.
    cbn [squeeze]. destruct (is_blank c); cbv beta iota.
    - rewrite IH1. reflexivity.
    - rewrite IH2. reflexivity. }
  split; [|exact H0].
  cbn [takewhile squeeze]. destruct (is_blank c) eqn:Hb.
  - cbn [length sub_go]. exact IH1.
  - cbn [length]. rewrite H0. cbn [squeeze]. now rewrite Hb.
Qed.

Lemma re_sub_spaces s : re_sub (const_repl m_spaces [32]) s = squeeze false s.
Proof. apply sub_spaces_squeeze. Qed.

Lemma gentle_squeeze b s : gentle s (squeeze b s).
Proof.
  revert b. induction s as [|c r IH]; intros b; [constructor|]. simpl.
  destruct (is_blank c) eqn:Hb; [|constructor; apply IH].
  assert (Hc : touchable c = true)
    by (apply isspace_touchable, is_blank_isspace, Hb).
  destruct b.
  - apply gentle_drop; [exact Hc | apply IH].
  - apply (gentle_change c [32]); [exact Hc | | apply IH].
    constructor; [reflexivity | constructor].
Qed.

Lemma squeeze_true_nonblank s :
  match s with c :: _ => is_blank c = false | [] => True end ->
  squeeze true s = squeeze false s.
Proof.
  destruct s as [|c r]; [reflexivity|]. simpl. intros ->. reflexivity.
Qed.

Lemma tidy_squeeze b s :
  tidy (squeeze b s)
  /\ (b = true -> match squeeze b s with d :: _ => d <> 32 | [] => True end).
Proof.
  revert b. induction s as [|c r IH]; intros b;
    [split; [exact I | intros _; exact I]|].
  simpl. destruct (is_blank c) eqn:Hb.
  - destruct b.
    + apply IH.
    + split; [|discriminate]. simpl. split; [discriminate|].
      split; [|apply IH]. intros _. now apply (IH true).
  - unfold is_blank in Hb. apply orb_false_elim in Hb. destruct Hb as [H32 H9].
    apply Z.eqb_neq in H32. apply Z.eqb_neq in H9.
    split; [|intros _; exact H32]. simpl. split; [exact H9|].
    split; [|apply IH]. intros E. contradiction.
Qed.

Lemma squeeze_tidy s : tidy s -> squeeze false s = s.
Proof.
  induction s as [|c r IH]; [reflexivity|]. simpl. intros (H9 & Hn & Ht).
  unfold is_blank. destruct (Z.eqb_spec c 9) as [|_]; [contradiction|].
  rewrite orb_false_r. destruct (Z.eqb_spec c 32) as [->|_].
  - f_equal. rewrite squeeze_true_nonblank; [exact (IH Ht)|].
    destruct r as [|d r']; [exact I|]. simpl in Ht. destruct Ht as (Hd9 & _).
    unfold is_blank. specialize (Hn eq_refl). simpl in Hn.
    apply Z.eqb_neq in Hn. apply Z.eqb_neq in Hd9. now rewrite Hn, Hd9.
  - f_equal. exact (IH Ht).
Qed.

Lemma tidy_app_inv a b : tidy (a ++ b) -> tidy a /\ tidy b.
Proof.
  induction a as [|c r IH]; [intros H; split; [exact I | exact H]|].
  simpl. intros (H9 & Hn & Ht). destruct (IH Ht) as [Hr Hb].
  split; [|exact Hb]. split; [exact H9|]. split; [|exact Hr].
  intros E. specialize (Hn E). destruct r; [exact I | exact Hn].
Qed.

Lemma tidy_app a d b :
  tidy a -> tidy (d :: b) -> d <> 32 -> tidy (a ++ d :: b).
Proof.
  intros Ha Hb Hd. induction a as [|c r IH]; [exact Hb|].
  simpl in *. destruct Ha as (H9 & Hn & Ht).
  split; [exact H9|]. split; [|exact (IH Ht)].
  intros E. destruct r; [exact Hd | exact (Hn E)].
Qed.

(** ** Stripping *)

Lemma takewhile_dropwhile p s : takewhile p s ++ dropwhile p s = s.
Proof.
  induction s as [|c r IH]; [reflexivity|]. simpl.
  destruct (p c); [simpl; now rewrite IH | reflexivity].
Qed.

Lemma takewhile_all p s : Forall (fun c => p c = true) (takewhile p s).
Proof.
  induction s as [|c r IH]; [constructor|]. simpl.
  destruct (p c) eqn:E; [now constructor | constructor].
Qed.

(** [strip] removes white space at both ends and nothing else. *)
Lemma strip_parts s :
  exists a b,
    s = a ++ strip s ++ b
    /\ Forall (fun c => isspace c = true) a
    /\ Forall (fun c => isspace c = true) b.
Proof.
  exists (takewhile isspace s), (rev (takewhile isspace (rev (lstrip s)))).
  split; [|split].
  - unfold strip, rstrip.
    rewrite <- rev_app_distr, takewhile_dropwhile, rev_involutive.
    unfold lstrip. now rewrite takewhile_dropwhile.
  - apply takewhile_all.
  - apply Forall_rev, takewhile_all.
Qed.

Lemma Forall_touchable a :
  Forall (fun c => isspace c = true) a ->
  Forall (fun c => touchable c = true) a.
Proof. apply Forall_impl. exact isspace_touchable. Qed.

Lemma gentle_strip s : gentle s (strip s).
Proof.
  destruct (strip_parts s) as (a & b & E & Ha & Hb).
  rewrite E at 1.
  change (strip s) with ([] ++ strip s) at 2.
  apply gentle_app; [apply gentle_drop_all, Forall_touchable, Ha|].
  rewrite <- (app_nil_r (strip s)) at 2.
  apply gentle_app; [apply gentle_refl|].
  apply gentle_drop_all, Forall_touchable, Hb.
Qed.

Lemma dropwhile_head p s :
  match dropwhile p s with c :: _ => p c = false | [] => True end.
Proof.
  induction s as [|c r IH]; [exact I|]. simpl.
  destruct (p c) eqn:E; [exact IH | exact E].
Qed.

Lemma dropwhile_id p s :
  match s with c :: _ => p c = false | [] => True end -> dropwhile p s = s.
Proof. destruct s as [|c r]; [reflexivity|]. simpl. now intros ->. Qed.

Lemma last_app_nonempty (a b : str) d : b <> [] -> last (a ++ b) d = last b d.
Proof.
  intros Hb. induction a as [|c r IH]; [reflexivity|].
  simpl. destruct (r ++ b) eqn:E; [|exact IH].
  apply app_eq_nil in E. tauto.
Qed.

Lemma last_in (s : str) d : s <> [] -> In (last s d) s.
Proof.
  intros H. destruct (exists_last H) as (a & x & ->).
  rewrite last_last. apply in_or_app. right. now left.
Qed.

Lemma rev_head_last (s : str) :
  s <> [] -> exists r, rev s = last s 0 :: r.
Proof.
  intros H. destruct (exists_last H) as (a & x & ->).
  rewrite rev_app_distr. simpl. exists (rev a).
  now rewrite last_last.
Qed.

Lemma trimmed_strip s : trimmed s -> strip s = s.
Proof.
  destruct s as [|c r]; [reflexivity|]. intros [Hc Hl].
  unfold strip, rstrip, lstrip.
  rewrite (dropwhile_id isspace (c :: r)) by exact Hc.
  destruct (rev_head_last (c :: r)) as (t & E); [discriminate|].
  rewrite E. rewrite dropwhile_id by exact Hl.
  rewrite <- E. apply rev_involutive.
Qed.

Lemma strip_trimmed s : trimmed (strip s).
Proof.
  unfold strip, rstrip.
  pose proof (dropwhile_head isspace (rev (lstrip s))) as Hv.
  pose proof (takewhile_dropwhile isspace (rev (lstrip s))) as Hsplit.
  destruct (dropwhile isspace (rev (lstrip s))) as [|x v] eqn:Ev; [exact I|].
  assert (Hu : lstrip s = rev v ++ [x] ++ rev (takewhile isspace (rev (lstrip s)))).
  { rewrite <- (rev_involutive (lstrip s)) at 1. rewrite <- Hsplit at 1.
    rewrite rev_app_distr. simpl. now rewrite <- app_assoc. }
  pose proof (dropwhile_head isspace s) as Hh. fold (lstrip s) in Hh.
  simpl rev. destruct (rev v ++ [x]) as [|y w] eqn:Ey.
  { apply app_eq_nil in Ey. destruct Ey; discriminate. }
  split.
  - rewrite Hu in Hh. rewrite app_assoc, Ey in Hh. exact Hh.
  - rewrite <- Ey. rewrite last_last. exact Hv.
Qed.

Lemma strip_idempotent s : strip (strip s) = strip s.
Proof. apply trimmed_strip, strip_trimmed. Qed.

(** ** Lowering as a respelling *)

Lemma isspace_reserved c : isspace c = true -> reserved c = true.
Proof. intros H. unfold reserved. now rewrite H. Qed.

Lemma not_reserved_not_space c : reserved c = false -> isspace c = false.
Proof.
  intros H. destruct (isspace c) eqn:E; [|reflexivity].
  apply isspace_reserved in E. congruence.
Qed.

Lemma respell_lower_go L before s :
  lower_keeps_reserved L -> respell s (lower_go L before s).
Proof.
  intros (Hres & Hnew & Hne). revert before.
  induction s as [|c r IH]; intros before; [constructor|].
  simpl. unfold lower_at. destruct (Z.eqb_spec c 0x3A3) as [->|Hc].
  - apply (respell_change 0x3A3 _ []); [reflexivity | | apply IH].
    constructor; [|constructor].
    destruct (final_sigma L before r); reflexivity.
  - destruct (reserved c) eqn:Er.
    + rewrite (Hres c Er). apply respell_keep, IH.
    + destruct (tolower_full L c) as [|d ds] eqn:El; [now apply Hne in El|].
      apply respell_change; [exact Er | | apply IH].
      apply Forall_forall. intros x Hx. apply (Hnew c x Er). now rewrite El.
Qed.

Lemma respell_lower L s : lower_keeps_reserved L -> respell s (lower L s).
Proof. intros H. now apply respell_lower_go. Qed.

Lemma respell_nil_inv s' : respell [] s' -> s' = [].
Proof. intros H. inversion H. reflexivity. Qed.

Lemma respell_nonempty s s' : respell s s' -> s <> [] -> s' <> [].
Proof. intros H. inversion H; subst; [tauto | discriminate | discriminate]. Qed.

Lemma tidy_app_plain ds s :
  Forall (fun x => reserved x = false) ds -> tidy s -> tidy (ds ++ s).
Proof.
  induction 1 as [|d ds Hd _ IH]; intros Hs; [exact Hs|].
  simpl. apply not_reserved_not_space in Hd.
  split; [intros ->; discriminate|]. split; [|exact (IH Hs)].
  intros ->. discriminate.
Qed.

Lemma tidy_respell s s' : respell s s' -> tidy s -> tidy s'.
Proof.
  induction 1 as [|c s s' Hr IH|c d ds s s' Hc Hds Hr IH]; [tauto| |].
  - simpl. intros (H9 & Hn & Ht). split; [exact H9|].
    split; [|exact (IH Ht)]. intros E. specialize (Hn E).
    inversion Hr as [|x u u' Hu|x y ys u u' Hx Hys Hu]; subst.
    + exact I.
    + exact Hn.
    + simpl. inversion Hys as [|? ? Hy _]; subst.
      apply not_reserved_not_space in Hy. intros ->. discriminate.
  - simpl. intros (_ & _ & Ht).
    apply (tidy_app_plain (d :: ds)); [exact Hds | exact (IH Ht)].
Qed.

Lemma respell_last s s' :
  respell s s' -> s <> [] ->
  isspace (last s 0) = false -> isspace (last s' 0) = false.
Proof.
  induction 1 as [|c s s' Hr IH|c d ds s s' Hc Hds Hr IH]; [tauto| |];
    intros _ Hl.
  - destruct s as [|x u].
    + apply respell_nil_inv in Hr. subst. exact Hl.
    + assert (Hs' : s' <> []) by (apply (respell_nonempty _ _ Hr); discriminate).
      change (c :: s') with ([c] ++ s'). rewrite last_app_nonempty by exact Hs'.
      apply IH; [discriminate|].
      change (c :: x :: u) with ([c] ++ x :: u) in Hl.
      rewrite last_app_nonempty in Hl by discriminate. exact Hl.
  - destruct s as [|x u].
    + apply respell_nil_inv in Hr. subst. rewrite app_nil_r.
      apply not_reserved_not_space.
      rewrite Forall_forall in Hds. apply Hds.
      apply last_in. discriminate.
    + assert (Hs' : s' <> []) by (apply (respell_nonempty _ _ Hr); discriminate).
      rewrite last_app_nonempty by exact Hs'.
      apply IH; [discriminate|].
      change (c :: x :: u) with ([c] ++ x :: u) in Hl.
      rewrite last_app_nonempty in Hl by discriminate. exact Hl.
Qed.

Lemma trimmed_respell s s' : respell s s' -> trimmed s -> trimmed s'.
Proof.
  intros Hr Ht. destruct s as [|c r].
  - apply respell_nil_inv in Hr. subst. exact I.
  - destruct Ht as [Hc Hl].
    assert (Hlast := respell_last _ _ Hr ltac:(discriminate) Hl).
    inversion Hr as [|x u u' Hu|x y ys u u' Hx Hys Hu]; subst.
    + split; [exact Hc | exact Hlast].
    + split; [|exact Hlast]. inversion Hys; subst.
      now apply not_reserved_not_space.
Qed.

(** ** The character stages *)

Lemma lacks_delete_chars set s : lacks set (delete_chars set s).
Proof. intros c Hc. apply in_delete_chars in Hc. tauto. Qed.

Lemma lacks_filter set p s : lacks set s -> lacks set (filter p s).
Proof. intros H c Hc. apply filter_In in Hc. apply H, Hc. Qed.

Lemma in_chars_to_space set s d :
  In d (chars_to_space set s) -> (In d s /\ mem d set = false) \/ d = 32.
Proof.
  unfold chars_to_space. intros H. apply in_map_iff in H.
  destruct H as (c & E & Hc). destruct (mem c set) eqn:Em.
  - right. now subst.
  - left. subst. tauto.
Qed.

Lemma lacks_chars_to_space set s :
  mem 32 set = false -> lacks set (chars_to_space set s).
Proof.
  intros H32 d Hd. apply in_chars_to_space in Hd.
  destruct Hd as [[_ H]| ->]; assumption.
Qed.

Lemma chars_to_space_lacks set s : lacks set s -> chars_to_space set s = s.
Proof.
  intros H. unfold chars_to_space. rewrite <- (map_id s) at 2.
  apply map_ext_in. intros c Hc. now rewrite (H c Hc).
Qed.

Lemma replace_items_dashes s : replace_items DASHES s = map dash_to_hyphen s.
Proof.
  unfold replace_items, DASHES, hyphen. cbn [fold_left fst snd].
  rewrite !replace_char, !map_map. apply map_ext. intros c.
  unfold dash_to_hyphen, dash_keys, DASHES, mem. cbn [flat_map fst app existsb].
  repeat match goal with
         | |- context [c =? ?k] =>
             destruct (Z.eqb_spec c k) as [->|?]; [reflexivity|]; cbv iota
         end.
  reflexivity.
Qed.

Lemma in_dash_to_hyphen s d :
  In d (map dash_to_hyphen s) -> (In d s /\ mem d dash_keys = false) \/ d = 45.
Proof.
  intros H. apply in_map_iff in H. destruct H as (c & E & Hc).
  unfold dash_to_hyphen in E. destruct (mem c dash_keys) eqn:Em.
  - right. now subst.
  - left. subst. tauto.
Qed.

Lemma lacks_dashes s : lacks dash_keys (replace_items DASHES s).
Proof.
  rewrite replace_items_dashes. intros d Hd. apply in_dash_to_hyphen in Hd.
  destruct Hd as [[_ H]| ->]; [exact H | reflexivity].
Qed.

Lemma dashes_lacks s : lacks dash_keys s -> replace_items DASHES s = s.
Proof.
  intros H. rewrite replace_items_dashes. rewrite <- (map_id s) at 2.
  apply map_ext_in. intros c Hc. unfold dash_to_hyphen. now rewrite (H c Hc).
Qed.

Lemma table_plain set :
  is_table set ->
  mem 32 set = false /\ mem 45 set = false /\ mem 46 set = false
  /\ mem 62 set = false /\ mem 60 set = false.
Proof. intros [->|[->|[->| ->]]]; repeat split; reflexivity. Qed.

Lemma carries_id : carries (fun s => s).
Proof. intros s. split; auto. Qed.

Lemma carries_filter p : carries (filter p).
Proof.
  intros s. split; [apply tagfree_filter|]. intros set _. apply lacks_filter.
Qed.

Lemma carries_delete_chars set : carries (delete_chars set).
Proof. apply carries_filter. Qed.

Lemma carries_chars_to_space set :
  is_table set -> carries (chars_to_space set).
Proof.
  intros Hset s. destruct (table_plain set Hset) as (_ & _ & _ & H62 & H60).
  split.
  - apply tagfree_map.
    + intros c. destruct (mem c set); [discriminate | tauto].
    + intros c. split.
      * destruct (mem c set); [discriminate | tauto].
      * intros ->. now rewrite H62.
  - intros set' Hset' Hl d Hd. apply in_chars_to_space in Hd.
    destruct Hd as [[Hd _]| ->]; [exact (Hl d Hd)|].
    apply (table_plain set' Hset').
Qed.

Lemma carries_dashes : carries (replace_items DASHES).
Proof.
  intros s. rewrite replace_items_dashes. split.
  - apply tagfree_map; intros c; unfold dash_to_hyphen.
    + destruct (mem c dash_keys); [discriminate | tauto].
    + split.
      * destruct (mem c dash_keys); [discriminate | tauto].
      * intros ->. reflexivity.
  - intros set Hset Hl d Hd. apply in_dash_to_hyphen in Hd.
    destruct Hd as [[Hd _]| ->]; [exact (Hl d Hd)|].
    apply (table_plain set Hset).
Qed.

Lemma carries_gentle f : (forall s, gentle s (f s)) -> carries f.
Proof.
  intros Hf s. split.
  - apply tagfree_gentle, Hf.
  - intros set Hset. apply lacks_gentle; [exact Hset | apply Hf].
Qed.

Lemma carries_if (b : bool) f : carries f -> carries (fun s => if b then f s else s).
Proof. intros Hf. destruct b; [exact Hf | exact carries_id]. Qed.

(** ** Truncation keeps a prefix *)

Lemma firstn_prefix (n : nat) (s : str) : exists rest, s = firstn n s ++ rest.
Proof. exists (skipn n s). symmetry. apply firstn_skipn. Qed.

Lemma rsplit1_head_prefix s : exists rest, s = rsplit1_head s ++ rest.
Proof.
  unfold rsplit1_head. destruct (before_last 32 s) as [h|] eqn:E.
  - apply before_last_some in E. destruct E as (rest & E & _). eauto.
  - exists []. now rewrite app_nil_r.
Qed.

Lemma cut_cases self s :
  cut self s = s
  \/ exists kept rest, s = kept ++ rest /\ cut self s = kept ++ dots.
Proof.
  unfold cut. destruct (max_length self) as [m|]; [|now left].
  destruct (negb (m =? 0) && (m <? len s)); [|now left].
  right. exists (rsplit1_head (slice_to m s)).
  destruct (rsplit1_head_prefix (slice_to m s)) as (r1 & E1).
  assert (exists r2, s = slice_to m s ++ r2) as (r2 & E2)
    by (unfold slice_to; destruct (0 <=? m); apply firstn_prefix).
  exists (r1 ++ r2). split; [|reflexivity].
  rewrite app_assoc, <- E1. exact E2.
Qed.

Lemma carries_cut self : carries (cut self).
Proof.
  intros s. split.
  - intros Ht. destruct (cut_cases self s) as [->|(kept & rest & E & ->)];
      [exact Ht|].
    rewrite E in Ht. apply tagfree_app_inv in Ht.
    apply tagfree_app; [exact Ht | apply tagfree_dots ..].
  - intros set Hset Hl d Hd. apply in_cut in Hd.
    destruct Hd as [Hd| ->]; [exact (Hl d Hd)|]. apply (table_plain set Hset).
Qed.

Lemma carries_comp f g : carries f -> carries g -> carries (fun s => g (f s)).
Proof.
  intros Hf Hg s. destruct (Hf s) as [Hf1 Hf2]. destruct (Hg (f s)) as [Hg1 Hg2].
  split; [auto|]. intros set Hset Hl. auto.
Qed.

Lemma carries_ext f g : (forall s, f s = g s) -> carries f -> carries g.
Proof. intros E Hf s. rewrite <- E. apply Hf. Qed.

(** ** A single line *)

Lemma in_respell s s' d :
  respell s s' -> In d s' -> In d s \/ reserved d = false.
Proof.
  induction 1 as [|c s s' _ IH|c x xs s s' _ Hxs _ IH].
  - tauto.
  - intros [H|H]; [now left; left|].
    destruct (IH H); [left; now right | now right].
  - intros H. apply in_app_or in H. destruct H as [H|H].
    + right. rewrite Forall_forall in Hxs. exact (Hxs _ H).
    + destruct (IH H); [left; now right | now right].
Qed.

Lemma lacks_line_breaks s :
  lacks [10; 13] s <-> forall c, In c s -> c <> 10 /\ c <> 13.
Proof.
  split; intros H c Hc; specialize (H c Hc).
  - split; intros ->; discriminate.
  - unfold mem. simpl. destruct H as [H1 H2].
    apply Z.eqb_neq in H1. apply Z.eqb_neq in H2. now rewrite H1, H2.
Qed.

Lemma single_line_squeeze s :
  single_line s
  = squeeze false (map (fun c => if c =? 13 then 32 else c)
                       (map (fun c => if c =? 10 then 32 else c) s)).
Proof. unfold single_line. now rewrite re_sub_spaces, !replace_char. Qed.

Lemma one_line_single_line s : one_line (single_line s).
Proof.
  split.
  - apply lacks_line_breaks. intros c. apply single_line_no_line_break.
  - rewrite single_line_squeeze. apply tidy_squeeze.
Qed.

Lemma single_line_one_line s : one_line s -> single_line s = s.
Proof.
  intros [Hl Ht]. rewrite single_line_squeeze.
  assert (E : forall k, mem k [10; 13] = true ->
                map (fun c => if c =? k then 32 else c) s = s).
  { intros k Hk. rewrite <- (map_id s) at 2. apply map_ext_in.
    intros c Hc. destruct (Z.eqb_spec c k) as [->|_]; [|reflexivity].
    rewrite (Hl k Hc) in Hk. discriminate. }
  rewrite (E 10 eq_refl), (E 13 eq_refl). now apply squeeze_tidy.
Qed.

Lemma carries_single_line : carries single_line.
Proof.
  apply (carries_ext _ _ (fun s => eq_sym (single_line_squeeze s))).
  apply (carries_comp _ (squeeze false));
    [|apply carries_gentle, gentle_squeeze].
  apply (carries_comp (map _) (map _)); apply carries_gentle; intros s;
    apply gentle_map; intros c.
  - destruct (Z.eqb_spec c 10) as [->|_]; [right; split; reflexivity | now left].
  - destruct (Z.eqb_spec c 13) as [->|_]; [right; split; reflexivity | now left].
Qed.

Lemma tidy_strip s : tidy s -> tidy (strip s).
Proof.
  intros H. destruct (strip_parts s) as (a & b & E & _).
  rewrite E in H. apply tidy_app_inv in H. destruct H as [_ H].
  apply tidy_app_inv in H. tauto.
Qed.

Lemma tidy_dots : tidy dots.
Proof. repeat split; discriminate. Qed.

Lemma tidy_cut self s : tidy s -> tidy (cut self s).
Proof.
  intros H. destruct (cut_cases self s) as [->|(kept & rest & E & ->)];
    [exact H|].
  rewrite E in H. apply tidy_app_inv in H.
  apply (tidy_app kept 46 [46; 46]); [tauto | exact tidy_dots | discriminate].
Qed.

Lemma one_line_respell s s' : respell s s' -> one_line s -> one_line s'.
Proof.
  intros Hr [Hl Ht]. split; [|exact (tidy_respell _ _ Hr Ht)].
  intros d Hd. apply (in_respell _ _ _ Hr) in Hd.
  destruct Hd as [Hd|Hd]; [exact (Hl d Hd)|].
  unfold mem. simpl. destruct (Z.eqb_spec d 10) as [->|_]; [discriminate|].
  destruct (Z.eqb_spec d 13) as [->|_]; [discriminate | reflexivity].
Qed.

Lemma one_line_strip s : one_line s -> one_line (strip s).
Proof.
  intros [Hl Ht]. split; [|exact (tidy_strip _ Ht)].
  intros d Hd. apply Hl. exact (in_strip _ _ Hd).
Qed.

Lemma one_line_cut self s : one_line s -> one_line (cut self s).
Proof.
  intros [Hl Ht]. split; [|exact (tidy_cut _ _ Ht)].
  intros d Hd. apply in_cut in Hd.
  destruct Hd as [Hd| ->]; [exact (Hl d Hd) | reflexivity].
Qed.

(** ** The ends of a truncated text *)

Lemma trimmed_cut self s : trimmed s -> trimmed (cut self s).
Proof.
  intros H. destruct (cut_cases self s) as [->|(kept & rest & E & ->)];
    [exact H|].
  destruct kept as [|c k]; [split; reflexivity|].
  rewrite E in H. destruct H as [Hc _]. split; [exact Hc|].
  rewrite last_app_nonempty by discriminate. reflexivity.
Qed.

(** ** Lines *)

Lemma split_nonempty sep s : split sep s <> [].
Proof.
  destruct s as [|c r]; simpl; [discriminate|].
  destruct (c =? sep); [discriminate|]. destruct (split sep r); discriminate.
Qed.

Lemma join_cons sep p q rest :
  join sep (p :: q :: rest) = p ++ sep :: join sep (q :: rest).
Proof. reflexivity. Qed.

Lemma join_split sep s : join sep (split sep s) = s.
Proof.
  induction s as [|c r IH]; [reflexivity|]. simpl.
  pose proof (split_nonempty sep r) as Hne.
  destruct (split sep r) as [|h t] eqn:E; [contradiction|].
  destruct (Z.eqb_spec c sep) as [->|_].
  - rewrite join_cons, IH. reflexivity.
  - destruct t as [|q t].
    + simpl in *. now rewrite IH.
    + rewrite join_cons in *. rewrite <- IH. reflexivity.
Qed.

Lemma split_no_sep sep s : Forall (fun l => ~ In sep l) (split sep s).
Proof.
  induction s as [|c r IH]; simpl; [constructor; [tauto | constructor]|].
  destruct (Z.eqb_spec c sep) as [->|Hc]; [constructor; [tauto | exact IH]|].
  destruct (split sep r) as [|h t]; [constructor; [|constructor]|].
  - intros [H|[]]. congruence.
  - inversion IH; subst. constructor; [|assumption].
    intros [H|H]; [congruence | contradiction].
Qed.

(** The first line of a text begins as the text does. *)
Lemma split_head c r :
  c <> 10 -> exists h t, split 10 (c :: r) = (c :: h) :: t.
Proof.
  intros Hc. simpl. destruct (Z.eqb_spec c 10); [contradiction|].
  destruct (split 10 r) as [|h t]; eauto.
Qed.

Lemma tidy_join ls : Forall tidy ls -> tidy (join 10 ls).
Proof.
  induction 1 as [|p ls Hp Hls IH]; [exact I|].
  destruct ls as [|q ls]; [exact Hp|].
  rewrite join_cons. apply tidy_app; [exact Hp | | discriminate].
  simpl. split; [discriminate|]. split; [discriminate | exact IH].
Qed.

Lemma tidy_split s : tidy s -> Forall tidy (split 10 s).
Proof.
  induction s as [|c r IH]; [intros _; repeat constructor|].
  intros (H9 & Hn & Ht). specialize (IH Ht). simpl.
  destruct (Z.eqb_spec c 10) as [->|Hc]; [constructor; [exact I | exact IH]|].
  destruct (split 10 r) as [|h t] eqn:E.
  - constructor; [|constructor]. simpl.
    split; [exact H9|]. split; [intros _; exact I | exact I].
  - inversion IH; subst. constructor; [|assumption].
    simpl. split; [exact H9|]. split; [|assumption].
    intros E32. specialize (Hn E32). destruct h as [|d h']; [exact I|].
    destruct r as [|x r']; [discriminate|].
    destruct (Z.eqb_spec x 10) as [->|Hx].
    + simpl in E. discriminate.
    + destruct (split_head x r' Hx) as (h0 & t0 & E0). rewrite E0 in E.
      injection E as <- _ _. exact Hn.
Qed.

(** ** Runs of newlines *)

Lemma last_index_of_none c s : last_index_of c s = None <-> ~ In c s.
Proof.
  induction s as [|d r IH]; simpl; [tauto|].
  destruct (last_index_of c r) as [n|].
  - split; [discriminate|]. intros H. exfalso. apply H. right.
    destruct (in_dec Z.eq_dec c r) as [Hin|Hn]; [exact Hin|].
    apply IH in Hn. discriminate.
  - destruct (Z.eqb_spec d c) as [->|Hne].
    + split; [discriminate|]. intros H. exfalso. apply H. now left.
    + split; [|reflexivity]. intros _ [H|H]; [congruence|].
      now apply (proj1 IH).
Qed.

Lemma last_index_of_some c s j :
  last_index_of c s = Some j ->
  exists a b, s = a ++ c :: b /\ length a = j /\ ~ In c b.
Proof.
  revert j. induction s as [|d r IH]; simpl; intros j H; [discriminate|].
  destruct (last_index_of c r) as [n|] eqn:E.
  - injection H as <-. destruct (IH n eq_refl) as (a & b & -> & Ha & Hb).
    exists (d :: a), b. simpl. rewrite Ha. tauto.
  - destruct (Z.eqb_spec d c) as [->|_]; [|discriminate].
    injection H as <-. exists [], r. simpl. split; [reflexivity|].
    split; [reflexivity|]. now apply last_index_of_none.
Qed.

Lemma takewhile_app_all p a b :
  Forall (fun c => p c = true) a -> takewhile p (a ++ b) = a ++ takewhile p b.
Proof.
  induction 1 as [|c a Hc _ IH]; [reflexivity|]. simpl. now rewrite Hc, IH.
Qed.

(** When the white space at the head of [r] is [a ++ 10 :: b], the rest
    of [r] after [a] and the newline begins with the white space [b]. *)
Lemma takewhile_split_at p r a x b :
  takewhile p r = a ++ x :: b ->
  exists r', r = a ++ x :: r' /\ takewhile p r' = b
             /\ skipn (S (length a)) r = r'.
Proof.
  revert r. induction a as [|y a IH]; intros r H.
  - destruct r as [|c r]; [discriminate|]. simpl in H.
    destruct (p c); [|discriminate]. injection H as -> <-.
    exists r. repeat split; reflexivity.
  - destruct r as [|c r]; [discriminate|]. simpl in H.
    destruct (p c); [|discriminate]. injection H as -> H.
    destruct (IH r H) as (r' & -> & Hb & Hs). exists r'.
    repeat split; assumption.
Qed.

Lemma sub_go_skipn m k s : sub_go m k s = sub_go m O (skipn k s).
Proof.
  revert k. induction s as [|c r IH]; intros [|k]; try reflexivity.
  simpl sub_go at 1. simpl skipn. apply IH.
Qed.

Lemma NL_cons c r :
  NL (c :: r)
  = if c =? 10 then
      match last_index_of 10 (takewhile isspace r) with
      | Some j => Some (S (S j), [10; 10])
      | None => None
      end
    else None.
Proof.
  unfold NL, const_repl, m_newlines. destruct (c =? 10); [|reflexivity].
  destruct (last_index_of 10 (takewhile isspace r)) as [j|]; [|reflexivity].
  do 2 f_equal. lia.
Qed.

Lemma sub_newlines_step c r :
  sub_go NL O (c :: r)
  = if c =? 10 then
      match last_index_of 10 (takewhile isspace r) with
      | Some j => 10 :: 10 :: sub_go NL (S j) r
      | None => c :: sub_go NL O r
      end
    else c :: sub_go NL O r.
Proof.
  rewrite sub_go_cons, NL_cons. destruct (c =? 10); [|reflexivity].
  destruct (last_index_of 10 (takewhile isspace r)); reflexivity.
Qed.

Lemma sub_newlines_head r :
  match sub_go NL O r with
  | d :: _ => d = 10 \/ exists r', r = d :: r'
  | [] => True
  end.
Proof.
  destruct r as [|x r']; [exact I|]. rewrite sub_newlines_step.
  destruct (x =? 10); [|right; eauto].
  destruct (last_index_of 10 (takewhile isspace r')); [now left | right; eauto].
Qed.

Lemma tidy_sub_newlines s k : tidy s -> tidy (sub_go NL k s).
Proof.
  revert k. induction s as [|c r IH]; intros k; [intros _; exact I|].
  intros (H9 & Hn & Ht). destruct k as [|k]; [|exact (IH k Ht)].
  assert (Hkeep : tidy (c :: sub_go NL O r)).
  { simpl. split; [exact H9|]. split; [|exact (IH O Ht)].
    intros E. specialize (Hn E). pose proof (sub_newlines_head r) as Hh.
    destruct (sub_go NL O r) as [|d o]; [exact I|].
    destruct Hh as [->|(r' & ->)]; [discriminate | exact Hn]. }
  rewrite sub_newlines_step. destruct (c =? 10); [|exact Hkeep].
  destruct (last_index_of 10 (takewhile isspace r)) as [j|]; [|exact Hkeep].
  simpl. repeat split; try discriminate. exact (IH (S j) Ht).
Qed.

Lemma takewhile_cons_length p c r n :
  (S n <= length (takewhile p (c :: r)))%nat ->
  p c = true /\ (n <= length (takewhile p r))%nat.
Proof.
  simpl. destruct (p c); simpl; [lia | lia].
Qed.

Lemma gentle_sub_newlines s k :
  (k <= length (takewhile isspace s))%nat -> gentle s (sub_go NL k s).
Proof.
  revert k. induction s as [|c r IH]; intros k Hk; [destruct k; constructor|].
  destruct k as [|k].
  - rewrite sub_newlines_step.
    destruct (Z.eqb_spec c 10) as [->|_];
      [|apply gentle_keep, IH; lia].
    destruct (last_index_of 10 (takewhile isspace r)) as [j|] eqn:E;
      [|apply gentle_keep, IH; lia].
    apply (gentle_change 10 [10; 10]); [reflexivity | repeat constructor|].
    apply IH. apply last_index_of_some in E.
    destruct E as (a & b & -> & <- & _). rewrite length_app. simpl. lia.
  - apply takewhile_cons_length in Hk. destruct Hk as [Hc Hk].
    simpl sub_go. apply gentle_drop; [now apply isspace_touchable|].
    now apply IH.
Qed.

Lemma takewhile_sub_newlines s :
  ~ In 10 (takewhile isspace s) ->
  takewhile isspace (sub_go NL O s) = takewhile isspace s.
Proof.
  induction s as [|c r IH]; [reflexivity|]. intros Hn.
  rewrite sub_newlines_step. cbn [takewhile] in Hn.
  destruct (isspace c) eqn:Ec.
  - destruct (Z.eqb_spec c 10) as [->|_]; [exfalso; apply Hn; now left|].
    cbn [takewhile]. rewrite Ec. f_equal. apply IH. intros H. apply Hn.
    now right.
  - destruct (Z.eqb_spec c 10) as [->|_]; [discriminate|].
    cbn [takewhile]. now rewrite Ec.
Qed.

Lemma not_in_tl (c : Z) s : ~ In c s -> ~ In c (tl s).
Proof. destruct s; simpl; tauto. Qed.

(** What [_multi_newline_pattern] leaves behind. *)
Lemma blocks_ok_sub_newlines s k : blocks_ok (sub_go NL k s).
Proof.
  revert k. induction s as [|c r IH]; intros k; [destruct k; exact I|].
  destruct k as [|k]; [|apply IH].
  rewrite sub_newlines_step.
  assert (Hkeep : last_index_of 10 (takewhile isspace r) = None \/ c <> 10 ->
                  blocks_ok (c :: sub_go NL O r)).
  { intros H. simpl. split; [|apply IH]. intros ->.
    destruct H as [H|H]; [|contradiction].
    apply last_index_of_none in H. rewrite takewhile_sub_newlines by exact H.
    now apply not_in_tl. }
  destruct (Z.eqb_spec c 10) as [->|Hc]; [|apply Hkeep; now right].
  destruct (last_index_of 10 (takewhile isspace r)) as [j|] eqn:E;
    [|apply Hkeep; now left].
  apply last_index_of_some in E. destruct E as (a & b & E & <- & Hb).
  destruct (takewhile_split_at _ _ _ _ _ E) as (r' & _ & Hr' & Hs).
  assert (Ho : takewhile isspace (sub_go NL (S (length a)) r) = b).
  { rewrite sub_go_skipn, Hs, takewhile_sub_newlines; rewrite Hr'; tauto. }
  simpl. rewrite Ho. repeat split.
  - intros _. exact Hb.
  - intros _. now apply not_in_tl.
  - apply IH.
Qed.

(** Where it matches only two newlines, the pattern changes nothing. *)
Lemma sub_newlines_blocks_ok s : blocks_ok s -> sub_go NL O s = s.
Proof.
  induction s as [|c r IH]; [reflexivity|]. intros [Hc Hr].
  specialize (IH Hr). rewrite sub_newlines_step.
  destruct (Z.eqb_spec c 10) as [->|_]; [|now rewrite IH].
  destruct (last_index_of 10 (takewhile isspace r)) as [j|] eqn:E;
    [|now rewrite IH].
  specialize (Hc eq_refl).
  apply last_index_of_some in E. destruct E as (a & b & E & <- & Hb).
  destruct a as [|x a].
  - destruct (takewhile_split_at _ _ [] _ _ E) as (r' & -> & Hr' & _).
    simpl app in *. simpl sub_go. f_equal.
    rewrite sub_newlines_step in IH. simpl in IH.
    rewrite Hr' in IH.
    assert (En : last_index_of 10 b = None) by now apply last_index_of_none.
    rewrite En in IH. exact IH.
  - exfalso. apply Hc. rewrite E. simpl. apply in_or_app. right. now left.
Qed.

Lemma is_prefix_spec p s : is_prefix p s = true <-> exists r, s = p ++ r.
Proof.
  revert s. induction p as [|a p IH]; intros s; simpl.
  - split; [eauto | reflexivity].
  - destruct s as [|b s]; [split; [discriminate | intros (r & H); discriminate]|].
    rewrite andb_true_iff, Z.eqb_eq, IH. split.
    + intros (-> & r & ->). eauto.
    + intros (r & H). injection H as -> ->. eauto.
Qed.

Lemma blocks_ok_no_triple s : blocks_ok s -> no_triple s.
Proof.
  induction s as [|c r IH]; [tauto|]. intros [Hc Hr].
  split; [|exact (IH Hr)].
  destruct (is_prefix [10; 10; 10] (c :: r)) eqn:E; [|reflexivity].
  exfalso. apply is_prefix_spec in E. destruct E as (r' & E).
  injection E as -> ->. apply (Hc eq_refl). simpl. now left.
Qed.

Lemma lines_ok_blocks_ok s b : lines_ok b s -> no_triple s -> blocks_ok s.
Proof.
  revert b. induction s as [|c r IH]; intros b Hl Hn; [exact I|].
  destruct Hn as [Hp Hn]. split.
  - intros ->. simpl in Hl.
    destruct r as [|x r1]; [tauto|]. simpl takewhile.
    destruct (Z.eqb_spec x 10) as [->|Hx].
    + simpl. simpl in Hl. destruct r1 as [|y r2]; [tauto|].
      destruct (Z.eqb_spec y 10) as [->|Hy]; [discriminate|].
      simpl in Hl. destruct (Z.eqb_spec y 10); [contradiction|].
      destruct Hl as (Hy' & _). simpl. rewrite (Hy' eq_refl). tauto.
    + simpl in Hl. destruct (Z.eqb_spec x 10); [contradiction|].
      destruct Hl as (Hx' & _). rewrite (Hx' eq_refl). tauto.
  - simpl in Hl. destruct (c =? 10); [exact (IH true Hl Hn)|].
    destruct Hl as (_ & _ & Hl). exact (IH false Hl Hn).
Qed.

(** ** Stripping the lines *)

Lemma thin_refl s : thin s s.
Proof. induction s; constructor; assumption. Qed.

Lemma thin_app a a' b b' : thin a a' -> thin b b' -> thin (a ++ b) (a' ++ b').
Proof.
  induction 1; intros Hb; simpl; [exact Hb | constructor; auto |].
  apply thin_drop; auto.
Qed.

Lemma thin_drop_all a :
  Forall (fun c => isspace c = true) a -> ~ In 10 a -> thin a [].
Proof.
  induction 1 as [|c a Hc _ IH]; intros Hn; [constructor|].
  apply thin_drop; [exact Hc | | apply IH]; intros H; apply Hn;
    [now left | now right].
Qed.

Lemma thin_strip l : ~ In 10 l -> thin l (strip l).
Proof.
  intros Hn. destruct (strip_parts l) as (a & b & E & Ha & Hb).
  assert (Hna : ~ In 10 a)
    by (intros H; apply Hn; rewrite E; apply in_or_app; now left).
  assert (Hnb : ~ In 10 b)
    by (intros H; apply Hn; rewrite E; apply in_or_app; right;
        apply in_or_app; now right).
  rewrite E at 1. change (strip l) with ([] ++ strip l) at 2.
  apply thin_app; [now apply thin_drop_all|].
  rewrite <- (app_nil_r (strip l)) at 2.
  apply thin_app; [apply thin_refl | now apply thin_drop_all].
Qed.

Lemma thin_join ls :
  Forall (fun l => ~ In 10 l) ls -> thin (join 10 ls) (join 10 (map strip ls)).
Proof.
  induction 1 as [|p ls Hp Hls IH]; [constructor|].
  destruct ls as [|q ls]; [now apply thin_strip|].
  simpl map in *. rewrite !join_cons.
  apply thin_app; [now apply thin_strip|]. apply thin_keep. exact IH.
Qed.

Lemma thin_strip_lines s : thin s (join 10 (map strip (split 10 s))).
Proof.
  rewrite <- (join_split 10 s) at 1. apply thin_join, split_no_sep.
Qed.

Lemma thin_gentle s s' : thin s s' -> gentle s s'.
Proof.
  induction 1; [constructor | now constructor |].
  apply gentle_drop; [now apply isspace_touchable | assumption].
Qed.

Lemma in_thin s s' c : thin s s' -> In c s' -> In c s.
Proof.
  induction 1 as [|d s s' _ IH|d s s' _ _ _ IH]; simpl; [tauto | |].
  - intros [Hc|Hc]; [now left | right; auto].
  - intros Hc. right. auto.
Qed.

Lemma thin_takewhile s s' :
  thin s s' -> thin (takewhile isspace s) (takewhile isspace s').
Proof.
  induction 1 as [|c s s' _ IH|c s s' Hc Hn _ IH]; simpl.
  - constructor.
  - destruct (isspace c); [now constructor | constructor].
  - rewrite Hc. now apply thin_drop.
Qed.

Lemma thin_tl_no_newline R R' :
  thin R R' -> ~ In 10 (tl R) -> ~ In 10 (tl R').
Proof.
  intros H Hn. inversion H as [|c s s' Hs|c s s' Hc Hc10 Hs]; subst; simpl in *.
  - tauto.
  - intros Hin. apply Hn. exact (in_thin _ _ _ Hs Hin).
  - apply not_in_tl. intros Hin. apply Hn. exact (in_thin _ _ _ Hs Hin).
Qed.

Lemma blocks_ok_thin s s' : thin s s' -> blocks_ok s -> blocks_ok s'.
Proof.
  induction 1 as [|c s s' Hs IH|c s s' Hc Hn Hs IH]; simpl.
  - tauto.
  - intros [Hh Ht]. split; [|exact (IH Ht)]. intros E.
    apply (thin_tl_no_newline (takewhile isspace s)); [|exact (Hh E)].
    now apply thin_takewhile.
  - intros [_ Ht]. exact (IH Ht).
Qed.

(** A stripped line, followed by what follows a line. *)
Lemma lines_ok_line l b rest :
  ~ In 10 l ->
  match l with c :: _ => b = true -> isspace c = false | [] => True end ->
  (l <> [] -> isspace (last l 0) = false) ->
  match rest with [] => True | d :: r => d = 10 /\ lines_ok true r end ->
  lines_ok b (l ++ rest).
Proof.
  revert b. induction l as [|c l IH]; intros b Hn Hh Hl Hr.
  - destruct rest as [|d r]; [exact I|]. destruct Hr as [-> Hr]. exact Hr.
  - assert (Hc : c <> 10) by (intros ->; apply Hn; now left).
    simpl. destruct (Z.eqb_spec c 10); [contradiction|].
    split; [exact Hh|]. split.
    + intros Hws. destruct l as [|x l'].
      * simpl in Hl. rewrite Hl in Hws by discriminate. discriminate.
      * simpl. intros ->. apply Hn. right. now left.
    + apply IH.
      * intros H. apply Hn. now right.
      * destruct l; [exact I | discriminate].
      * intros Hne. specialize (Hl ltac:(discriminate)).
        change (c :: l) with ([c] ++ l) in Hl.
        now rewrite last_app_nonempty in Hl.
      * exact Hr.
Qed.

Lemma trimmed_ends l :
  trimmed l ->
  match l with c :: _ => true = true -> isspace c = false | [] => True end
  /\ (l <> [] -> isspace (last l 0) = false).
Proof.
  destruct l as [|c l]; [split; [exact I | congruence]|].
  intros [H1 H2]. split; [intros _; exact H1 | intros _; exact H2].
Qed.

Lemma lines_ok_join ls :
  Forall trimmed ls -> Forall (fun l => ~ In 10 l) ls ->
  lines_ok true (join 10 ls).
Proof.
  induction 1 as [|p ls Hp Hls IH]; intros Hn; [exact I|].
  inversion Hn as [|? ? Hp10 Hls10]; subst.
  destruct (trimmed_ends p Hp) as [Hh Hl].
  destruct ls as [|q ls].
  - simpl. rewrite <- (app_nil_r p). now apply lines_ok_line.
  - rewrite join_cons. apply lines_ok_line; try assumption.
    split; [reflexivity | exact (IH Hls10)].
Qed.

(** The lines of a text whose lines are stripped. *)
Lemma lines_ok_split s b :
  lines_ok b s ->
  match split 10 s with
  | h :: t =>
      match h with
      | c :: _ => (b = true -> isspace c = false) /\ isspace (last h 0) = false
      | [] => True
      end
      /\ Forall trimmed t
  | [] => False
  end.
Proof.
  revert b. induction s as [|c r IH]; intros b Hl.
  - simpl. split; [exact I | constructor].
  - simpl in Hl. destruct (Z.eqb_spec c 10) as [->|Hc].
    + simpl. specialize (IH true Hl).
      destruct (split 10 r) as [|h t]; [contradiction|].
      destruct IH as [Hh Ht]. split; [exact I|]. constructor; [|exact Ht].
      destruct h as [|x h']; [exact I|]. destruct Hh as [Hx Hlast].
      split; [exact (Hx eq_refl) | exact Hlast].
    + destruct Hl as (Hstart & Hws & Hl). specialize (IH false Hl).
      simpl. destruct (Z.eqb_spec c 10); [contradiction|].
      destruct (split 10 r) as [|h t] eqn:E; [contradiction|].
      destruct IH as [Hh Ht]. split; [|exact Ht]. split; [exact Hstart|].
      destruct h as [|x h'].
      * simpl. destruct (isspace c) eqn:Ec; [|reflexivity]. exfalso.
        specialize (Hws eq_refl). destruct r as [|d r']; [contradiction|].
        destruct (split_head d r' Hws) as (h0 & t0 & E0).
        rewrite E0 in E. discriminate.
      * change (c :: x :: h') with ([c] ++ x :: h').
        rewrite last_app_nonempty by discriminate. apply Hh.
Qed.

Lemma lines_ok_trimmed s : lines_ok true s -> Forall trimmed (split 10 s).
Proof.
  intros H. apply lines_ok_split in H.
  destruct (split 10 s) as [|h t]; [contradiction|].
  destruct H as [Hh Ht]. constructor; [|exact Ht].
  destruct h as [|c h']; [exact I|]. destruct Hh as [H1 H2].
  split; [exact (H1 eq_refl) | exact H2].
Qed.

Lemma strip_lines_fixed s :
  lines_ok true s -> join 10 (map strip (split 10 s)) = s.
Proof.
  intros H. apply lines_ok_trimmed in H.
  rewrite <- (join_split 10 s) at 2. f_equal.
  rewrite <- (map_id (split 10 s)) at 2. apply map_ext_in.
  intros l Hl. apply trimmed_strip. rewrite Forall_forall in H. now apply H.
Qed.

(** ** Paragraphs *)

Lemma normalize_lines_eq s :
  normalize_lines s
  = join 10 (map strip (split 10 (sub_go NL O (squeeze false s)))).
Proof. unfold normalize_lines. now rewrite re_sub_spaces. Qed.

Lemma paragraphs_normalize_lines s : paragraphs (normalize_lines s).
Proof.
  rewrite normalize_lines_eq. set (w := sub_go NL O (squeeze false s)).
  split; [|split].
  - apply tidy_join. apply Forall_map.
    eapply Forall_impl; [|apply tidy_split, tidy_sub_newlines, tidy_squeeze].
    intros l. apply tidy_strip.
  - apply lines_ok_join; apply Forall_map.
    + apply Forall_forall. intros l _. apply strip_trimmed.
    + eapply Forall_impl; [|apply (split_no_sep 10 w)].
      intros l Hl Hin. apply Hl. exact (in_strip _ _ Hin).
  - apply blocks_ok_no_triple.
    apply (blocks_ok_thin w); [apply thin_strip_lines|].
    apply blocks_ok_sub_newlines.
Qed.

Lemma normalize_lines_paragraphs s : paragraphs s -> normalize_lines s = s.
Proof.
  intros (Ht & Hl & Hn). rewrite normalize_lines_eq.
  rewrite squeeze_tidy by exact Ht.
  rewrite sub_newlines_blocks_ok by exact (lines_ok_blocks_ok _ _ Hl Hn).
  now apply strip_lines_fixed.
Qed.

Lemma carries_normalize_lines : carries normalize_lines.
Proof.
  apply (carries_ext _ _ (fun s => eq_sym (normalize_lines_eq s))).
  apply (carries_comp (fun s => sub_go NL O (squeeze false s))
                      (fun w => join 10 (map strip (split 10 w)))).
  - apply (carries_comp (squeeze false) (sub_go NL O)); apply carries_gentle.
    + apply gentle_squeeze.
    + intros s. apply gentle_sub_newlines. lia.
  - apply carries_gentle. intros s. apply thin_gentle, thin_strip_lines.
Qed.

Lemma reserved_newline c : reserved c = false -> c <> 10 /\ isspace c = false.
Proof.
  intros H. split; [intros ->; discriminate|].
  now apply not_reserved_not_space.
Qed.

Lemma lines_ok_app_plain xs s :
  Forall (fun x => reserved x = false) xs ->
  lines_ok false s -> lines_ok false (xs ++ s).
Proof.
  induction 1 as [|x xs Hx _ IH]; intros Hs; [exact Hs|].
  apply reserved_newline in Hx. destruct Hx as [Hx Hws].
  simpl. destruct (Z.eqb_spec x 10); [contradiction|].
  split; [discriminate|]. split; [|exact (IH Hs)].
  rewrite Hws. discriminate.
Qed.

Lemma lines_ok_respell s s' b : respell s s' -> lines_ok b s -> lines_ok b s'.
Proof.
  intros Hr. revert b.
  induction Hr as [|c s s' Hr IH|c d ds s s' Hc Hds Hr IH]; intros b;
    [tauto| |].
  - simpl. destruct (c =? 10); [apply IH|].
    intros (Hstart & Hws & Hl). split; [exact Hstart|].
    split; [|exact (IH false Hl)]. intros E. specialize (Hws E).
    destruct s as [|x u]; [contradiction|].
    inversion Hr as [|? ? ? ?|? y ys ? ? ? Hys ?]; subst; [exact Hws|].
    simpl. inversion Hys; subst. now apply reserved_newline.
  - apply reserved_newline in Hc. destruct Hc as [Hc Hws].
    simpl lines_ok at 1. destruct (Z.eqb_spec c 10); [contradiction|].
    intros (_ & _ & Hl). specialize (IH false Hl).
    inversion Hds as [|? ? Hd Hds']; subst.
    apply reserved_newline in Hd. destruct Hd as [Hd Hdws].
    simpl. destruct (Z.eqb_spec d 10); [contradiction|].
    split; [intros _; exact Hdws|]. split; [rewrite Hdws; discriminate|].
    now apply lines_ok_app_plain.
Qed.

Lemma lines_ok_suffix a s b : lines_ok b (a ++ s) -> exists b', lines_ok b' s.
Proof.
  revert b. induction a as [|c a IH]; intros b H; [eauto|].
  simpl in H. destruct (c =? 10); [exact (IH true H)|].
  destruct H as (_ & _ & H). exact (IH false H).
Qed.

Lemma lines_ok_start s b :
  lines_ok b s ->
  match s with c :: _ => isspace c = false | [] => True end ->
  lines_ok true s.
Proof.
  destruct s as [|c r]; [tauto|]. simpl. intros H Hc.
  destruct (Z.eqb_spec c 10) as [->|_]; [discriminate|].
  destruct H as (_ & H). split; [intros _; exact Hc | exact H].
Qed.

Lemma lines_ok_prefix s rest b :
  lines_ok b (s ++ rest) ->
  (s <> [] -> isspace (last s 0) = false) ->
  lines_ok b s.
Proof.
  revert b. induction s as [|c s IH]; intros b H Hl; [exact I|].
  assert (Hl' : s <> [] -> isspace (last s 0) = false).
  { intros Hne. specialize (Hl ltac:(discriminate)).
    change (c :: s) with ([c] ++ s) in Hl.
    now rewrite last_app_nonempty in Hl. }
  simpl in *. destruct (c =? 10); [exact (IH true H Hl')|].
  destruct H as (Hstart & Hws & H). split; [exact Hstart|].
  split; [|exact (IH false H Hl')]. intros E. specialize (Hws E).
  destruct s as [|x s']; [|exact Hws].
  specialize (Hl ltac:(discriminate)). simpl in Hl. congruence.
Qed.

Lemma lines_ok_strip s : lines_ok true s -> lines_ok true (strip s).
Proof.
  intros H. destruct (strip_parts s) as (a & b & E & _).
  pose proof (strip_trimmed s) as Ht. rewrite E in H.
  apply lines_ok_suffix in H. destruct H as (b' & H).
  apply lines_ok_prefix in H.
  - apply (lines_ok_start _ b' H). destruct (strip s); [exact I | apply Ht].
  - intros Hne. destruct (strip s); [contradiction | apply Ht].
Qed.

Lemma lines_ok_dots b : lines_ok b dots.
Proof. repeat split; discriminate. Qed.

Lemma lines_ok_cut_prefix kept rest b :
  lines_ok b (kept ++ rest) -> lines_ok b (kept ++ dots).
Proof.
  revert b. induction kept as [|c k IH]; intros b H; [apply lines_ok_dots|].
  simpl in *. destruct (c =? 10); [exact (IH true H)|].
  destruct H as (Hstart & Hws & H). split; [exact Hstart|].
  split; [|exact (IH false H)]. intros E. specialize (Hws E).
  destruct k as [|x k']; [discriminate | exact Hws].
Qed.

Lemma no_triple_app_plain xs s :
  Forall (fun x => reserved x = false) xs -> no_triple s -> no_triple (xs ++ s).
Proof.
  induction 1 as [|x xs Hx _ IH]; intros Hs; [exact Hs|].
  simpl app. split; [|exact (IH Hs)].
  destruct (is_prefix [10; 10; 10] (x :: xs ++ s)) eqn:E; [|reflexivity].
  apply is_prefix_spec in E. destruct E as (r & E). injection E as -> _.
  discriminate.
Qed.

Lemma respell_head s x s1' :
  respell s (x :: s1') -> reserved x = true ->
  exists s1, s = x :: s1 /\ respell s1 s1'.
Proof.
  intros H Hx. inversion H as [|c u u' Hu|c d ds u u' Hc Hds Hu]; subst.
  - eauto.
  - inversion Hds; subst. congruence.
Qed.

Lemma no_triple_respell s s' : respell s s' -> no_triple s -> no_triple s'.
Proof.
  induction 1 as [|c s s' Hr IH|c d ds s s' Hc Hds Hr IH]; [tauto| |].
  - intros [Hp Hn]. split; [|exact (IH Hn)].
    destruct (is_prefix [10; 10; 10] (c :: s')) eqn:E; [|reflexivity].
    apply is_prefix_spec in E. destruct E as (r & E). injection E as -> ->.
    apply respell_head in Hr; [|reflexivity]. destruct Hr as (s1 & -> & Hr).
    apply respell_head in Hr; [|reflexivity]. destruct Hr as (s2 & -> & _).
    discriminate.
  - intros [_ Hn]. apply (no_triple_app_plain (d :: ds)); [exact Hds|].
    exact (IH Hn).
Qed.

Lemma no_triple_app_inv a b : no_triple (a ++ b) -> no_triple a /\ no_triple b.
Proof.
  induction a as [|c a IH]; [intros H; split; [exact I | exact H]|].
  intros [Hp Hn]. destruct (IH Hn) as [Ha Hb]. split; [|exact Hb].
  split; [|exact Ha].
  destruct (is_prefix [10; 10; 10] (c :: a)) eqn:E; [|reflexivity].
  apply is_prefix_spec in E. destruct E as (r & E).
  assert (Hp' : is_prefix [10; 10; 10] ((c :: a) ++ b) = true).
  { apply is_prefix_spec. exists (r ++ b). rewrite E. now rewrite <- app_assoc. }
  simpl app in Hp'. congruence.
Qed.

Lemma no_triple_strip s : no_triple s -> no_triple (strip s).
Proof.
  intros H. destruct (strip_parts s) as (a & b & E & _).
  rewrite E in H. apply no_triple_app_inv in H. destruct H as [_ H].
  apply no_triple_app_inv in H. tauto.
Qed.

Lemma no_triple_cut_prefix kept rest :
  no_triple (kept ++ rest) -> no_triple (kept ++ dots).
Proof.
  induction kept as [|c k IH]; [intros _; repeat split|].
  intros [Hp Hn]. split; [|exact (IH Hn)].
  destruct (is_prefix [10; 10; 10] ((c :: k) ++ dots)) eqn:E; [|exact E].
  apply is_prefix_spec in E. destruct E as (r & E).
  destruct k as [|x [|y k']]; try discriminate.
  injection E as -> -> -> _. discriminate.
Qed.

Lemma paragraphs_respell s s' : respell s s' -> paragraphs s -> paragraphs s'.
Proof.
  intros Hr (Ht & Hl & Hn). split; [|split].
  - exact (tidy_respell _ _ Hr Ht).
  - exact (lines_ok_respell _ _ _ Hr Hl).
  - exact (no_triple_respell _ _ Hr Hn).
Qed.

Lemma paragraphs_strip s : paragraphs s -> paragraphs (strip s).
Proof.
  intros (Ht & Hl & Hn). split; [|split].
  - now apply tidy_strip.
  - now apply lines_ok_strip.
  - now apply no_triple_strip.
Qed.

Lemma paragraphs_cut self s : paragraphs s -> paragraphs (cut self s).
Proof.
  intros (Ht & Hl & Hn). split; [now apply tidy_cut|].
  destruct (cut_cases self s) as [->|(kept & rest & E & ->)]; [tauto|].
  rewrite E in Hl, Hn. split.
  - exact (lines_ok_cut_prefix _ _ _ Hl).
  - exact (no_triple_cut_prefix _ _ Hn).
Qed.

(** ** The stages in a row *)

Lemma chars_settled_carries f self t :
  carries f -> chars_settled self t -> chars_settled self (f t).
Proof.
  intros Hf (H1 & H2 & H3 & H4 & H5). destruct (Hf t) as [Ht Hl].
  unfold is_table in Hl. repeat split; intros E; auto 8.
Qed.

Lemma carries_extra self :
  carries (fun text => match extra_remove self with
                       | (_ :: _) as extra => delete_chars extra text
                       | [] => text
                       end).
Proof.
  destruct (extra_remove self); [apply carries_id | apply carries_delete_chars].
Qed.

Lemma table_quotes : is_table QUOTES.
Proof. now left. Qed.
Lemma table_dashes : is_table dash_keys.
Proof. right. now left. Qed.
Lemma table_spaces : is_table SPECIAL_SPACES.
Proof. right. right. now left. Qed.
Lemma table_invisible : is_table INVISIBLE_CHARS.
Proof. right. right. now right. Qed.

(** Stages 2 to 7 leave what the stages that are on promise. *)
Lemma chars_settled_tags_to_extra self s1 :
  chars_settled self (tags_to_extra self s1).
Proof.
  unfold tags_to_extra.
  set (f3 := fun x => if remove_invisible self
                      then delete_chars INVISIBLE_CHARS x else x).
  set (f4 := fun x => if normalize_spaces self
                      then chars_to_space SPECIAL_SPACES x else x).
  set (f5 := fun x => if normalize_dashes self
                      then replace_items DASHES x else x).
  set (f6 := fun x => if remove_quotes self
                      then chars_to_space QUOTES x else x).
  set (f7 := fun x => match extra_remove self with
                      | (_ :: _) as extra => delete_chars extra x
                      | [] => x
                      end).
  set (s2 := if remove_html_tags self then strip_tags s1 else s1).
  change (chars_settled self (f7 (f6 (f5 (f4 (f3 s2)))))).
  assert (C3 : carries f3) by apply carries_if, carries_delete_chars.
  assert (C4 : carries f4)
    by apply carries_if, carries_chars_to_space, table_spaces.
  assert (C5 : carries f5) by apply carries_if, carries_dashes.
  assert (C6 : carries f6)
    by apply carries_if, carries_chars_to_space, table_quotes.
  assert (C7 : carries f7) by apply carries_extra.
  repeat split; intros E.
  - apply C7, C6, C5, C4, C3. subst s2. rewrite E. apply tagfree_strip_tags.
  - apply C7; [apply table_invisible|]. apply C6; [apply table_invisible|].
    apply C5; [apply table_invisible|]. apply C4; [apply table_invisible|].
    subst f3. cbv beta. rewrite E. apply lacks_delete_chars.
  - apply C7; [apply table_spaces|]. apply C6; [apply table_spaces|].
    apply C5; [apply table_spaces|].
    subst f4. cbv beta. rewrite E. now apply lacks_chars_to_space.
  - apply C7; [apply table_dashes|]. apply C6; [apply table_dashes|].
    subst f5. cbv beta. rewrite E. apply lacks_dashes.
  - apply C7; [apply table_quotes|].
    subst f6. cbv beta. rewrite E. now apply lacks_chars_to_space.
Qed.

(** On text that is settled and at rest, stages 1 to 7 change nothing. *)
Lemma before_filter_settled L self t :
  chars_settled self t ->
  (decode_html_entities self = true -> decode_entities L t = Ret t) ->
  delete_chars (extra_remove self) t = t ->
  before_filter L self t = Ret t.
Proof.
  intros (H2 & H3 & H4 & H5 & H6) H1 H7. unfold before_filter.
  assert (E1 : (if decode_html_entities self then decode_entities L t
                else Ret t) = Ret t)
    by (destruct (decode_html_entities self); [now apply H1 | reflexivity]).
  rewrite E1. cbn [bind]. f_equal. unfold tags_to_extra.
  (destruct (remove_html_tags self);
     [rewrite strip_tags_tagfree by now apply H2|]);
    (destruct (remove_invisible self);
     [rewrite (delete_chars_none INVISIBLE_CHARS t) by now apply H3|]);
    (destruct (normalize_spaces self);
     [rewrite (chars_to_space_lacks SPECIAL_SPACES t) by now apply H4|]);
    (destruct (normalize_dashes self);
     [rewrite (dashes_lacks t) by now apply H5|]);
    (destruct (remove_quotes self);
     [rewrite (chars_to_space_lacks QUOTES t) by now apply H6|]);
    (destruct (extra_remove self); [reflexivity | exact H7]).
Qed.

Lemma filter_allowed_class L self t x :
  allowed_keeps L self t ->
  exists f, filter_allowed L self x = Ret (f x) /\ carries f /\ f t = t.
Proof.
  unfold allowed_keeps, filter_allowed.
  destruct (allowed_chars self) as [[|a frag]|].
  - intros _. exists (fun s => s).
    split; [reflexivity | split; [apply carries_id | reflexivity]].
  - intros (keep & -> & Hk). exists (filter keep).
    split; [reflexivity|]. split; [apply carries_filter | exact Hk].
  - intros _. exists (fun s => s).
    split; [reflexivity | split; [apply carries_id | reflexivity]].
Qed.

Lemma lower_fixed_dot L : lower_keeps_reserved L -> lower_fixed L 46.
Proof. intros (H & _). split; [now apply H | discriminate]. Qed.

(** Stages 9 to 11 and truncation leave the rest of what settled text
    is. *)
Lemma settled_after_filter L self x :
  (lowercase self = true -> lower_is_plain L) ->
  chars_settled self x ->
  settled L self (cut self (after_filter L self x)).
Proof.
  intros HL Hx. unfold after_filter.
  set (f9 := fun s => if preserve_newlines self then normalize_lines s
                      else single_line s).
  set (f10 := fun s => if lowercase self then lower L s else s).
  change (settled L self (cut self (strip (f10 (f9 x))))).
  assert (C9 : carries f9)
    by (subst f9; destruct (preserve_newlines self);
        [apply carries_normalize_lines | apply carries_single_line]).
  assert (R10 : forall s, respell s (f10 s)).
  { intros s. subst f10. cbv beta. destruct (lowercase self) eqn:E.
    - apply respell_lower, HL, eq_refl.
    - clear. induction s; constructor; assumption. }
  assert (C10 : carries f10)
    by (apply carries_gentle; intros s; apply respell_gentle, R10).
  split; [|split; [|split]].
  - apply chars_settled_carries; [apply carries_cut|].
    apply chars_settled_carries;
      [apply carries_gentle; exact gentle_strip|].
    apply chars_settled_carries; [exact C10|].
    now apply chars_settled_carries.
  - subst f9. cbv beta. destruct (preserve_newlines self).
    + apply paragraphs_cut, paragraphs_strip.
      apply (paragraphs_respell _ _ (R10 _)), paragraphs_normalize_lines.
    + apply one_line_cut, one_line_strip.
      apply (one_line_respell _ _ (R10 _)), one_line_single_line.
  - intros E c Hc. destruct (HL E) as [Hst Hkr].
    apply in_cut in Hc. destruct Hc as [Hc| ->]; [|now apply lower_fixed_dot].
    apply in_strip in Hc. subst f10. cbv beta in Hc. rewrite E in Hc.
    exact (lower_chars_fixed L _ Hst c Hc).
  - apply trimmed_cut, strip_trimmed.
Qed.

(** On settled text stages 9 to 11 change nothing. *)
Lemma after_filter_settled L self t :
  settled L self t -> after_filter L self t = t.
Proof.
  intros (_ & Hw & Hl & Ht). unfold after_filter.
  assert (E9 : (if preserve_newlines self then normalize_lines t
                else single_line t) = t).
  { destruct (preserve_newlines self);
      [now apply normalize_lines_paragraphs | now apply single_line_one_line]. }
  rewrite E9.
  assert (E10 : (if lowercase self then lower L t else t) = t).
  { destruct (lowercase self); [|reflexivity].
    apply lower_of_fixed. now apply Hl. }
  rewrite E10. now apply trimmed_strip.
Qed.

(** What [clean] returns is settled. *)
Lemma settled_pipeline L self s t :
  (lowercase self = true -> lower_is_plain L) ->
  allowed_keeps L self t ->
  pipeline L self s = Ret t ->
  settled L self t.
Proof.
  intros HL Ha Hp. apply pipeline_ret in Hp.
  destruct Hp as (v & u & Hv & Hu & Ht).
  destruct (filter_allowed_class L self t v Ha) as (f & Ef & Cf & _).
  rewrite Ef in Hu. injection Hu as <-. rewrite Ht.
  apply settled_after_filter; [exact HL|].
  apply chars_settled_carries; [exact Cf|].
  unfold before_filter in Hv.
  destruct (if decode_html_entities self then decode_entities L s else Ret s)
    as [s1|e]; cbn [bind] in Hv; [|discriminate].
  injection Hv as <-. apply chars_settled_tags_to_extra.
Qed.

(** Settled text at rest is a fixed point of the stages. *)
Lemma pipeline_settled L self t :
  settled L self t -> at_rest L self t -> pipeline L self t = Ret t.
Proof.
  intros Hs (H1 & H7 & H8 & H12). unfold pipeline.
  rewrite before_filter_settled; [|apply Hs | exact H1 | exact H7].
  cbn [bind].
  destruct (filter_allowed_class L self t t H8) as (f & -> & _ & ->).
  cbn [bind]. now rewrite after_filter_settled, H12.
Qed.

(** ** Cleaning twice *)

Lemma replace_go_absent a old new s :
  ~ In a s -> replace_go (a :: old) new O s = s.
Proof.
  induction s as [|c r IH]; [reflexivity|]. intros Hn. simpl.
  destruct (Z.eqb_spec a c) as [->|_]; [exfalso; apply Hn; now left|].
  simpl. rewrite IH; [reflexivity|]. intros H. apply Hn. now right.
Qed.

Lemma replace_items_absent a table s :
  Forall (fun kv => exists old, fst kv = a :: old) table ->
  ~ In a s -> replace_items table s = s.
Proof.
  intros Ht Hn. unfold replace_items.
  induction Ht as [|[k v] table (old & E) _ IH]; [reflexivity|].
  simpl in *. subst k. unfold replace at 2.
  rewrite replace_go_absent by exact Hn. exact IH.
Qed.

(** Text without an ampersand holds no entity. *)
Lemma decode_entities_no_amp L t :
  mem 38 t = false -> decode_entities L t = Ret t.
Proof.
  intros H. unfold decode_entities. rewrite unescape_no_amp by exact H.
  cbn [bind]. f_equal.
  apply (replace_items_absent 38); [|now apply mem_false].
  unfold HTML_ENTITIES. repeat (constructor; [eexists; reflexivity|]).
  constructor.
Qed.

(** Plain reasons for cleaned text to be at rest: it holds no ampersand,
    no extra character is set, no allowed characters are set, and no
    maximal length is set. *)
Lemma at_rest_plain L self t :
  mem 38 t = false -> extra_remove self = [] -> allowed_chars self = None ->
  max_length self = None ->
  at_rest L self t.
Proof.
  intros H1 H2 H3 H4. unfold at_rest, allowed_keeps, cut.
  rewrite H2, H3, H4. split; [intros _; now apply decode_entities_no_amp|].
  split; [apply delete_chars_none; reflexivity|]. split; [exact I | reflexivity].
Qed.

(** Without entity decoding, extra characters, allowed characters and a
    maximal length, every text is at rest. *)
Lemma at_rest_bare L self t :
  decode_html_entities self = false -> extra_remove self = [] ->
  allowed_chars self = None -> max_length self = None ->
  at_rest L self t.
Proof.
  intros H1 H2 H3 H4. unfold at_rest, allowed_keeps, cut.
  rewrite H1, H2, H3, H4. split; [discriminate|].
  split; [apply delete_chars_none; reflexivity|]. split; [exact I | reflexivity].
Qed.

(** So a cleaner with these four options off is idempotent, whatever its
    other options. *)
Lemma clean_idempotent_bare L self s t :
  (lowercase self = true -> lower_is_plain L) ->
  decode_html_entities self = false -> extra_remove self = [] ->
  allowed_chars self = None -> max_length self = None ->
  clean L self (PyStr s) = Ret t ->
  clean L self (PyStr t) = Ret t.
Proof.
  intros HL H1 H2 H3 H4 Hc.
  pose proof (at_rest_bare L self t H1 H2 H3 H4) as Hr.
  destruct t as [|c r]; [reflexivity|].
  destruct s as [|a s']; [discriminate|].
  rewrite clean_str in Hc by discriminate. rewrite clean_str by discriminate.
  apply pipeline_settled; [|exact Hr].
  apply (settled_pipeline L self (a :: s')); [exact HL | apply Hr | exact Hc].
Qed.

(** C1, as the claim has it, fails, and not by truncation: the default
    cleaner has no maximal length, decodes [&amp;amp;amp;] to [&amp;], and
    decodes that again to [&]. *)
Lemma clean_decodes_again :
  clean Small.lib default_cleaner (PyStr (lit "&amp;amp;amp;"))
  = Ret (lit "&amp;")
  /\ clean Small.lib default_cleaner (PyStr (lit "&amp;")) = Ret (lit "&")
  /\ lit "&amp;" <> lit "&".
Proof. split; [|split]; [vm_compute; reflexivity ..|discriminate]. Qed.

(** Nor does repeated truncation stop growing once the suffix is there:
    with [max_length=6], [aaaa bbbbbbb] is cleaned to [aaaa...], and that to
    [aaaa.....]. *)
Lemma clean_truncation_grows :
  clean Small.lib (with_max_length 6) (PyStr (lit "aaaa bbbbbbb"))
  = Ret (lit "aaaa...")
  /\ clean Small.lib (with_max_length 6) (PyStr (lit "aaaa..."))
     = Ret (lit "aaaa.....").
Proof. split; vm_compute; reflexivity. Qed.

(** And the characters [extra_remove] names can come from a later stage:
    with [extra_remove=' '] the newline of [a\nb] becomes a space, which
    only the second run removes. *)
Lemma clean_removes_late_space :
  let self :=
    {| remove_quotes := true; normalize_dashes := true;
       normalize_spaces := true; remove_html_tags := true;
       decode_html_entities := true; remove_invisible := true;
       preserve_newlines := false; lowercase := false;
       max_length := None; allowed_chars := None; extra_remove := [32] |} in
  clean Small.lib self (PyStr [97; 10; 98]) = Ret (lit "a b")
  /\ clean Small.lib self (PyStr (lit "a b")) = Ret (lit "ab").
Proof. split; vm_compute; reflexivity. Qed.

(** C1, amended: whatever the configuration, the text [t] that [clean]
    returns is returned unchanged by a second [clean], provided the four
    stages that can act on what later stages (or they themselves) produce
    leave [t] alone: decoding entities when it is on, removing the extra
    characters, filtering to the allowed characters (given by a character
    class), and truncating.  Every other stage always leaves [t] alone.
    The runtime is asked that lowering, when it is on, leaves lower case
    text and the reserved characters as they are. *)
Theorem clean_twice_when_at_rest
        (L : PyLib) (self : TextCleaner) (s t : str) :
  (lowercase self = true -> lower_is_plain L) ->
  clean L self (PyStr s) = Ret t ->
  at_rest L self t ->
  clean L self (PyStr t) = Ret t.
Proof.
  intros HL Hc Hr. destruct t as [|c r]; [reflexivity|].
  rewrite clean_str by discriminate.
  apply pipeline_settled; [|exact Hr].
  destruct s as [|a s']; [discriminate|].
  rewrite clean_str in Hc by discriminate.
  apply (settled_pipeline L self (a :: s')); [exact HL | apply Hr | exact Hc].
Qed.

(** ** The small runtime meets what is asked *)

Lemma mem_out_of_range set lo hi c :
  forallb (fun x => (x <? lo) || (hi <? x)) set = true ->
  lo <= c <= hi -> mem c set = false.
Proof.
  intros Hall Hc. apply mem_false. intros Hin.
  rewrite forallb_forall in Hall. specialize (Hall c Hin).
  apply orb_prop in Hall. destruct Hall as [H|H]; apply Z.ltb_lt in H; lia.
Qed.

Lemma letters_not_reserved c :
  65 <= c <= 90 \/ 97 <= c <= 122 -> reserved c = false.
Proof.
  intros Hc. unfold reserved.
  assert (Hm : forall set,
             forallb (fun x => (x <? 65) || (90 <? x)) set = true ->
             forallb (fun x => (x <? 97) || (122 <? x)) set = true ->
             mem c set = false).
  { intros set H1 H2. destruct Hc as [Hc|Hc];
      [exact (mem_out_of_range set 65 90 c H1 Hc)
      |exact (mem_out_of_range set 97 122 c H2 Hc)]. }
  rewrite !Hm by (vm_compute; reflexivity).
  unfold isspace.
  repeat match goal with
         | |- context [?a <=? ?b] => destruct (Z.leb_spec a b); try lia
         | |- context [?a =? ?b] => destruct (Z.eqb_spec a b); try lia
         end.
  all: reflexivity.
Qed.

Lemma lower_keeps_reserved_small : lower_keeps_reserved Small.lib.
Proof.
  unfold lower_keeps_reserved, Small.lib, tolower_full, Small.to_lower.
  split; [|split].
  - intros c Hr. destruct (Small.is_upper c) eqn:E.
    + unfold Small.is_upper in E. apply andb_prop in E. destruct E as [E1 E2].
      apply Z.leb_le in E1. apply Z.leb_le in E2.
      rewrite letters_not_reserved in Hr by lia. discriminate.
    + destruct (Z.eqb_spec c 0x3A3) as [->|_]; [discriminate | reflexivity].
  - intros c d Hr. destruct (Small.is_upper c) eqn:E.
    + unfold Small.is_upper in E. apply andb_prop in E. destruct E as [E1 E2].
      apply Z.leb_le in E1. apply Z.leb_le in E2.
      intros [<-|[]]. apply letters_not_reserved. lia.
    + destruct (Z.eqb_spec c 0x3A3) as [->|_]; intros [<-|[]];
        [reflexivity | exact Hr].
  - intros c. destruct (Small.is_upper c); [discriminate|].
    destruct (c =? 0x3A3); discriminate.
Qed.

Lemma lower_is_plain_small : lower_is_plain Small.lib.
Proof. split; [exact lower_is_stable_small | exact lower_keeps_reserved_small]. Qed.

Lemma clean_twice_when_at_rest_witness :
  clean Small.lib lowering_lines (PyStr (lit "hello world" ++ [10; 10] ++ lit "next"))
  = Ret (lit "hello world" ++ [10; 10] ++ lit "next").
Proof.
  apply (clean_twice_when_at_rest
           Small.lib lowering_lines
           (lit "<b>Hello</b>  World<br><br><br>NEXT ")).
  - intros _. exact lower_is_plain_small.
  - vm_compute. reflexivity.
  - apply at_rest_plain; reflexivity.
Defined.

(** * What every cleaned text looks like *)

Lemma settled_nil L self : settled L self [].
Proof.
  split; [|split; [|split]].
  - repeat split; intros _ c [].
  - destruct (preserve_newlines self).
    + repeat split.
    + split; [intros c [] | exact I].
  - intros _ c [].
  - exact I.
Qed.

Lemma filter_allowed_is_class L self x :
  allowed_is_class L self ->
  exists keep, filter_allowed L self x = Ret (filter keep x).
Proof.
  unfold allowed_is_class, filter_allowed.
  destruct (allowed_chars self) as [[|a frag]|].
  - intros _. exists (fun _ => true). f_equal. symmetry. now apply filter_all.
  - intros (keep & ->). now exists keep.
  - intros _. exists (fun _ => true). f_equal. symmetry. now apply filter_all.
Qed.

(** What [clean] returns is settled, whatever it was given. *)
Lemma clean_settled L self text t :
  (lowercase self = true -> lower_is_plain L) ->
  allowed_is_class L self ->
  clean L self text = Ret t ->
  settled L self t.
Proof.
  intros HL Ha Hc. unfold clean in Hc.
  destruct (is_none text); [injection Hc as <-; apply settled_nil|].
  destruct (to_str text) as [|a r]; [injection Hc as <-; apply settled_nil|].
  apply pipeline_ret in Hc. destruct Hc as (v & u & Hv & Hu & ->).
  destruct (filter_allowed_is_class L self v Ha) as (keep & Ek).
  rewrite Ek in Hu. injection Hu as <-.
  apply settled_after_filter; [exact HL|].
  apply chars_settled_carries; [apply carries_filter|].
  unfold before_filter in Hv.
  match type of Hv with
  | bind ?m _ = _ => destruct m as [s1|e]; cbn [bind] in Hv; [|discriminate]
  end.
  injection Hv as <-. apply chars_settled_tags_to_extra.
Qed.

Lemma settled_tidy L self t : settled L self t -> tidy t.
Proof.
  intros (_ & Hw & _). destruct (preserve_newlines self); apply Hw.
Qed.

Lemma tidy_no_tab s : tidy s -> ~ In 9 s.
Proof.
  induction s as [|c r IH]; [intros _ []|].
  intros (Hc & _ & Hr) [E|Hin]; [congruence | now apply IH].
Qed.

Lemma tidy_no_doubled_space s a b : tidy s -> s <> a ++ 32 :: 32 :: b.
Proof.
  revert s. induction a as [|x a IH]; intros s Ht E; subst s.
  - destruct Ht as (_ & H & _). now apply (H eq_refl).
  - destruct Ht as (_ & _ & Hr). now apply (IH _ Hr).
Qed.

(** X1: whatever the options, the text [clean] returns holds no tab and no
    two spaces in a row, and neither begins nor ends with white space:
    stripping it changes nothing.  (The runtime is asked that lowering, when
    it is on, is plain, and that the pattern of [allowed_chars], when there
    is one, is a class of characters.) *)
Theorem clean_output_is_tidy_and_stripped
        (L : PyLib) (self : TextCleaner) (text : pyobj) (t : str) :
  (lowercase self = true -> lower_is_plain L) ->
  allowed_is_class L self ->
  clean L self text = Ret t ->
  ~ In 9 t
  /\ (forall a b, t <> a ++ 32 :: 32 :: b)
  /\ strip t = t.
Proof.
  intros HL Ha Hc.
  pose proof (clean_settled L self text t HL Ha Hc) as Hs.
  pose proof (settled_tidy L self t Hs) as Ht.
  split; [exact (tidy_no_tab t Ht)|].
  split; [intros a b; exact (tidy_no_doubled_space t a b Ht)|].
  apply trimmed_strip. apply Hs.
Qed.

Lemma clean_output_is_tidy_and_stripped_witness :
  ~ In 9 (lit "a b.")
  /\ (forall a b, lit "a b." <> a ++ 32 :: 32 :: b)
  /\ strip (lit "a b.") = lit "a b.".
Proof.
  apply (clean_output_is_tidy_and_stripped
           Small.lib lowering (PyStr ([32; 9] ++ lit "A " ++ [9; 32] ++ lit " B. "))).
  - intros _. exact lower_is_plain_small.
  - exact I.
  - vm_compute. reflexivity.
Defined.

Lemma no_triple_no_three_newlines s a b :
  no_triple s -> s <> a ++ 10 :: 10 :: 10 :: b.
Proof.
  revert s. induction a as [|x a IH]; intros s Hn E; subst s.
  - destruct Hn as [H _]. discriminate H.
  - destruct Hn as [_ Hr]. now apply (IH _ Hr).
Qed.

(** X2: with [preserve_newlines=True] the text [clean] returns never holds
    three newlines in a row (at most one empty line stands between two
    lines), and none of its lines begins or ends with white space. *)
Theorem clean_keeps_stripped_lines
        (L : PyLib) (self : TextCleaner) (text : pyobj) (t : str) :
  (lowercase self = true -> lower_is_plain L) ->
  allowed_is_class L self ->
  preserve_newlines self = true ->
  clean L self text = Ret t ->
  (forall a b, t <> a ++ 10 :: 10 :: 10 :: b)
  /\ (forall line, In line (split 10 t) -> strip line = line).
Proof.
  intros HL Ha Hp Hc.
  destruct (clean_settled L self text t HL Ha Hc) as (_ & Hw & _).
  rewrite Hp in Hw. destruct Hw as (_ & Hl & Hn). split.
  - intros a b. now apply no_triple_no_three_newlines.
  - intros line Hin. apply trimmed_strip.
    pose proof (lines_ok_trimmed t Hl) as Hall.
    rewrite Forall_forall in Hall. now apply Hall.
Qed.

Lemma clean_keeps_stripped_lines_witness :
  (forall a b, lit "one" ++ [10; 10] ++ lit "two" <> a ++ 10 :: 10 :: 10 :: b)
  /\ (forall line, In line (split 10 (lit "one" ++ [10; 10] ++ lit "two")) ->
                   strip line = line).
Proof.
  apply (clean_keeps_stripped_lines
           Small.lib lowering_lines
           (PyStr (lit " One  " ++ [10; 32; 10; 9; 10; 10] ++ lit "  TWO" ++ [10]))).
  - intros _. exact lower_is_plain_small.
  - exact I.
  - reflexivity.
  - vm_compute. reflexivity.
Defined.

Lemma tagfree_no_tag s : tagfree s -> no_tag s.
Proof.
  intros Ht0 a body b. revert s Ht0.
  induction a as [|x a IH]; intros s Ht E; subst s.
  - destruct Ht as [H _]. destruct (H eq_refl) as [Hc|Hn].
    + apply closes_true in Hc. destruct Hc as (r & Er).
      destruct body as [|c body]; [now left|].
      injection Er as -> _. right. now left.
    + exfalso. apply Hn. apply in_or_app. right. now left.
  - destruct Ht as [_ Hr]. exact (IH _ Hr eq_refl).
Qed.

(** X3: with [remove_html_tags=True] the text [clean] returns holds no tag:
    nowhere in it does [<[^>]+>] match, that is, no [<] is followed by one
    or more characters other than [>] and then by [>]. *)
Theorem clean_output_has_no_tag
        (L : PyLib) (self : TextCleaner) (text : pyobj) (t : str) :
  (lowercase self = true -> lower_is_plain L) ->
  allowed_is_class L self ->
  remove_html_tags self = true ->
  clean L self text = Ret t ->
  no_tag t.
Proof.
  intros HL Ha Hr Hc.
  destruct (clean_settled L self text t HL Ha Hc) as ((Ht & _) & _).
  exact (tagfree_no_tag t (Ht Hr)).
Qed.

Lemma clean_output_has_no_tag_witness : no_tag (lit "bold <> x<").
Proof.
  apply (clean_output_has_no_tag
           Small.lib lowering (PyStr (lit "<b>Bold</b> <> &lt;i&gt;X<"))).
  - intros _. exact lower_is_plain_small.
  - exact I.
  - reflexivity.
  - vm_compute. reflexivity.
Defined.

(** X4: each table is gone from the text [clean] returns when its option
    is on: no character of [INVISIBLE_CHARS] with [remove_invisible], none
    of [SPECIAL_SPACES] with [normalize_spaces], no key of [DASHES] with
    [normalize_dashes], and none of [QUOTES] with [remove_quotes]. *)
Theorem clean_output_lacks_the_tables
        (L : PyLib) (self : TextCleaner) (text : pyobj) (t : str) :
  (lowercase self = true -> lower_is_plain L) ->
  allowed_is_class L self ->
  clean L self text = Ret t ->
  (remove_invisible self = true -> lacks INVISIBLE_CHARS t)
  /\ (normalize_spaces self = true -> lacks SPECIAL_SPACES t)
  /\ (normalize_dashes self = true -> lacks (flat_map fst DASHES) t)
  /\ (remove_quotes self = true -> lacks QUOTES t).
Proof.
  intros HL Ha Hc.
  destruct (clean_settled L self text t HL Ha Hc)
    as ((_ & H3 & H4 & H5 & H6) & _).
  split; [exact H3|]. split; [exact H4|]. split; [exact H5 | exact H6].
Qed.

Lemma clean_output_lacks_the_tables_witness :
  (true = true -> lacks INVISIBLE_CHARS (lit "a -b c d"))
  /\ (true = true -> lacks SPECIAL_SPACES (lit "a -b c d"))
  /\ (true = true -> lacks (flat_map fst DASHES) (lit "a -b c d"))
  /\ (true = true -> lacks QUOTES (lit "a -b c d")).
Proof.
  apply (clean_output_lacks_the_tables
           Small.lib lowering
           (PyStr [65; 0x200C; 0x200B; 0x2014; 66; 0xA0; 0xAB; 67; 0xBB; 34; 68])).
  - intros _. exact lower_is_plain_small.
  - exact I.
  - vm_compute. reflexivity.
Defined.

(** ** Blank text *)

Lemma blank_not_in s c : blank s -> isspace c = false -> ~ In c s.
Proof. intros Hb Hc Hin. rewrite (Hb c Hin) in Hc. discriminate. Qed.

Lemma blank_tagfree s : blank s -> tagfree s.
Proof.
  induction s as [|c r IH]; intros Hb; [exact I|]. split.
  - intros ->. now pose proof (Hb 60 (or_introl eq_refl)).
  - apply IH. intros x Hx. apply Hb. now right.
Qed.

Lemma isspace_not_dash c : isspace c = true -> mem c dash_keys = false.
Proof.
  intros Hc. destruct (mem c dash_keys) eqn:E; [|reflexivity].
  apply mem_In in E. vm_compute in E.
  repeat (destruct E as [<-|E]; [discriminate Hc|]). destruct E.
Qed.

Lemma blank_filter p s : blank s -> blank (filter p s).
Proof. intros Hb c Hc. apply filter_In in Hc. now apply Hb. Qed.

Lemma blank_chars_to_space set s : blank s -> blank (chars_to_space set s).
Proof.
  intros Hb c Hc. apply in_chars_to_space in Hc.
  destruct Hc as [[Hc _]| ->]; [now apply Hb | reflexivity].
Qed.

Lemma blank_tags_to_extra self s : blank s -> blank (tags_to_extra self s).
Proof.
  intros Hb. unfold tags_to_extra.
  assert (H2 : blank (if remove_html_tags self then strip_tags s else s)).
  { rewrite strip_tags_tagfree by now apply blank_tagfree.
    now destruct (remove_html_tags self). }
  revert H2. generalize (if remove_html_tags self then strip_tags s else s).
  intros s2 H2.
  assert (H3 : blank (if remove_invisible self
                      then delete_chars INVISIBLE_CHARS s2 else s2)).
  { destruct (remove_invisible self); [now apply blank_filter | exact H2]. }
  revert H3. generalize (if remove_invisible self
                         then delete_chars INVISIBLE_CHARS s2 else s2).
  intros s3 H3.
  assert (H4 : blank (if normalize_spaces self
                      then chars_to_space SPECIAL_SPACES s3 else s3)).
  { destruct (normalize_spaces self);
      [now apply blank_chars_to_space | exact H3]. }
  revert H4. generalize (if normalize_spaces self
                         then chars_to_space SPECIAL_SPACES s3 else s3).
  intros s4 H4.
  assert (H5 : blank (if normalize_dashes self
                      then replace_items DASHES s4 else s4)).
  { rewrite dashes_lacks
      by (intros c Hc; apply isspace_not_dash; now apply H4).
    now destruct (normalize_dashes self). }
  revert H5. generalize (if normalize_dashes self
                         then replace_items DASHES s4 else s4).
  intros s5 H5.
  assert (H6 : blank (if remove_quotes self
                      then chars_to_space QUOTES s5 else s5)).
  { destruct (remove_quotes self);
      [now apply blank_chars_to_space | exact H5]. }
  revert H6. generalize (if remove_quotes self
                         then chars_to_space QUOTES s5 else s5).
  intros s6 H6.
  destruct (extra_remove self); [exact H6 | now apply blank_filter].
Qed.

Lemma blank_before_filter L self s :
  blank s -> exists v, before_filter L self s = Ret v /\ blank v.
Proof.
  intros Hb. exists (tags_to_extra self s).
  split; [|now apply blank_tags_to_extra].
  unfold before_filter.
  rewrite decode_entities_no_amp
    by (apply mem_false; now apply blank_not_in).
  now destruct (decode_html_entities self).
Qed.

Lemma blank_single_line s : blank s -> blank (single_line s).
Proof.
  intros Hb c Hc. unfold single_line in Hc.
  apply in_re_sub_const in Hc. destruct Hc as [Hc|[<-|[]]]; [|reflexivity].
  rewrite !replace_char in Hc.
  apply in_map_iff in Hc. destruct Hc as (x & <- & Hx).
  apply in_map_iff in Hx. destruct Hx as (y & <- & Hy).
  pose proof (Hb y Hy) as Hsp.
  destruct (y =? 10); [reflexivity|].
  destruct (y =? 13); [reflexivity | exact Hsp].
Qed.

Lemma blank_normalize_lines s : blank s -> blank (normalize_lines s).
Proof.
  intros Hb c Hc. unfold normalize_lines in Hc.
  apply (in_thin _ _ _ (thin_strip_lines _)) in Hc.
  apply in_re_sub_const in Hc.
  destruct Hc as [Hc|[<-|[<-|[]]]]; [|reflexivity ..].
  apply in_re_sub_const in Hc. destruct Hc as [Hc|[<-|[]]]; [|reflexivity].
  now apply Hb.
Qed.

Lemma lower_blank L s : lower_keeps_reserved L -> blank s -> lower L s = s.
Proof.
  intros (Hk & _) Hb. apply lower_of_fixed. intros c Hc.
  pose proof (Hb c Hc) as Hsp. split.
  - apply Hk. now apply isspace_reserved.
  - intros ->. discriminate Hsp.
Qed.

Lemma strip_blank s : blank s -> strip s = [].
Proof.
  intros Hb. unfold strip, lstrip.
  assert (E : dropwhile isspace s = []).
  { induction s as [|c r IH]; [reflexivity|]. simpl.
    rewrite (Hb c (or_introl eq_refl)). apply IH.
    intros x Hx. apply Hb. now right. }
  now rewrite E.
Qed.

Lemma after_filter_blank L self u :
  (lowercase self = true -> lower_keeps_reserved L) ->
  blank u -> after_filter L self u = [].
Proof.
  intros HL Hb. unfold after_filter.
  assert (H9 : blank (if preserve_newlines self then normalize_lines u
                      else single_line u)).
  { destruct (preserve_newlines self);
      [now apply blank_normalize_lines | now apply blank_single_line]. }
  revert H9. generalize (if preserve_newlines self then normalize_lines u
                         else single_line u).
  intros w Hw. apply strip_blank.
  destruct (lowercase self); [|exact Hw].
  now rewrite lower_blank by auto.
Qed.

(** X5: text made of white space only is cleaned to the empty string, and
    [is_empty] answers [True] for it, under every configuration whose
    [max_length] is not negative.  (The runtime is asked that lowering, when
    it is on, leaves white space alone, and that the pattern of
    [allowed_chars], when there is one, is a class of characters.) *)
Theorem clean_blank_text_is_empty
        (L : PyLib) (self : TextCleaner) (s : str) :
  (lowercase self = true -> lower_keeps_reserved L) ->
  allowed_is_class L self ->
  (forall m, max_length self = Some m -> 0 <= m) ->
  (forall c, In c s -> isspace c = true) ->
  clean L self (PyStr s) = Ret [] /\ is_empty L self (PyStr s) = Ret true.
Proof.
  intros HL Ha Hm Hb.
  assert (Hc : clean L self (PyStr s) = Ret []).
  { destruct s as [|a r]; [reflexivity|].
    rewrite clean_str by discriminate. unfold pipeline.
    destruct (blank_before_filter L self (a :: r) Hb) as (v & -> & Hv).
    cbn [bind].
    destruct (filter_allowed_is_class L self v Ha) as (keep & ->).
    cbn [bind].
    rewrite after_filter_blank by (try exact HL; now apply blank_filter).
    unfold cut. destruct (max_length self) as [m|] eqn:Em; [|reflexivity].
    specialize (Hm m eq_refl).
    destruct (Z.ltb_spec m (len [])) as [Hlt|_];
      [unfold len in Hlt; simpl in Hlt; lia|].
    now rewrite andb_false_r. }
  split; [exact Hc|]. unfold is_empty. now rewrite Hc.
Qed.

Lemma clean_blank_text_is_empty_witness :
  clean Small.lib lowering_lines (PyStr [32; 9; 10; 0xA0; 13; 10; 0x2003]) = Ret []
  /\ is_empty Small.lib lowering_lines (PyStr [32; 9; 10; 0xA0; 13; 10; 0x2003])
     = Ret true.
Proof.
  apply (clean_blank_text_is_empty Small.lib lowering_lines).
  - intros _. exact lower_keeps_reserved_small.
  - exact I.
  - discriminate.
  - intros c Hc. vm_compute in Hc.
    repeat (destruct Hc as [<-|Hc]; [reflexivity|]). destruct Hc.
Defined.

(** X6: a negative [max_length] makes [clean] cut every text that is not
    empty, also one that is shorter than any bound: the result is the text
    cleaned by the other stages, without its last characters and cut back
    to its last space, followed by the three dots.  So white space alone is
    cleaned to [...] and [is_empty] answers [False] for it. *)
Theorem clean_negative_max_length_always_cuts
        (L : PyLib) (self : TextCleaner) (text : pyobj) (t : str) (m : Z) :
  max_length self = Some m ->
  m < 0 ->
  is_none text = false ->
  to_str text <> [] ->
  clean L self text = Ret t ->
  (exists u, clean L (without_max_length self) text = Ret u
             /\ t = rsplit1_head (firstn (Z.to_nat (len u + m)) u) ++ dots)
  /\ is_empty L self text = Ret false.
Proof.
  intros Hm Hneg Hn Hs Hc.
  assert (Hu : exists u, clean L (without_max_length self) text = Ret u
             /\ t = rsplit1_head (firstn (Z.to_nat (len u + m)) u) ++ dots).
  { unfold clean in *. rewrite Hn in *.
    destruct (to_str text) as [|a r]; [congruence|].
    apply pipeline_ret in Hc. destruct Hc as (v & u & Hv & Hu & ->).
    exists (after_filter L self u). split.
    - unfold pipeline.
      change (before_filter L (without_max_length self) (a :: r))
        with (before_filter L self (a :: r)).
      rewrite Hv. cbn [bind].
      change (filter_allowed L (without_max_length self) v)
        with (filter_allowed L self v).
      rewrite Hu. reflexivity.
    - unfold cut. rewrite Hm.
      destruct (Z.eqb_spec m 0) as [?|_]; [lia|].
      pose proof (len_nonneg (after_filter L self u)).
      destruct (Z.ltb_spec m (len (after_filter L self u))) as [_|?]; [|lia].
      cbn [negb andb]. unfold slice_to.
      destruct (Z.leb_spec 0 m) as [?|_]; [lia | reflexivity]. }
  split; [exact Hu|].
  destruct Hu as (u & _ & ->). unfold is_empty. rewrite Hc. cbn [bind].
  now destruct (rsplit1_head (firstn (Z.to_nat (len u + m)) u)).
Qed.

Lemma clean_negative_max_length_always_cuts_witness :
  (exists u, clean Small.lib (without_max_length (with_max_length (-1)))
                   (PyStr [32]) = Ret u
             /\ dots = rsplit1_head (firstn (Z.to_nat (len u + -1)) u) ++ dots)
  /\ is_empty Small.lib (with_max_length (-1)) (PyStr [32]) = Ret false.
Proof.
  apply (clean_negative_max_length_always_cuts
           Small.lib (with_max_length (-1)) (PyStr [32]) dots (-1)).
  - reflexivity.
  - lia.
  - reflexivity.
  - discriminate.
  - vm_compute. reflexivity.
Defined.

(** ** Truncation *)

Lemma cut_without_max_length self x : cut (without_max_length self) x = x.
Proof. reflexivity. Qed.

Lemma cut_is_truncate self m x :
  max_length self = Some m -> 0 <= m ->
  cut self x = if m =? 0 then x else truncate (Some x) m dots.
Proof.
  intros Hm Hpos. unfold cut, truncate. rewrite Hm.
  destruct (Z.eqb_spec m 0) as [->|Hne]; [reflexivity|]. cbn [negb andb].
  destruct x as [|c r].
  - destruct (Z.ltb_spec m (len [])) as [Hlt|_]; [|reflexivity].
    unfold len in Hlt. simpl in Hlt. lia.
  - destruct (Z.ltb_spec m (len (c :: r))) as [Hlt|Hge];
      destruct (Z.leb_spec (len (c :: r)) m) as [Hle|Hgt];
      try lia; reflexivity.
Qed.

(** X7: a positive [max_length] is [truncate] applied at the end: [clean]
    under a configuration with [max_length=m], [m > 0], is [clean] under the
    same configuration without it, followed by [truncate(text, m)] with the
    suffix of three dots.  For [m = 0] the two part: [clean] takes 0 for no
    bound and returns the whole text. *)
Theorem clean_with_max_length_is_truncate
        (L : PyLib) (self : TextCleaner) (text : pyobj) (m : Z) :
  max_length self = Some m ->
  0 <= m ->
  clean L self text
  = (t <- clean L (without_max_length self) text ;;
     Ret (if m =? 0 then t else truncate (Some t) m dots)).
Proof.
  intros Hm Hpos. unfold clean.
  destruct (is_none text); [cbn [bind]; now destruct (m =? 0)|].
  destruct (to_str text) as [|a r]; [cbn [bind]; now destruct (m =? 0)|].
  unfold pipeline.
  change (before_filter L (without_max_length self) (a :: r))
    with (before_filter L self (a :: r)).
  destruct (before_filter L self (a :: r)) as [v|e]; cbn [bind];
    [|reflexivity].
  change (filter_allowed L (without_max_length self) v)
    with (filter_allowed L self v).
  destruct (filter_allowed L self v) as [u|e]; cbn [bind]; [|reflexivity].
  rewrite cut_without_max_length.
  change (after_filter L (without_max_length self) u)
    with (after_filter L self u).
  now rewrite (cut_is_truncate self m) by assumption.
Qed.

Lemma clean_with_max_length_is_truncate_witness :
  clean Small.lib (with_max_length 11) (PyStr (lit "hello <b>world</b> foo"))
  = (t <- clean Small.lib (without_max_length (with_max_length 11))
                (PyStr (lit "hello <b>world</b> foo")) ;;
     Ret (if 11 =? 0 then t else truncate (Some t) 11 dots)).
Proof.
  apply (clean_with_max_length_is_truncate Small.lib (with_max_length 11)).
  - reflexivity.
  - lia.
Defined.

Lemma len_firstn_le n s : len (firstn n s) <= Z.of_nat n.
Proof. unfold len. rewrite length_firstn. lia. Qed.



(** ** The smaller cleaners *)

Lemma clean_url_lacks text : lacks INVISIBLE_CHARS (clean_url text).
Proof.
  unfold clean_url. destruct (negb (truth text)); [intros c []|].
  apply lacks_delete_chars.
Qed.

Lemma clean_url_of_clean t :
  lacks INVISIBLE_CHARS t -> clean_url (PyStr t) = strip t.
Proof.
  intros Hl. destruct t as [|c r]; [reflexivity|].
  unfold clean_url. cbn [truth negb to_str].
  apply delete_chars_none. intros x Hx. apply Hl. exact (in_strip _ _ Hx).
Qed.

(** X9: [clean_url] returns no character of [INVISIBLE_CHARS], but it
    strips before it removes them, so white space next to such a character
    at an end survives: a second [clean_url] strips the result of the first
    and changes nothing else, and from then on nothing changes. *)
Theorem clean_url_twice_is_strip (text : pyobj) :
  (forall c, In c (clean_url text) -> mem c INVISIBLE_CHARS = false)
  /\ clean_url (PyStr (clean_url text)) = strip (clean_url text)
  /\ clean_url (PyStr (clean_url (PyStr (clean_url text))))
     = clean_url (PyStr (clean_url text))
  /\ clean_url (PyStr (clean_url (PyStr [0x200C; 32; 97])))
     <> clean_url (PyStr [0x200C; 32; 97]).
Proof.
  pose proof (clean_url_lacks text) as Hl.
  assert (E : clean_url (PyStr (clean_url text)) = strip (clean_url text))
    by now apply clean_url_of_clean.
  split; [exact Hl|]. split; [exact E|]. split.
  - rewrite E. rewrite clean_url_of_clean; [apply strip_idempotent|].
    intros c Hc. apply Hl. exact (in_strip _ _ Hc).
  - vm_compute. discriminate.
Qed.

(** X10: [clean_email] returns no character of [INVISIBLE_CHARS] and none
    of [SPECIAL_SPACES], whatever it is given and whatever the case tables
    of the runtime. *)
Theorem clean_email_has_no_invisible_or_special_space
        (L : PyLib) (text : pyobj) :
  lacks INVISIBLE_CHARS (clean_email L text)
  /\ lacks SPECIAL_SPACES (clean_email L text).
Proof.
  unfold clean_email. destruct (negb (truth text)); [split; intros c []|].
  split; [|apply lacks_delete_chars].
  apply lacks_filter, lacks_delete_chars.
Qed.

Lemma unescape_raises L s e :
  unescape L s = Raise e -> e = ValueError /\ In 38 s.
Proof.
  unfold unescape. destruct (mem 38 s) eqn:E; [|discriminate].
  intros Hr. split; [|now apply mem_In].
  apply (sub_go_exc_raises (m_charref L) O s e); [|exact Hr].
  intros x n e'. apply m_charref_raises.
Qed.

(** X11: [clean_price_text] either returns text made of decimal digits,
    dots and commas only, or raises [ValueError], and that only for text
    with an ampersand in it (a character reference too long for [int]). *)
Theorem clean_price_text_keeps_digits_dots_commas
        (L : PyLib) (is_decimal : Z -> bool) (text : pyobj) :
  match clean_price_text L is_decimal text with
  | Ret t => forall c, In c t -> is_decimal c = true \/ c = 46 \/ c = 44
  | Raise e => e = ValueError /\ In 38 (to_str text)
  end.
Proof.
  unfold clean_price_text. destruct (negb (truth text)); [intros c []|].
  destruct (unescape L (to_str text)) as [u|e] eqn:E; cbn [bind].
  - intros c Hc. apply in_strip in Hc. apply filter_In in Hc.
    destruct Hc as [_ Hp]. unfold price_char in Hp.
    apply orb_prop in Hp. destruct Hp as [Hp|Hp].
    + apply orb_prop in Hp. destruct Hp as [Hp|Hp]; [now left|].
      apply Z.eqb_eq in Hp. tauto.
    + apply Z.eqb_eq in Hp. tauto.
  - exact (unescape_raises L _ e E).
Qed.

(** X12: [clean_price_text] is idempotent: given what it returned, it
    returns the same.  (The runtime is asked that the ampersand is no
    decimal digit.) *)
Theorem clean_price_text_twice
        (L : PyLib) (is_decimal : Z -> bool) (text : pyobj) (t : str) :
  is_decimal 38 = false ->
  clean_price_text L is_decimal text = Ret t ->
  clean_price_text L is_decimal (PyStr t) = Ret t.
Proof.
  intros Hd Hc.
  assert (Ht : (forall c, In c t -> price_char is_decimal c = true)
               /\ strip t = t).
  { unfold clean_price_text in Hc.
    destruct (negb (truth text)); [injection Hc as <-; split; [intros c []|reflexivity]|].
    destruct (unescape L (to_str text)) as [u|e]; cbn [bind] in Hc;
      [|discriminate].
    injection Hc as <-. split; [|apply strip_idempotent].
    intros c Hin. apply in_strip in Hin. apply filter_In in Hin. apply Hin. }
  destruct Ht as [Hp Hs]. destruct t as [|a r]; [reflexivity|].
  unfold clean_price_text. cbn [truth negb to_str].
  rewrite unescape_no_amp.
  - cbn [bind]. rewrite filter_all by exact Hp. now rewrite Hs.
  - apply mem_false. intros Hin. specialize (Hp 38 Hin).
    unfold price_char in Hp. rewrite Hd in Hp. discriminate Hp.
Qed.

Lemma clean_price_text_twice_witness :
  clean_price_text Small.lib is_digit (PyStr (lit "1,299.00")) = Ret (lit "1,299.00").
Proof.
  apply (clean_price_text_twice
           Small.lib is_digit (PyStr (lit " Price: &euro;1,299.00 (net) "))).
  - reflexivity.
  - vm_compute. reflexivity.
Defined.



(** X14: [clean_description] does not look at the cleaner it is called on:
    whatever the options of [self], also [lowercase] or [max_length], the
    result is the same, with the newlines kept: never three of them in a
    row, every line stripped, no tab and no two spaces in a row, and no
    tag. *)
Theorem clean_description_ignores_the_options
        (L : PyLib) (self : TextCleaner) (text : pyobj) (t : str) :
  clean_description L self text = Ret t ->
  (forall other, clean_description L other text = Ret t)
  /\ (forall a b, t <> a ++ 10 :: 10 :: 10 :: b)
  /\ (forall line, In line (split 10 t) -> strip line = line)
  /\ ~ In 9 t
  /\ (forall a b, t <> a ++ 32 :: 32 :: b)
  /\ no_tag t.
Proof.
  intros Hc. split; [intros other; exact Hc|].
  unfold clean_description, TextCleaner_init in Hc. cbn [bind] in Hc.
  eapply clean_settled in Hc; [|intros H; discriminate H | exact I].
  destruct Hc as ((Ht & _) & (Hw & Hl & Hn) & _).
  split; [intros a b; now apply no_triple_no_three_newlines|].
  split.
  { intros line Hin. apply trimmed_strip.
    pose proof (lines_ok_trimmed t Hl) as Hall.
    rewrite Forall_forall in Hall. now apply Hall. }
  split; [exact (tidy_no_tab t Hw)|].
  split; [intros a b; exact (tidy_no_doubled_space t a b Hw)|].
  exact (tagfree_no_tag t (Ht eq_refl)).
Qed.

Lemma clean_description_ignores_the_options_witness :
  (forall other,
      clean_description Small.lib other
        (PyStr (lit "<p>Say  &quot;HI&quot;</p>" ++ [10; 10; 10] ++ lit " there "))
      = Ret (lit "Say " ++ [34] ++ lit "HI" ++ [34; 10; 10] ++ lit "there"))
  /\ (forall a b, lit "Say " ++ [34] ++ lit "HI" ++ [34; 10; 10] ++ lit "there"
                  <> a ++ 10 :: 10 :: 10 :: b)
  /\ (forall line,
         In line (split 10 (lit "Say " ++ [34] ++ lit "HI" ++ [34; 10; 10]
                            ++ lit "there")) ->
         strip line = line)
  /\ ~ In 9 (lit "Say " ++ [34] ++ lit "HI" ++ [34; 10; 10] ++ lit "there")
  /\ (forall a b, lit "Say " ++ [34] ++ lit "HI" ++ [34; 10; 10] ++ lit "there"
                  <> a ++ 32 :: 32 :: b)
  /\ no_tag (lit "Say " ++ [34] ++ lit "HI" ++ [34; 10; 10] ++ lit "there").
Proof.
  apply (clean_description_ignores_the_options
           Small.lib (with_max_length 3)
           (PyStr (lit "<p>Say  &quot;HI&quot;</p>" ++ [10; 10; 10] ++ lit " there "))).
  vm_compute. reflexivity.
Defined.

(** X15: [clean] raises [ValueError] only when entities are decoded and
    the text holds an ampersand; with [decode_html_entities=False], or on
    text without ampersand, it does not. *)
Theorem clean_value_error_needs_an_ampersand
        (L : PyLib) (self : TextCleaner) (text : pyobj) :
  clean L self text = Raise ValueError ->
  decode_html_entities self = true /\ In 38 (to_str text).
Proof.
  unfold clean. destruct (is_none text); [discriminate|].
  destruct (to_str text) as [|a r]; [discriminate|].
  unfold pipeline.
  destruct (before_filter L self (a :: r)) as [v|e] eqn:Ev; cbn [bind].
  - unfold filter_allowed.
    destruct (allowed_chars self) as [[|x frag]|]; cbn [bind];
      try discriminate.
    destruct (re_delete L _); cbn [bind]; discriminate.
  - intros _. unfold before_filter in Ev.
    destruct (decode_html_entities self); [|discriminate Ev].
    split; [reflexivity|].
    unfold decode_entities in Ev.
    destruct (unescape L (a :: r)) as [u|e'] eqn:Eu; cbn [bind] in Ev;
      [discriminate Ev|].
    exact (proj2 (unescape_raises L _ e' Eu)).
Qed.

Lemma clean_value_error_needs_an_ampersand_witness :
  true = true /\ In 38 (lit "&#" ++ repeat 49 4301 ++ lit ";").
Proof.
  apply (clean_value_error_needs_an_ampersand
           Small.lib default_cleaner
           (PyStr (lit "&#" ++ repeat 49 4301 ++ lit ";"))).
  vm_compute. reflexivity.
Defined.

(** ** The stages on their own *)

(** X16: the white space stage is idempotent in both modes: run on its own
    result, the single line stage returns it unchanged, and so does the
    stage that keeps newlines. *)
Theorem whitespace_stage_is_idempotent (s : str) :
  single_line (single_line s) = single_line s
  /\ normalize_lines (normalize_lines s) = normalize_lines s.
Proof.
  split.
  - apply single_line_one_line, one_line_single_line.
  - apply normalize_lines_paragraphs, paragraphs_normalize_lines.
Qed.

(** X17: the tag stage leaves no tag behind and is idempotent: in its
    result [<[^>]+>] matches nowhere, so a second run, with its patterns for
    [<br>], [<p>] and [<li>], finds nothing to replace. *)
Theorem strip_tags_is_idempotent (s : str) :
  strip_tags (strip_tags s) = strip_tags s /\ no_tag (strip_tags s).
Proof.
  split.
  - apply strip_tags_tagfree, tagfree_strip_tags.
  - apply tagfree_no_tag, tagfree_strip_tags.
Qed.

(** ** Where the characters of the result come from *)

Lemma in_strip_tags s c : In c (strip_tags s) -> In c s \/ In c written.
Proof.
  unfold strip_tags, written. intros H.
  apply in_re_sub_const in H. destruct H as [H|[]].
  apply in_re_sub_const in H. destruct H as [H|H]; [|simpl in *; tauto].
  apply in_re_sub_const in H. destruct H as [H|H]; [|simpl in *; tauto].
  apply in_re_sub_const in H. destruct H as [H|H]; [|simpl in *; tauto].
  now left.
Qed.

Lemma in_tags_to_extra self s c :
  In c (tags_to_extra self s) -> In c s \/ In c written.
Proof.
  unfold tags_to_extra. intros H.
  destruct (extra_remove self) as [|x extra];
    [|apply in_delete_chars in H; destruct H as [H _]].
  all: destruct (remove_quotes self);
    [apply in_chars_to_space in H;
     destruct H as [[H _]| ->]; [|right; simpl; tauto]|].
  all: destruct (normalize_dashes self);
    [rewrite replace_items_dashes in H; apply in_dash_to_hyphen in H;
     destruct H as [[H _]| ->]; [|right; simpl; tauto]|].
  all: destruct (normalize_spaces self);
    [apply in_chars_to_space in H;
     destruct H as [[H _]| ->]; [|right; simpl; tauto]|].
  all: destruct (remove_invisible self);
    [apply in_delete_chars in H; destruct H as [H _]|].
  all: destruct (remove_html_tags self);
    [now apply in_strip_tags | now left].
Qed.

Lemma in_single_line s c : In c (single_line s) -> In c s \/ c = 32.
Proof.
  unfold single_line. intros H.
  apply in_re_sub_const in H. destruct H as [H|[<-|[]]]; [|now right].
  rewrite !replace_char in H.
  apply in_map_iff in H. destruct H as (x & <- & Hx).
  apply in_map_iff in Hx. destruct Hx as (y & <- & Hy).
  destruct (y =? 10); [now right|].
  destruct (y =? 13); [now right | now left].
Qed.

Lemma in_normalize_lines s c :
  In c (normalize_lines s) -> In c s \/ c = 32 \/ c = 10.
Proof.
  unfold normalize_lines. intros H.
  apply (in_thin _ _ _ (thin_strip_lines _)) in H.
  apply in_re_sub_const in H.
  destruct H as [H|[<-|[<-|[]]]]; [|right; now right ..].
  apply in_re_sub_const in H. destruct H as [H|[<-|[]]]; [|right; now left].
  now left.
Qed.

(** X18: without entity decoding and lower case, [clean] makes up no
    character: every character of its result is a character of the text it
    was given, or one of the five the stages write -- the space, the
    newline, the hyphen, the dot and the bullet.  (The pattern of
    [allowed_chars], when there is one, is asked to be a class of
    characters.) *)
Theorem clean_makes_up_no_character
        (L : PyLib) (self : TextCleaner) (text : pyobj) (t : str) :
  decode_html_entities self = false ->
  lowercase self = false ->
  allowed_is_class L self ->
  clean L self text = Ret t ->
  incl t (to_str text ++ [32; 10; 45; 46; 0x2022]).
Proof.
  intros Hd Hl Ha Hc c Hin. apply in_or_app. unfold clean in Hc.
  destruct (is_none text); [injection Hc as <-; destruct Hin|].
  destruct (to_str text) as [|a r] eqn:Es; [injection Hc as <-; destruct Hin|].
  apply pipeline_ret in Hc. destruct Hc as (v & u & Hv & Hu & ->).
  destruct (filter_allowed_is_class L self v Ha) as (keep & Ek).
  rewrite Ek in Hu. injection Hu as <-.
  unfold before_filter in Hv. rewrite Hd in Hv. cbn [bind] in Hv.
  injection Hv as <-.
  change [32; 10; 45; 46; 0x2022] with written.
  apply in_cut in Hin. destruct Hin as [Hin| ->]; [|right; simpl; tauto].
  unfold after_filter in Hin. rewrite Hl in Hin. apply in_strip in Hin.
  assert (Hf : In c (filter keep (tags_to_extra self (a :: r)))
               \/ In c written).
  { destruct (preserve_newlines self).
    - apply in_normalize_lines in Hin.
      destruct Hin as [Hin|[->| ->]]; [now left | right; simpl; tauto ..].
    - apply in_single_line in Hin.
      destruct Hin as [Hin| ->]; [now left | right; simpl; tauto]. }
  destruct Hf as [Hf|Hf]; [|now right].
  apply filter_In in Hf. destruct Hf as [Hf _].
  now apply in_tags_to_extra in Hf.
Qed.

Lemma clean_makes_up_no_character_witness :
  incl (lit "A-B...")
       ((lit "<li>A&amp;" ++ [0x2014] ++ lit "B  CDEFGH")
        ++ [32; 10; 45; 46; 0x2022]).
Proof.
  apply (clean_makes_up_no_character
           Small.lib
           {| remove_quotes := true; normalize_dashes := true;
              normalize_spaces := true; remove_html_tags := true;
              decode_html_entities := false; remove_invisible := true;
              preserve_newlines := false; lowercase := false;
              max_length := Some 8; allowed_chars := Some (lit "A-Z -");
              extra_remove := lit "&" |}
           (PyStr (lit "<li>A&amp;" ++ [0x2014] ++ lit "B  CDEFGH"))).
  - reflexivity.
  - reflexivity.
  - eexists. vm_compute. reflexivity.
  - vm_compute. reflexivity.
Defined.

(** ** The characters the options ask to remove or to keep *)

Lemma in_after_filter_plain L self u c :
  lowercase self = false ->
  In c (cut self (after_filter L self u)) ->
  In c u \/ c = 32 \/ c = 10 \/ c = 46.
Proof.
  intros Hl Hin. apply in_cut in Hin.
  destruct Hin as [Hin| ->]; [|now repeat right].
  unfold after_filter in Hin. rewrite Hl in Hin. apply in_strip in Hin.
  destruct (preserve_newlines self).
  - apply in_normalize_lines in Hin. tauto.
  - apply in_single_line in Hin. tauto.
Qed.

Lemma tags_to_extra_lacks_extra self s :
  lacks (extra_remove self) (tags_to_extra self s).
Proof.
  unfold tags_to_extra. destruct (extra_remove self) as [|x extra].
  - intros c _. reflexivity.
  - apply lacks_delete_chars.
Qed.

(** X19: a character of [extra_remove] is not in the text [clean] returns,
    unless it is the space, the newline or the dot, which the later stages
    write (the white space stage and the truncation run after the removal).
    Lower case is off here, and the pattern of [allowed_chars], when there
    is one, is asked to be a class of characters. *)
Theorem clean_removes_the_extra_characters
        (L : PyLib) (self : TextCleaner) (text : pyobj) (t : str) :
  lowercase self = false ->
  allowed_is_class L self ->
  clean L self text = Ret t ->
  Forall (fun c => In c (extra_remove self) -> In c [32; 10; 46]) t.
Proof.
  intros Hl Ha Hc. apply Forall_forall. intros c Hin Hx.
  destruct (in_dec Z.eq_dec c [32; 10; 46]) as [Hw|Hw]; [exact Hw|].
  exfalso.
  assert (H32 : c <> 32) by (intros ->; apply Hw; simpl; tauto).
  assert (H10 : c <> 10) by (intros ->; apply Hw; simpl; tauto).
  assert (H46 : c <> 46) by (intros ->; apply Hw; simpl; tauto).
  unfold clean in Hc.
  destruct (is_none text); [injection Hc as <-; destruct Hin|].
  destruct (to_str text) as [|a r]; [injection Hc as <-; destruct Hin|].
  apply pipeline_ret in Hc. destruct Hc as (v & u & Hv & Hu & ->).
  destruct (filter_allowed_is_class L self v Ha) as (keep & Ek).
  rewrite Ek in Hu. injection Hu as <-.
  apply in_after_filter_plain in Hin; [|exact Hl].
  destruct Hin as [Hin|Hin]; [|lia].
  apply filter_In in Hin. destruct Hin as [Hin _].
  unfold before_filter in Hv.
  match type of Hv with
  | bind ?m _ = _ => destruct m as [s1|e]; cbn [bind] in Hv; [|discriminate]
  end.
  injection Hv as <-.
  pose proof (tags_to_extra_lacks_extra self s1 c Hin) as Hm.
  apply mem_false in Hm. contradiction.
Qed.

Lemma clean_removes_the_extra_characters_witness :
  Forall (fun c => In c (lit "$ ") -> In c [32; 10; 46]) (lit "1 2").
Proof.
  apply (clean_removes_the_extra_characters
           Small.lib
           {| remove_quotes := true; normalize_dashes := true;
              normalize_spaces := true; remove_html_tags := true;
              decode_html_entities := true; remove_invisible := true;
              preserve_newlines := false; lowercase := false;
              max_length := None; allowed_chars := None;
              extra_remove := lit "$ " |}
           (PyStr (lit "$1 $ " ++ [10] ++ lit "$2"))).
  - reflexivity.
  - exact I.
  - vm_compute. reflexivity.
Defined.

(** X20: with [allowed_chars] a class of characters, every character of
    the text [clean] returns is in the class, or is the space, the newline
    or the dot, which the stages after the filter write.  Lower case is off
    here. *)
Theorem clean_keeps_the_allowed_characters
        (L : PyLib) (self : TextCleaner) (text : pyobj) (t : str)
        (frag : str) (keep : Z -> bool) :
  lowercase self = false ->
  allowed_chars self = Some frag ->
  frag <> [] ->
  re_delete L (lit "[^" ++ frag ++ lit "]") = Some (filter keep) ->
  clean L self text = Ret t ->
  Forall (fun c => keep c = true \/ In c [32; 10; 46]) t.
Proof.
  intros Hl Hf Hne Hk Hc. apply Forall_forall. intros c Hin.
  unfold clean in Hc.
  destruct (is_none text); [injection Hc as <-; destruct Hin|].
  destruct (to_str text) as [|a r]; [injection Hc as <-; destruct Hin|].
  apply pipeline_ret in Hc. destruct Hc as (v & u & _ & Hu & ->).
  unfold filter_allowed in Hu. rewrite Hf in Hu.
  destruct frag as [|x frag]; [congruence|].
  rewrite Hk in Hu. injection Hu as <-.
  apply in_after_filter_plain in Hin; [|exact Hl].
  destruct Hin as [Hin|[->|[->| ->]]]; [|right; simpl; tauto ..].
  apply filter_In in Hin. left. apply Hin.
Qed.

Lemma clean_keeps_the_allowed_characters_witness :
  Forall (fun c => negb (xorb true (Small.in_set [(97, 122); (9, 9)] c)) = true
                   \/ In c [32; 10; 46])
         (lit "ab c...").
Proof.
  apply (clean_keeps_the_allowed_characters
           Small.lib
           {| remove_quotes := true; normalize_dashes := true;
              normalize_spaces := true; remove_html_tags := true;
              decode_html_entities := true; remove_invisible := true;
              preserve_newlines := false; lowercase := false;
              max_length := Some 6; allowed_chars := Some (lit "a-z" ++ [9]);
              extra_remove := [] |}
           (PyStr (lit "a1 b" ++ [9] ++ lit "c2" ++ [9] ++ lit "d efgh"))
           (lit "ab c...") (lit "a-z" ++ [9])).
  - reflexivity.
  - reflexivity.
  - discriminate.
  - vm_compute. reflexivity.
  - vm_compute. reflexivity.
Defined.

(** X21: lower case is final: with [lowercase=True] the text [clean]
    returns is its own lower case, also after truncation, and so is what
    [clean_email] returns.  (The runtime is asked that lowering is plain,
    and the pattern of [allowed_chars], when there is one, to be a class of
    characters.) *)
Theorem lower_case_is_final
        (L : PyLib) (self : TextCleaner) (text : pyobj) (t : str) :
  lower_is_plain L ->
  allowed_is_class L self ->
  lowercase self = true ->
  clean L self text = Ret t ->
  lower L t = t
  /\ lower L (clean_email L text) = clean_email L text.
Proof.
  intros HL Ha Hl Hc. split.
  - destruct (clean_settled L self text t (fun _ => HL) Ha Hc)
      as (_ & _ & Hf & _).
    apply lower_of_fixed. exact (Hf Hl).
  - apply lower_of_fixed. intros c Hin. unfold clean_email in Hin.
    destruct (negb (truth text)); [destruct Hin|].
    apply in_delete_chars in Hin. destruct Hin as [Hin _].
    apply in_delete_chars in Hin. destruct Hin as [Hin _].
    exact (lower_chars_fixed L _ (proj1 HL) c Hin).
Qed.

Lemma lower_case_is_final_witness :
  lower Small.lib (lit "hello...") = lit "hello..."
  /\ lower Small.lib (clean_email Small.lib (PyStr (lit " Hello <B>WORLD</B>")))
     = clean_email Small.lib (PyStr (lit " Hello <B>WORLD</B>")).
Proof.
  apply (lower_case_is_final
           Small.lib
           {| remove_quotes := true; normalize_dashes := true;
              normalize_spaces := true; remove_html_tags := true;
              decode_html_entities := true; remove_invisible := true;
              preserve_newlines := false; lowercase := true;
              max_length := Some 8; allowed_chars := None;
              extra_remove := [] |}
           (PyStr (lit " Hello <B>WORLD</B>"))).
  - exact lower_is_plain_small.
  - exact I.
  - reflexivity.
  - vm_compute. reflexivity.
Defined.

(** ** The functions of the module *)

Lemma settled_with_defaults L self t :
  settled L self t ->
  remove_html_tags self = true -> remove_invisible self = true ->
  normalize_spaces self = true -> normalize_dashes self = true ->
  strip t = t
  /\ ~ In 9 t
  /\ (forall a b, t <> a ++ 32 :: 32 :: b)
  /\ no_tag t
  /\ lacks INVISIBLE_CHARS t
  /\ lacks SPECIAL_SPACES t
  /\ lacks (flat_map fst DASHES) t.
Proof.
  intros Hs H2 H3 H4 H5.
  pose proof (settled_tidy L self t Hs) as Hw.
  destruct Hs as ((Ht & Hi & Hp & Hd & _) & _ & _ & Hr).
  split; [now apply trimmed_strip|].
  split; [exact (tidy_no_tab t Hw)|].
  split; [intros a b; exact (tidy_no_doubled_space t a b Hw)|].
  split; [exact (tagfree_no_tag t (Ht H2))|].
  split; [exact (Hi H3)|]. split; [exact (Hp H4) | exact (Hd H5)].
Qed.

(** X22: what the functions of the module promise, whatever the runtime:
    the text returned by [clean], [clean_product_name], [clean_brand],
    [clean_keep_quotes], [clean_multiline] or [clean_description] is
    stripped, holds no tab, no two spaces in a row and no tag, and none of
    the invisible characters, special spaces and dash variants of the
    tables. *)
Theorem module_functions_return_clean_text
        (L : PyLib) (f : pyobj -> exc str) (text : pyobj) (t : str) :
  In f [ Api.clean L; Api.clean_product_name L; Api.clean_brand L
       ; Api.clean_keep_quotes L; Api.clean_multiline L
       ; Api.clean_description L ] ->
  f text = Ret t ->
  strip t = t
  /\ ~ In 9 t
  /\ (forall a b, t <> a ++ 32 :: 32 :: b)
  /\ no_tag t
  /\ lacks INVISIBLE_CHARS t
  /\ lacks SPECIAL_SPACES t
  /\ lacks (flat_map fst DASHES) t.
Proof.
  intros Hin Hc.
  assert (Hs : exists self,
             settled L self t
             /\ remove_html_tags self = true /\ remove_invisible self = true
             /\ normalize_spaces self = true /\ normalize_dashes self = true).
  { simpl in Hin.
    destruct Hin as [<-|[<-|[<-|[<-|[<-|[<-|[]]]]]]];
      unfold Api.clean, Api.clean_product_name, Api.clean_brand,
        Api.clean_keep_quotes, Api.clean_multiline, Api.clean_description,
        clean_product_name, clean_brand, clean_description,
        TextCleaner_init in Hc;
      cbn [bind] in Hc;
      (eapply clean_settled in Hc; [|intros H; discriminate H | exact I]);
      eexists; (split; [exact Hc|]); repeat split. }
  destruct Hs as (self & Hs & H2 & H3 & H4 & H5).
  exact (settled_with_defaults L self t Hs H2 H3 H4 H5).
Qed.

Lemma module_functions_return_clean_text_witness :
  strip (lit "a " ++ [34] ++ lit "b" ++ [34] ++ lit " - c")
  = lit "a " ++ [34] ++ lit "b" ++ [34] ++ lit " - c"
  /\ ~ In 9 (lit "a " ++ [34] ++ lit "b" ++ [34] ++ lit " - c")
  /\ (forall a b, lit "a " ++ [34] ++ lit "b" ++ [34] ++ lit " - c"
                  <> a ++ 32 :: 32 :: b)
  /\ no_tag (lit "a " ++ [34] ++ lit "b" ++ [34] ++ lit " - c")
  /\ lacks INVISIBLE_CHARS (lit "a " ++ [34] ++ lit "b" ++ [34] ++ lit " - c")
  /\ lacks SPECIAL_SPACES (lit "a " ++ [34] ++ lit "b" ++ [34] ++ lit " - c")
  /\ lacks (flat_map fst DASHES)
           (lit "a " ++ [34] ++ lit "b" ++ [34] ++ lit " - c").
Proof.
  apply (module_functions_return_clean_text
           Small.lib (Api.clean_keep_quotes Small.lib)
           (PyStr (lit " a  &quot;<i>b</i>&quot;" ++ [0xA0; 0x2014; 9] ++ lit "c "))).
  - simpl. tauto.
  - vm_compute. reflexivity.
Defined.

(** ** The length of the result *)

Lemma sub_go_length m k s :
  (forall u n repl, m u = Some (n, repl) ->
                    (length repl <= n <= length u)%nat) ->
  (length (sub_go m k s) + Nat.min k (length s) <= length s)%nat.
Proof.
  intros Hm. revert k. induction s as [|c r IH]; intros k.
  - simpl. lia.
  - destruct k as [|k].
    + cbn [sub_go]. destruct (m (c :: r)) as [[[|n] repl]|] eqn:E.
      * specialize (IH O). simpl in *. lia.
      * pose proof (Hm _ _ _ E) as Hn. specialize (IH n).
        rewrite length_app. simpl in *. lia.
      * specialize (IH O). simpl in *. lia.
    + specialize (IH k). simpl in *. lia.
Qed.

Lemma re_sub_length m repl s :
  (forall u n, m u = Some n -> (length repl <= n <= length u)%nat) ->
  (length (re_sub (const_repl m repl) s) <= length s)%nat.
Proof.
  intros Hm. unfold re_sub.
  pose proof (sub_go_length (const_repl m repl) O s) as H.
  assert (Hc : forall u n repl', const_repl m repl u = Some (n, repl') ->
                                 (length repl' <= n <= length u)%nat).
  { intros u n repl'. unfold const_repl.
    destruct (m u) as [n'|] eqn:E; [|discriminate].
    intros Hr. injection Hr as <- <-. now apply Hm. }
  specialize (H Hc). lia.
Qed.

Lemma index_of_lt c s n : index_of c s = Some n -> (n < length s)%nat.
Proof.
  revert n. induction s as [|d r IH]; simpl; intros n; [discriminate|].
  destruct (d =? c); [intros H; injection H as <-; lia|].
  destruct (index_of c r) as [k|]; [|discriminate].
  intros H. injection H as <-. specialize (IH k eq_refl). lia.
Qed.

Lemma takewhile_length p s :
  (length (takewhile p s) + length (dropwhile p s) = length s)%nat.
Proof.
  rewrite <- length_app. now rewrite takewhile_dropwhile.
Qed.

Lemma opt_slash_length s :
  (fst (opt_slash s) + length (snd (opt_slash s)) = length s)%nat.
Proof.
  destruct s as [|c r]; [reflexivity|]. simpl.
  destruct (c =? 47); reflexivity.
Qed.

Lemma closes_length s : closes s = true -> (1 <= length s)%nat.
Proof. destruct s; simpl; [discriminate | lia]. Qed.

Lemma m_br_length u n :
  m_br u = Some n -> (length [10] <= n <= length u)%nat.
Proof.
  unfold m_br. destruct u as [|lt [|b [|r t]]]; try discriminate.
  destruct ((lt =? 60) && ci 98 66 b && ci 114 82 r); [|discriminate].
  pose proof (takewhile_length isspace t) as H1.
  pose proof (opt_slash_length (dropwhile isspace t)) as H2.
  destruct (opt_slash (dropwhile isspace t)) as [k t'].
  destruct (closes t') eqn:E; [|discriminate].
  apply closes_length in E. intros H. injection H as <-.
  simpl in *. lia.
Qed.

Lemma m_p_length u n :
  m_p u = Some n -> (length [10] <= n <= length u)%nat.
Proof.
  unfold m_p. destruct u as [|lt u]; [discriminate|].
  destruct (lt =? 60); [|discriminate].
  pose proof (opt_slash_length u) as H0.
  destruct (opt_slash u) as [k0 u']. destruct u' as [|p t]; [discriminate|].
  destruct (ci 112 80 p); [|discriminate].
  pose proof (takewhile_length isspace t) as H1.
  pose proof (opt_slash_length (dropwhile isspace t)) as H2.
  destruct (opt_slash (dropwhile isspace t)) as [k t'].
  destruct (closes t') eqn:E; [|discriminate].
  apply closes_length in E. intros H. injection H as <-.
  simpl in *. lia.
Qed.

Lemma m_li_length u n :
  m_li u = Some n -> (length [10; 0x2022; 32] <= n <= length u)%nat.
Proof.
  unfold m_li. destruct u as [|lt [|l [|i t]]]; try discriminate.
  destruct ((lt =? 60) && ci 108 76 l && ci_i i); [|discriminate].
  destruct (index_of 62 t) as [k|] eqn:E; [|discriminate].
  apply index_of_lt in E. intros H. injection H as <-. simpl. lia.
Qed.

Lemma m_tag_length u n :
  m_tag u = Some n -> (length (@nil Z) <= n <= length u)%nat.
Proof.
  unfold m_tag. destruct u as [|lt t]; [discriminate|].
  destruct (lt =? 60); [|discriminate].
  destruct (index_of 62 t) as [[|k]|] eqn:E; try discriminate.
  apply index_of_lt in E. intros H. injection H as <-. simpl. lia.
Qed.

Lemma m_spaces_length u n :
  m_spaces u = Some n -> (length [32] <= n <= length u)%nat.
Proof.
  unfold m_spaces. pose proof (takewhile_length is_blank u) as H1.
  destruct (length (takewhile is_blank u)) as [|k]; [discriminate|].
  intros H. injection H as <-. simpl. lia.
Qed.

Lemma m_newlines_length u n :
  m_newlines u = Some n -> (length [10; 10] <= n <= length u)%nat.
Proof.
  unfold m_newlines. destruct u as [|c t]; [discriminate|].
  destruct (c =? 10); [|discriminate].
  destruct (last_index_of 10 (takewhile isspace t)) as [j|] eqn:E;
    [|discriminate].
  apply last_index_of_some in E. destruct E as (a & b & E & Ha & _).
  pose proof (takewhile_length isspace t) as H1.
  rewrite E, length_app in H1.
  intros H. injection H as <-. simpl in *. lia.
Qed.

Lemma strip_tags_length s : (length (strip_tags s) <= length s)%nat.
Proof.
  unfold strip_tags.
  pose proof (re_sub_length m_br newline s m_br_length) as H1.
  pose proof (re_sub_length m_p newline _ m_p_length
                : (length (re_sub (const_repl m_p newline)
                             (re_sub (const_repl m_br newline) s))
                   <= _)%nat) as H2.
  pose proof (re_sub_length m_li [10; 0x2022; 32]
                (re_sub (const_repl m_p newline)
                   (re_sub (const_repl m_br newline) s)) m_li_length) as H3.
  pose proof (re_sub_length m_tag []
                (re_sub (const_repl m_li [10; 0x2022; 32])
                   (re_sub (const_repl m_p newline)
                      (re_sub (const_repl m_br newline) s))) m_tag_length) as H4.
  lia.
Qed.

Lemma delete_chars_length set s : (length (delete_chars set s) <= length s)%nat.
Proof. apply filter_length_le. Qed.

Lemma chars_to_space_length set s : length (chars_to_space set s) = length s.
Proof. apply length_map. Qed.

Lemma tags_to_extra_length self s :
  (length (tags_to_extra self s) <= length s)%nat.
Proof.
  unfold tags_to_extra.
  set (s2 := if remove_html_tags self then strip_tags s else s).
  set (s3 := if remove_invisible self
             then delete_chars INVISIBLE_CHARS s2 else s2).
  set (s4 := if normalize_spaces self
             then chars_to_space SPECIAL_SPACES s3 else s3).
  set (s5 := if normalize_dashes self then replace_items DASHES s4 else s4).
  set (s6 := if remove_quotes self then chars_to_space QUOTES s5 else s5).
  assert (H2 : (length s2 <= length s)%nat).
  { subst s2. destruct (remove_html_tags self);
      [apply strip_tags_length | lia]. }
  assert (H3 : (length s3 <= length s2)%nat).
  { subst s3. destruct (remove_invisible self);
      [apply delete_chars_length | lia]. }
  assert (H4 : length s4 = length s3).
  { subst s4. destruct (normalize_spaces self);
      [apply chars_to_space_length | reflexivity]. }
  assert (H5 : length s5 = length s4).
  { subst s5. destruct (normalize_dashes self); [|reflexivity].
    rewrite replace_items_dashes. apply length_map. }
  assert (H6 : length s6 = length s5).
  { subst s6. destruct (remove_quotes self);
      [apply chars_to_space_length | reflexivity]. }
  destruct (extra_remove self) as [|x extra]; [lia|].
  pose proof (delete_chars_length (x :: extra) s6). lia.
Qed.

Lemma single_line_length s : (length (single_line s) <= length s)%nat.
Proof.
  unfold single_line.
  pose proof (re_sub_length m_spaces [32]
                (replace [13] [32] (replace [10] [32] s)) m_spaces_length) as H.
  rewrite !replace_char, !length_map in H. rewrite !replace_char. exact H.
Qed.

Lemma thin_length s s' : thin s s' -> (length s' <= length s)%nat.
Proof. induction 1; simpl; lia. Qed.

Lemma normalize_lines_length s : (length (normalize_lines s) <= length s)%nat.
Proof.
  unfold normalize_lines.
  pose proof (re_sub_length m_spaces [32] s m_spaces_length) as H1.
  pose proof (re_sub_length m_newlines [10; 10]
                (re_sub (const_repl m_spaces [32]) s) m_newlines_length) as H2.
  pose proof (thin_length _ _
                (thin_strip_lines
                   (re_sub (const_repl m_newlines [10; 10])
                      (re_sub (const_repl m_spaces [32]) s)))) as H3.
  lia.
Qed.

Lemma strip_length s : (length (strip s) <= length s)%nat.
Proof.
  destruct (strip_parts s) as (a & b & E & _).
  rewrite E at 2. rewrite !length_app. lia.
Qed.

Lemma cut_length self s :
  len (cut self s) <= len s + 3
  /\ (max_length self = None -> cut self s = s).
Proof.
  split.
  - destruct (cut_cases self s) as [->|(kept & rest & E & ->)]; [lia|].
    rewrite E, !len_app. pose proof (len_nonneg rest).
    change (len dots) with 3. lia.
  - intros Hm. unfold cut. now rewrite Hm.
Qed.

(** X23: without entity decoding and lower case, [clean] does not make
    the text longer, apart from the three dots of the truncation: the
    result has at most three characters more than the string form of what
    was given, and not one more when there is no [max_length].  (The
    pattern of [allowed_chars], when there is one, is asked to be a class of
    characters.) *)
Theorem clean_does_not_lengthen
        (L : PyLib) (self : TextCleaner) (text : pyobj) (t : str) :
  decode_html_entities self = false ->
  lowercase self = false ->
  allowed_is_class L self ->
  clean L self text = Ret t ->
  len t <= len (to_str text) + 3
  /\ (max_length self = None -> len t <= len (to_str text)).
Proof.
  intros Hd Hl Ha Hc. unfold clean in Hc.
  pose proof (len_nonneg (to_str text)) as Hpos.
  destruct (is_none text);
    [injection Hc as <-; change (len []) with 0; split; [lia | intros _; lia]|].
  destruct (to_str text) as [|a r] eqn:Es;
    [injection Hc as <-; change (len []) with 0; split; [lia | intros _; lia]|].
  apply pipeline_ret in Hc. destruct Hc as (v & u & Hv & Hu & ->).
  destruct (filter_allowed_is_class L self v Ha) as (keep & Ek).
  rewrite Ek in Hu. injection Hu as <-.
  unfold before_filter in Hv. rewrite Hd in Hv. cbn [bind] in Hv.
  injection Hv as <-.
  set (x := filter keep (tags_to_extra self (a :: r))).
  assert (Hx : len (after_filter L self x) <= len (a :: r)).
  { unfold after_filter. rewrite Hl.
    pose proof (tags_to_extra_length self (a :: r)) as H1.
    pose proof (filter_length_le keep (tags_to_extra self (a :: r))) as H2.
    fold x in H2.
    set (y := if preserve_newlines self
              then normalize_lines x else single_line x).
    pose proof (strip_length y) as H3.
    assert (H4 : (length y <= length x)%nat).
    { subst y. destruct (preserve_newlines self);
        [apply normalize_lines_length | apply single_line_length]. }
    unfold len. lia. }
  destruct (cut_length self (after_filter L self x)) as [H3 Hn].
  split; [lia|]. intros Hm. now rewrite (Hn Hm).
Qed.

Lemma clean_does_not_lengthen_witness :
  len (lit "A B...") <= len (lit "<li>A  &  B  CDEFGH") + 3
  /\ (Some 8 = None -> len (lit "A B...") <= len (lit "<li>A  &  B  CDEFGH")).
Proof.
  apply (clean_does_not_lengthen
           Small.lib
           {| remove_quotes := true; normalize_dashes := true;
              normalize_spaces := true; remove_html_tags := true;
              decode_html_entities := false; remove_invisible := true;
              preserve_newlines := false; lowercase := false;
              max_length := Some 8; allowed_chars := Some (lit "A-Z -");
              extra_remove := lit "&" |}
           (PyStr (lit "<li>A  &  B  CDEFGH"))).
  - reflexivity.
  - reflexivity.
  - eexists. vm_compute. reflexivity.
  - vm_compute. reflexivity.
Defined.
